(** * addon-operator: module lifecycle engine

    A shallow embedding of the Go sources
    - the values patches of package [utils] (CompactPatches,
      ValidateHookValuesPatch),
    - [pkg/helm_resources_manager/resources_monitor.go] (ResourcesMonitor),
    - [pkg/module_manager/module.go] (Module.Run, runHelmInstall,
      ShouldRunHelmUpgrade, the enabled script),
    - [pkg/addon-operator/operator.go] (TaskHandler, event handlers,
      RunDiscoverModulesState, QueueHasModuleRunTask),
    with the properties of the specification stated over it.

    Conventions.  A Go [string] is a [string] (a sequence of bytes); a Go
    [map[string]T] is a [gmap string T]; a slice is a [list]; a function
    returning [(T, error)] returns a [result T]; code that calls external
    collaborators (Helm, the Kubernetes client, hook processes) is
    parameterised by what these calls answer. *)

From Stdlib Require Import ZArith String Ascii.
From stdpp Require Import gmap strings list sorting pretty.

Local Open Scope string_scope.
Local Open Scope list_scope.

(** ** Common data *)

(** A Go [interface{}] holding decoded JSON. *)
#[warnings="-register-all"]
Inductive JValue : Type :=
| JNull
| JBool (b : bool)
| JNum (n : Z)
| JStr (s : string)
| JArr (items : list JValue)
| JObj (fields : list (string * JValue)).

(** An [error] value carries its message. *)
Definition error := string.

(** [(T, error)] as a sum: the Go functions below never return both. *)
Inductive result (A : Type) : Type :=
| Ok (a : A)
| Err (e : error).
Arguments Ok {A} a.
Arguments Err {A} e.

(** ** Go string helpers *)

Module GoStrings.

(** [strings.HasPrefix(s, prefix)] *)
Definition HasPrefix (s pre : string) : bool := String.prefix pre s.

(** [strings.HasSuffix(s, suffix)]:
    [len(s) >= len(suffix) && s[len(s)-len(suffix):] == suffix] *)
Definition HasSuffix (s suffix : string) : bool :=
  (String.length suffix <=? String.length s)%nat
  && String.eqb
       (String.substring (String.length s - String.length suffix)
                         (String.length suffix) s)
       suffix.

(** [strings.Split(s, sep)] for a one-byte separator: the pieces between
    the separators, so that [Split "" sep = [""]]. *)
Fixpoint Split (s : string) (sep : ascii) : list string :=
  match s with
  | EmptyString => [EmptyString]
  | String c rest =>
      if Ascii.eqb c sep then EmptyString :: Split rest sep
      else match Split rest sep with
           | piece :: pieces => String c piece :: pieces
           | [] => [String c EmptyString]
           end
  end.

(** [strings.Contains(s, substr)] *)
Fixpoint Contains (s substr : string) : bool :=
  String.prefix substr s
  || match s with
     | EmptyString => false
     | String _ rest => Contains rest substr
     end.

(** Byte-wise order of [sort.Strings]. *)
Definition le (s1 s2 : string) : Prop := String.leb s1 s2 = true.

#[global] Instance le_dec : RelDecision le.
Proof. intros s1 s2. unfold le. apply _. Defined.

(** White space of [unicode.IsSpace] in its UTF-8 encoding: the ASCII
    bytes [\t \n \v \f \r] and space, U+0085 and U+00A0, and U+1680,
    U+2000..U+200A, U+2028, U+2029, U+202F, U+205F, U+3000. *)
Definition is_space1 (a : N) : bool :=
  ((9 <=? a) && (a <=? 13) || (a =? 32))%N.

Definition is_space2 (a b : N) : bool :=
  ((a =? 194) && ((b =? 133) || (b =? 160)))%N.

Definition is_space3 (a b c : N) : bool :=
  ((a =? 225) && (b =? 154) && (c =? 128)
   || (a =? 226) && (b =? 128)
      && ((128 <=? c) && (c <=? 138) || (c =? 168) || (c =? 169) || (c =? 175))
   || (a =? 226) && (b =? 129) && (c =? 159)
   || (a =? 227) && (b =? 128) && (c =? 128))%N.

(** [strings.TrimLeftFunc(s, unicode.IsSpace)] on the bytes of [s]. *)
Fixpoint trim_left (l : list N) : list N :=
  match l with
  | [] => []
  | a :: l1 =>
      if is_space1 a then trim_left l1
      else match l1 with
           | b :: l2 =>
               if is_space2 a b then trim_left l2
               else match l2 with
                    | c :: l3 => if is_space3 a b c then trim_left l3 else l
                    | [] => l
                    end
           | [] => l
           end
  end.

(** The same from the end, on the reversed bytes. *)
Fixpoint trim_left_rev (l : list N) : list N :=
  match l with
  | [] => []
  | c :: l1 =>
      if is_space1 c then trim_left_rev l1
      else match l1 with
           | b :: l2 =>
               if is_space2 b c then trim_left_rev l2
               else match l2 with
                    | a :: l3 => if is_space3 a b c then trim_left_rev l3 else l
                    | [] => l
                    end
           | [] => l
           end
  end.

Definition bytes_of (s : string) : list N :=
  N_of_ascii <$> list_ascii_of_string s.

Definition string_of (l : list N) : string :=
  string_of_list_ascii (ascii_of_N <$> l).

(** [strings.TrimSpace(s)] *)
Definition TrimSpace (s : string) : string :=
  string_of (rev (trim_left_rev (rev (trim_left (bytes_of s))))).

End GoStrings.

(** ** Values patches (package utils) *)

Module Patch.
Import GoStrings.

(** [type ValuesPatchOperation struct { Op, Path string; Value interface{} }] *)
Record ValuesPatchOperation : Type := mkOp {
  Op : string;
  Path : string;
  Value : JValue
}.

(** [type ValuesPatch struct { Operations []*ValuesPatchOperation }] *)
Record ValuesPatch : Type := mkPatch {
  Operations : list ValuesPatchOperation
}.

Definition GlobalValuesKey : string := "global".

(** The loop condition of CompactPatches:
    [len(op.Path) < len(subPath) && strings.HasPrefix(subPath, op.Path+"/")]. *)
Definition is_subpath (parent subPath : string) : bool :=
  (String.length parent <? String.length subPath)%nat
  && HasPrefix subPath (parent +:+ "/").

(** [for subPath := range patchesTree { if ... { delete(patchesTree, subPath) } }] *)
Definition delete_subpaths (parent : string)
    (patchesTree : gmap string (list ValuesPatchOperation))
    : gmap string (list ValuesPatchOperation) :=
  filter (fun kv => is_subpath parent kv.1 = false) patchesTree.

(** The virtual operation appended before a [remove] that has no [add]. *)
Definition guard_add (path : string) : ValuesPatchOperation :=
  {| Op := "add"; Path := path;
     Value := JStr "guard-patch-for-successful-remove" |}.

(** The inner loop of the [remove] case.  The [range] walks the slice that
    was stored under [op.Path] when the loop started; every previous [add]
    overwrites the entry with [[prevOp, op]]. *)
Definition squash_remove (op : ValuesPatchOperation)
    (prev : list ValuesPatchOperation)
    : list ValuesPatchOperation * bool :=
  foldl (fun acc prevOp =>
           if String.eqb (Op prevOp) "add" then ([prevOp; op], true) else acc)
        (prev, false) prev.

(** One iteration of [for _, op := range operations]. *)
Definition compact_step (patchesTree : gmap string (list ValuesPatchOperation))
    (op : ValuesPatchOperation) : gmap string (list ValuesPatchOperation) :=
  let t1 := if String.eqb (Op op) "remove"
            then delete_subpaths (Path op) patchesTree else patchesTree in
  let t2 := match t1 !! Path op with
            | Some _ => t1
            | None => <[Path op := []]> t1
            end in
  let t3 := if String.eqb (Op op) "add"
            then <[Path op := [op]]> t2 else t2 in
  if String.eqb (Op op) "remove" then
    let '(entry, hasPreviousAdd) :=
      squash_remove op (default [] (t3 !! Path op)) in
    if hasPreviousAdd then <[Path op := entry]> t3
    else <[Path op := [guard_add (Path op); op]]> t3
  else t3.

Definition compact_tree (operations : list ValuesPatchOperation)
    : gmap string (list ValuesPatchOperation) :=
  foldl compact_step ∅ operations.

(** [paths := keys(patchesTree); sort.Strings(paths)] *)
Definition sorted_paths (patchesTree : gmap string (list ValuesPatchOperation))
    : list string :=
  merge_sort le (map_to_list patchesTree).*1.

(** [for _, path := range paths { newOps = append(newOps, patchesTree[path]...) }] *)
Definition emit (patchesTree : gmap string (list ValuesPatchOperation))
    (paths : list string) : list ValuesPatchOperation :=
  flat_map (fun path => default [] (patchesTree !! path)) paths.

Definition CompactPatches (operations : list ValuesPatchOperation)
    : ValuesPatch :=
  let patchesTree := compact_tree operations in
  {| Operations := emit patchesTree (sorted_paths patchesTree) |}.

(** [CompactValuesPatches]: all operations of all patches, then the new
    patch, compacted to a single patch. *)
Definition CompactValuesPatches (valuesPatches : list ValuesPatch)
    (newValuesPatch : ValuesPatch) : list ValuesPatch :=
  [CompactPatches (flat_map Operations valuesPatches
                   ++ Operations newValuesPatch)].

Definition AppendValuesPatch := CompactValuesPatches.

(** Errors of ValidateHookValuesPatch. *)
Inductive PatchError : Type :=
| UnsupportedOperation (op : ValuesPatchOperation)
| UnacceptablePath (affectedKey acceptableKey : string)
                   (op : ValuesPatchOperation).

(** The body of the validation loop for one operation: [None] is
    [continue] (or falling out of the body), [Some e] is [return e]. *)
Definition validate_op (acceptableKey : string) (op : ValuesPatchOperation)
    : option PatchError :=
  if String.eqb (Op op) "replace" then Some (UnsupportedOperation op)
  else
    let pathParts := Split (Path op) "/" in
    if (1 <? length pathParts)%nat then
      let affectedKey := default "" (pathParts !! 1%nat) in
      if HasSuffix affectedKey "Enabled" && String.eqb acceptableKey GlobalValuesKey
      then None
      else if String.eqb affectedKey acceptableKey then None
      else Some (UnacceptablePath affectedKey acceptableKey op)
    else None.

(** [ValidateHookValuesPatch]: [None] is the [nil] error. *)
Fixpoint validate_ops (ops : list ValuesPatchOperation) (acceptableKey : string)
    : option PatchError :=
  match ops with
  | [] => None
  | op :: rest =>
      match validate_op acceptableKey op with
      | Some e => Some e
      | None => validate_ops rest acceptableKey
      end
  end.

Definition ValidateHookValuesPatch (valuesPatch : ValuesPatch)
    (acceptableKey : string) : option PatchError :=
  validate_ops (Operations valuesPatch) acceptableKey.

(** The first reference token of a JSON-Pointer path: [pathParts[1]] when
    the path has a ["/"], nothing for a path without one. *)
Definition first_segment (path : string) : option string :=
  Split path "/" !! 1%nat.

End Patch.

(** ** Manifests and the Kubernetes client (external collaborators) *)

(** What the code reads from a [manifest.Manifest] of shell-operator. *)
Record Manifest : Type := mkManifest {
  ApiVersion : string;
  Kind : string;
  ManifestName : string;
  MetadataNamespace : option string
}.

(** [m.Namespace(defaultNs)] of shell-operator's package [manifest], which
    is not among the sources of this repository: the [metadata.namespace]
    of the manifest when it is a string that is not empty, the default
    namespace otherwise. *)
Definition Namespace (m : Manifest) (defaultNs : string) : string :=
  match MetadataNamespace m with
  | Some ns => if String.eqb ns "" then defaultNs else ns
  | None => defaultNs
  end.

(** [m.Id()] of the same package:
    [fmt.Sprintf("%s/%s/%s", m.Namespace("default"), m.Kind(), m.Name())]. *)
Definition ManifestId (m : Manifest) : string :=
  Namespace m "default" +:+ "/" +:+ Kind m +:+ "/" +:+ ManifestName m.

#[global] Instance Manifest_eq_dec : EqDecision Manifest.
Proof. solve_decision. Defined.

(** ** Resources monitor (package helm_resources_manager) *)

Module Monitor.

(** [v1.APIResource], the fields the monitor uses. *)
Record APIResource : Type := mkAPIResource {
  Group : string;
  Version : string;
  ResourceName : string;
  Namespaced : bool
}.

Record GroupVersionResource : Type := mkGVR {
  gvrGroup : string;
  gvrVersion : string;
  gvrResource : string
}.

(** [v1.ListOptions] with a one-term field selector [field=value]. *)
Record ListOptions : Type := mkListOptions {
  FieldSelector : string * string
}.

Definition OneTermEqualSelector (field value : string) : string * string :=
  (field, value).

(** The answers of [kube.KubernetesClient].  The namespace argument is
    [Some ns] for [.Namespace(ns)] and [None] for a cluster-wide call.
    [List] returns a pointer and an error, each of which may be nil;
    the [Get] result object is dropped by the caller. *)
Record KubernetesClient : Type := mkKube {
  KubeAPIResource : string -> string -> result APIResource;
  KubeList : GroupVersionResource -> option string -> ListOptions ->
             option (list string) * option error;
  KubeGet : GroupVersionResource -> option string -> string -> option error
}.

Record ResourcesMonitor : Type := mkMonitor {
  paused : bool;
  moduleName : string;
  manifests : list Manifest;
  defaultNamespace : string;
  kubeClient : KubernetesClient;
  hasAbsentCb : bool
}.

(** A Go call either returns or panics (nil pointer dereference). *)
Inductive outcome (A : Type) : Type :=
| Returns (a : A)
| Panics.
Arguments Returns {A} a.
Arguments Panics {A}.

Definition Pause (r : ResourcesMonitor) : ResourcesMonitor :=
  {| paused := true; moduleName := moduleName r; manifests := manifests r;
     defaultNamespace := defaultNamespace r; kubeClient := kubeClient r;
     hasAbsentCb := hasAbsentCb r |}.

Definition Resume (r : ResourcesMonitor) : ResourcesMonitor :=
  {| paused := false; moduleName := moduleName r; manifests := manifests r;
     defaultNamespace := defaultNamespace r; kubeClient := kubeClient r;
     hasAbsentCb := hasAbsentCb r |}.

(** The body of [for _, m := range r.manifests] in AbsentResources:
    [inl res'] continues the loop, [inr o] leaves the function.  The
    error of [List] is overwritten by the error of [Get] before it is
    tested. *)
Definition absent_body (r : ResourcesMonitor) (res : list Manifest)
    (m : Manifest) : list Manifest + outcome (result (list Manifest)) :=
  match KubeAPIResource (kubeClient r) (ApiVersion m) (Kind m) with
  | Err e => inr (Returns (Err e))
  | Ok apiRes =>
      let gvr := {| gvrGroup := Group apiRes; gvrVersion := Version apiRes;
                    gvrResource := ResourceName apiRes |} in
      let listOptions :=
        {| FieldSelector := OneTermEqualSelector "metadata.name" (ManifestName m) |} in
      let ns := if Namespaced apiRes
                then Some (Namespace m (defaultNamespace r)) else None in
      let '(objList, _) := KubeList (kubeClient r) gvr ns listOptions in
      let err := KubeGet (kubeClient r) gvr ns (ManifestName m) in
      match err with
      | Some e =>
          inr (Returns (Err ("Fetch list for helm resource " +:+ ManifestId m
                             +:+ ": " +:+ e)))
      | None =>
          match objList with
          | None => inr Panics
          | Some items =>
              if (length items =? 0)%nat then inl (res ++ [m]) else inl res
          end
      end
  end.

Fixpoint absent_loop (r : ResourcesMonitor) (ms : list Manifest)
    (res : list Manifest) : outcome (result (list Manifest)) :=
  match ms with
  | [] => Returns (Ok res)
  | m :: rest =>
      match absent_body r res m with
      | inl res' => absent_loop r rest res'
      | inr o => o
      end
  end.

Definition AbsentResources (r : ResourcesMonitor)
    : outcome (result (list Manifest)) :=
  absent_loop r (manifests r) [].

(** A call of [absentCb(moduleName, absent, defaultNs)]. *)
Record AbsentCall : Type := mkAbsentCall {
  cbModuleName : string;
  cbAbsent : list Manifest;
  cbDefaultNs : string
}.

(** One [case <-timer.C] of the loop in Start: the callback calls made.
    After an error [absent] is nil. *)
Definition tick (r : ResourcesMonitor) : outcome (list AbsentCall) :=
  if paused r then Returns []
  else
    match AbsentResources r with
    | Panics => Panics
    | Returns res =>
        let absent := match res with Ok a => a | Err _ => [] end in
        if (0 <? length absent)%nat then
          if hasAbsentCb r
          then Returns [mkAbsentCall (moduleName r) absent (defaultNamespace r)]
          else Returns []
        else Returns []
    end.

(** The list the monitor fetches for a manifest: the objects of the
    manifest's resource whose [metadata.name] is the manifest's name. *)
Definition listed (r : ResourcesMonitor) (m : Manifest)
    : option (option (list string)) :=
  match KubeAPIResource (kubeClient r) (ApiVersion m) (Kind m) with
  | Err _ => None
  | Ok apiRes =>
      Some (KubeList (kubeClient r)
              {| gvrGroup := Group apiRes; gvrVersion := Version apiRes;
                 gvrResource := ResourceName apiRes |}
              (if Namespaced apiRes
               then Some (Namespace m (defaultNamespace r)) else None)
              {| FieldSelector := OneTermEqualSelector "metadata.name" (ManifestName m) |}).1
  end.

End Monitor.

(** ** Sequencing of effects

    Code that calls collaborators and returns [error] is written in a state
    and error monad: a computation takes the state it runs in and gives
    the state it leaves and either a value or the error it returned. *)

Definition M (S A : Type) : Type := S -> S * result A.

Definition ret {S A} (a : A) : M S A := fun s => (s, Ok a).

Definition fail {S A} (e : error) : M S A := fun s => (s, Err e).

Definition bind {S A B} (c : M S A) (k : A -> M S B) : M S B :=
  fun s => match c s with
           | (s', Ok a) => k a s'
           | (s', Err e) => (s', Err e)
           end.

Notation "'do' x <- c ; k" := (bind c (fun x => k))
  (at level 10, x pattern, c at level 100, k at level 200).
Notation "c ;; k" := (bind c (fun _ => k))
  (at level 100, k at level 200, right associativity).

(** [defer cleanup] around [body]: [cleanup] runs when [body] has returned,
    whatever it returned; what [cleanup] itself answers is dropped. *)
Definition defer {S A} (cleanup : M S unit) (body : M S A) : M S A :=
  fun s => let '(s1, r) := body s in
           let '(s2, _) := cleanup s1 in (s2, r).

(** [if err != nil { return err }] on a plain [error]. *)
Definition check (err : option error) : result unit :=
  match err with
  | None => Ok tt
  | Some e => Err e
  end.

(** Hook bindings ([BindingType] of shell-operator and addon-operator). *)
Inductive BindingType : Type :=
| OnStartup | BeforeHelm | AfterHelm | AfterDeleteHelm
| BeforeAll | AfterAll | Schedule | OnKubernetesEvent.

#[global] Instance BindingType_eq_dec : EqDecision BindingType.
Proof. solve_decision. Defined.

(** [ContextBindingType]: the name of a binding in a binding context. *)
Definition ContextBindingType (b : BindingType) : string :=
  match b with
  | OnStartup => "onStartup"
  | BeforeHelm => "beforeHelm"
  | AfterHelm => "afterHelm"
  | AfterDeleteHelm => "afterDeleteHelm"
  | BeforeAll => "beforeAll"
  | AfterAll => "afterAll"
  | Schedule => "schedule"
  | OnKubernetesEvent => "kubernetes"
  end.

(** [BindingContext], the fields the engine sets. *)
Record BindingContext : Type := mkBindingContext {
  Binding : string;
  Snapshots : option JValue;
  IncludeAllSnapshots : bool;
  MetadataBindingType : option BindingType
}.

#[global] Instance JValue_inhabited : Inhabited JValue := populate JNull.

(** ** Module engine (package module_manager) *)

Module Engine.
Import GoStrings.

(** [type Module struct], the fields the engine reads and writes. *)
Record Module : Type := mkModule {
  Name : string;
  Path : string;
  LastReleaseManifests : list Manifest
}.

(** What [os.Stat] answers. *)
Inductive StatResult : Type :=
| StatNotExist
| StatFailed (e : error)
| StatInfo (mode : Z).

(** [utils_file.IsFileExecutable(f)]: [f.Mode()&0111 != 0]. *)
Definition IsFileExecutable (mode : Z) : bool :=
  negb (Z.land mode 73 =? 0)%Z.

(** What the engine does that can be seen from outside, in the order it
    is done: its calls that change something, the rendering of the
    chart and the samples of the values checksum. *)
Inductive Event : Type :=
| CallDeleteSingleFailedRevision (releaseName : string)
| CallDeleteOldFailedRevisions (releaseName : string)
| CallStopMonitor (moduleName : string)
| CallStartMonitor (moduleName : string) (manifests : list Manifest) (ns : string)
| CallHookRun (hookName : string) (binding : BindingType) (bc : BindingContext)
| CallAfterStartupCb
| SampleValuesChecksum (checksum : result string)
| CallWriteFile (path data : string)
| CallCreateEmptyWritableFile (path : string)
| CallRemove (path : string)
| CallRender (chartPath : string) (valuesPaths setValues : list string)
             (ns : string) (rendered : result string)
| CallUpgradeRelease (releaseName chartPath : string)
                     (valuesPaths setValues : list string) (ns : string)
| CallRunScript (path : string) (envs : list string).

(** The collaborators of the engine over an outside world [W] (cluster,
    Helm releases, file system, the values kept by the module manager).
    A query reads the world; an action changes it. *)
Record Collaborators (W : Type) : Type := mkCollaborators {
  (* os, filepath, uuid *)
  Stat : W -> string -> StatResult;
  ReadFile : W -> string -> result string;
  WriteFile : string -> string -> W -> W * option error;
  CreateEmptyWritableFile : string -> W -> W * option error;
  Remove : string -> W -> W * option error;
  Environ : W -> list string;
  NewUUID : W -> W * string;
  Join : string -> string -> string;
  RunAndLogLines : string -> list string -> W -> W * option error;
  (* helm client *)
  DeleteSingleFailedRevision : string -> W -> W * option error;
  DeleteOldFailedRevisions : string -> W -> W * option error;
  IsReleaseExists : W -> string -> result bool;
  LastReleaseStatus : W -> string -> result (string * string);
  GetReleaseValues : W -> string -> result (gmap string JValue);
  Render : W -> string -> list string -> list string -> string -> result string;
  UpgradeRelease : string -> string -> list string -> list string -> string ->
                   W -> W * option error;
  (* helm resources manager *)
  StopMonitor : string -> W -> W;
  HasMonitor : W -> string -> bool;
  StartMonitor : string -> list Manifest -> string -> W -> W;
  GetAbsentResources : W -> list Manifest -> string -> result (list Manifest);
  (* module manager *)
  TempDir : string;
  GetModuleHooksInOrder : W -> string -> BindingType -> list string;
  KubernetesSnapshots : W -> string -> JValue;
  HookRun : string -> BindingType -> list BindingContext -> W -> W * option error;
  ModuleValues : W -> Module -> JValue;
  ModuleConfigValues : W -> Module -> JValue;
  ValuesForEnabledScript : W -> Module -> list string -> JValue;
  (* utils, app *)
  JsonMarshal : JValue -> result string;
  YamlMarshal : JValue -> result string;
  CalculateChecksum : string -> string;
  CalculateStringsChecksum : string -> string;
  GetManifestListFromYamlDocuments : string -> result (list Manifest);
  SanitizeBaseName : string -> string;
  AppNamespace : string;
  DebugKeepTmpFiles : string
}.

Arguments Stat {W}.
Arguments ReadFile {W}.
Arguments WriteFile {W}.
Arguments CreateEmptyWritableFile {W}.
Arguments Remove {W}.
Arguments Environ {W}.
Arguments NewUUID {W}.
Arguments Join {W}.
Arguments RunAndLogLines {W}.
Arguments DeleteSingleFailedRevision {W}.
Arguments DeleteOldFailedRevisions {W}.
Arguments IsReleaseExists {W}.
Arguments LastReleaseStatus {W}.
Arguments GetReleaseValues {W}.
Arguments Render {W}.
Arguments UpgradeRelease {W}.
Arguments StopMonitor {W}.
Arguments HasMonitor {W}.
Arguments StartMonitor {W}.
Arguments GetAbsentResources {W}.
Arguments TempDir {W}.
Arguments GetModuleHooksInOrder {W}.
Arguments KubernetesSnapshots {W}.
Arguments HookRun {W}.
Arguments ModuleValues {W}.
Arguments ModuleConfigValues {W}.
Arguments ValuesForEnabledScript {W}.
Arguments JsonMarshal {W}.
Arguments YamlMarshal {W}.
Arguments CalculateChecksum {W}.
Arguments CalculateStringsChecksum {W}.
Arguments GetManifestListFromYamlDocuments {W}.
Arguments SanitizeBaseName {W}.
Arguments AppNamespace {W}.
Arguments DebugKeepTmpFiles {W}.

(** The state a method of [*Module] runs in: the world, the receiver and
    the calls made so far. *)
Record State (W : Type) : Type := mkState {
  world : W;
  self : Module;
  trace : list Event
}.
Arguments mkState {W}.
Arguments world {W}.
Arguments self {W}.
Arguments trace {W}.

Section EngineCode.
Context {W : Type} (ext : Collaborators W).

(** Reading the world and the receiver. *)
Definition ask {A} (f : W -> Module -> A) : M (State W) A :=
  fun s => (s, Ok (f (world s) (self s))).

(** A query that can fail. *)
Definition query {A} (f : W -> Module -> result A) : M (State W) A :=
  fun s => (s, f (world s) (self s)).

(** Recording a call. *)
Definition log_call (ev : Event) : M (State W) unit :=
  fun s => ({| world := world s; self := self s;
               trace := trace s ++ [ev] |}, Ok tt).

(** An action on the world that returns an [error]. *)
Definition act (ev : Event) (f : W -> W * option error) : M (State W) unit :=
  fun s => let '(w', err) := f (world s) in
           ({| world := w'; self := self s; trace := trace s ++ [ev] |},
            check err).

(** An action on the world that returns nothing. *)
Definition act_ (ev : Event) (f : W -> W) : M (State W) unit :=
  fun s => ({| world := f (world s); self := self s;
               trace := trace s ++ [ev] |}, Ok tt).

(** An action that returns a value and is not recorded. *)
Definition draw {A} (f : W -> W * A) : M (State W) A :=
  fun s => let '(w', a) := f (world s) in
           ({| world := w'; self := self s; trace := trace s |}, Ok a).

(** [m.LastReleaseManifests = manifests] *)
Definition set_LastReleaseManifests (manifests : list Manifest)
    : M (State W) unit :=
  fun s => ({| world := world s;
               self := {| Name := Name (self s); Path := Path (self s);
                          LastReleaseManifests := manifests |};
               trace := trace s |}, Ok tt).

Definition generateHelmReleaseName (m : Module) : string := Name m.

Definition SafeName (m : Module) : string := SanitizeBaseName ext (Name m).

Definition checkHelmChart (w : W) (m : Module) : bool * option error :=
  let chartPath := Join ext (Path m) "Chart.yaml" in
  match Stat ext w chartPath with
  | StatNotExist =>
      (false, Some ("path '" +:+ chartPath +:+ "' is not found"))
  | _ => (true, None)
  end.

Definition cleanup : M (State W) unit :=
  do (chartExists, err) <- ask checkHelmChart;
  if negb chartExists && bool_decide (err <> None) then ret tt
  else
    do releaseName <- ask (fun _ m => generateHelmReleaseName m);
    act (CallDeleteSingleFailedRevision releaseName)
        (DeleteSingleFailedRevision ext releaseName) ;;
    act (CallDeleteOldFailedRevisions releaseName)
        (DeleteOldFailedRevisions ext releaseName).

(** The binding context built for a hook of [binding]. *)
Definition hook_context (w : W) (moduleHookName : string)
    (binding : BindingType) : BindingContext :=
  let withSnapshots :=
    bool_decide (binding = BeforeHelm \/ binding = AfterHelm
                 \/ binding = AfterDeleteHelm) in
  {| Binding := ContextBindingType binding;
     Snapshots := if withSnapshots
                  then Some (KubernetesSnapshots ext w moduleHookName)
                  else None;
     IncludeAllSnapshots := withSnapshots;
     MetadataBindingType := Some binding |}.

(** [for _, moduleHookName := range moduleHooks { ... }] *)
Fixpoint run_hooks (binding : BindingType) (moduleHooks : list string)
    : M (State W) unit :=
  match moduleHooks with
  | [] => ret tt
  | moduleHookName :: rest =>
      do bc <- ask (fun w _ => hook_context w moduleHookName binding);
      act (CallHookRun moduleHookName binding bc)
          (HookRun ext moduleHookName binding [bc]) ;;
      run_hooks binding rest
  end.

Definition runHooksByBinding (binding : BindingType) : M (State W) unit :=
  do moduleHooks <- ask (fun w m => GetModuleHooksInOrder ext w (Name m) binding);
  run_hooks binding moduleHooks.

(** [m.Values().Checksum()] *)
Definition values_checksum (w : W) (m : Module) : result string :=
  match JsonMarshal ext (ModuleValues ext w m) with
  | Ok valuesJson => Ok (CalculateChecksum ext valuesJson)
  | Err e => Err e
  end.

Definition sample_checksum : M (State W) string :=
  fun s => let r := values_checksum (world s) (self s) in
           ({| world := world s; self := self s;
               trace := trace s ++ [SampleValuesChecksum r] |}, r).

Definition runHooksByBindingAndCheckValues (binding : BindingType)
    : M (State W) bool :=
  do moduleHooks <- ask (fun w m => GetModuleHooksInOrder ext w (Name m) binding);
  do valuesChecksum <- sample_checksum;
  run_hooks binding moduleHooks ;;
  do newValuesChecksum <- sample_checksum;
  if negb (String.eqb newValuesChecksum valuesChecksum)
  then ret true else ret false.

(** [dumpData] into a fresh file of the temporary directory. *)
Definition dump_to_tmp (suffix : string -> string) (data : string)
    : M (State W) string :=
  do uuid <- draw (NewUUID ext);
  do path <- ask (fun _ m => Join ext (TempDir ext) (SafeName m +:+ suffix uuid));
  act (CallWriteFile path data) (WriteFile ext path data) ;;
  ret path.

Definition prepareConfigValuesJsonFile : M (State W) string :=
  do data <- query (fun w m => JsonMarshal ext (ModuleConfigValues ext w m));
  dump_to_tmp (fun uuid => ".module-config-values-" +:+ uuid +:+ ".json") data.

Definition prepareValuesYamlFile : M (State W) string :=
  do data <- query (fun w m => YamlMarshal ext (ModuleValues ext w m));
  dump_to_tmp (fun uuid => ".module-values.yaml-" +:+ uuid) data.

Definition prepareValuesJsonFileForEnabledScript
    (precedingEnabledModules : list string) : M (State W) string :=
  do data <- query (fun w m =>
               JsonMarshal ext
                 (ValuesForEnabledScript ext w m precedingEnabledModules));
  dump_to_tmp (fun uuid => ".module-values-" +:+ uuid +:+ ".json") data.

Definition prepareModuleEnabledResultFile : M (State W) string :=
  do path <- ask (fun _ m =>
               Join ext (TempDir ext) (Name m +:+ ".module-enabled-result"));
  act (CallCreateEmptyWritableFile path) (CreateEmptyWritableFile ext path) ;;
  ret path.

Definition checksum_key : string := "_addonOperatorModuleChecksum".

Definition ShouldRunHelmUpgrade (releaseName checksum : string)
    (manifests : list Manifest) (w : W) : result bool :=
  match IsReleaseExists ext w releaseName with
  | Err e => Err e
  | Ok isReleaseExists =>
      if negb isReleaseExists then Ok true
      else
        match LastReleaseStatus ext w releaseName with
        | Err e => Err e
        | Ok (_, status) =>
            if String.eqb status "FAILED" then Ok true
            else
              match GetReleaseValues ext w releaseName with
              | Err e => Err e
              | Ok releaseValues =>
                  match releaseValues !! checksum_key with
                  | None => Ok true
                  | Some recordedChecksum =>
                      if match recordedChecksum with
                         | JStr recordedChecksumStr =>
                             negb (String.eqb recordedChecksumStr checksum)
                         | _ => false
                         end
                      then Ok true
                      else
                        match GetAbsentResources ext w manifests
                                (AppNamespace ext) with
                        | Err e => Err e
                        | Ok absent =>
                            if (0 <? length absent)%nat then Ok true
                            else Ok false
                        end
                  end
              end
        end
  end.

Definition runHelmInstall : M (State W) unit :=
  do (chartExists, err) <- ask checkHelmChart;
  if negb chartExists && bool_decide (err <> None) then ret tt
  else
    do m <- ask (fun _ m => m);
    let helmReleaseName := generateHelmReleaseName m in
    do valuesPath <- prepareValuesYamlFile;
    do rendered <- ask (fun w _ =>
                     Render ext w (Path m) [valuesPath] [] (AppNamespace ext));
    log_call (CallRender (Path m) [valuesPath] [] (AppNamespace ext) rendered) ;;
    do renderedManifests <- query (fun _ _ => rendered);
    let checksum := CalculateStringsChecksum ext renderedManifests in
    do manifests <- query (fun _ _ =>
                      GetManifestListFromYamlDocuments ext renderedManifests);
    set_LastReleaseManifests manifests ;;
    do runUpgradeRelease <- query (fun w _ =>
                              ShouldRunHelmUpgrade helmReleaseName checksum
                                                   manifests w);
    if negb runUpgradeRelease then
      do hasMonitor <- ask (fun w _ => HasMonitor ext w (Name m));
      if negb hasMonitor
      then act_ (CallStartMonitor (Name m) manifests (AppNamespace ext))
                (StartMonitor ext (Name m) manifests (AppNamespace ext))
      else ret tt
    else
      let setValues := [checksum_key +:+ "=" +:+ checksum] in
      act (CallUpgradeRelease helmReleaseName (Path m) [valuesPath]
                              setValues (AppNamespace ext))
          (UpgradeRelease ext helmReleaseName (Path m) [valuesPath]
                          setValues (AppNamespace ext)) ;;
      act_ (CallStartMonitor (Name m) manifests (AppNamespace ext))
           (StartMonitor ext (Name m) manifests (AppNamespace ext)).

(** [Module.Run], the handler of a ModuleRun task. *)
Definition Run (onStartup : bool) (afterStartupCb : W -> W * option error)
    : M (State W) bool :=
  cleanup ;;
  do name <- ask (fun _ m => Name m);
  act_ (CallStopMonitor name) (StopMonitor ext name) ;;
  (if onStartup then
     runHooksByBinding OnStartup ;;
     act CallAfterStartupCb afterStartupCb
   else ret tt) ;;
  runHooksByBinding BeforeHelm ;;
  runHelmInstall ;;
  do valuesChanged <- runHooksByBindingAndCheckValues AfterHelm;
  ret valuesChanged.

(** [readModuleEnabledResult(filePath)] *)
Definition readModuleEnabledResult (filePath : string) (w : W)
    : result bool :=
  match ReadFile ext w filePath with
  | Err e => Err ("cannot read " +:+ filePath +:+ ": " +:+ e)
  | Ok data =>
      let value := TrimSpace data in
      if String.eqb value "true" then Ok true
      else if String.eqb value "false" then Ok false
      else Err ("expected 'true' or 'false', got '" +:+ value +:+ "'")
  end.

(** The deferred removal of a temporary file. *)
Definition remove_tmp (path : string) : M (State W) unit :=
  if String.eqb (DebugKeepTmpFiles ext) "yes" then ret tt
  else act (CallRemove path) (Remove ext path).

(** The part of [checkIsEnabledByScript] after the checks of the script
    file: the three files are prepared, each with its deferred
    removal, the script is run and its result is read. *)
Definition run_enabled_script (precedingEnabledModules : list string)
    (enabledScriptPath : string) : M (State W) bool :=
  do configValuesPath <- prepareConfigValuesJsonFile;
  defer (remove_tmp configValuesPath)
    (do valuesPath <-
       prepareValuesJsonFileForEnabledScript precedingEnabledModules;
     defer (remove_tmp valuesPath)
       (do enabledResultFilePath <- prepareModuleEnabledResultFile;
        defer (remove_tmp enabledResultFilePath)
          (do environ <- ask (fun w _ => Environ ext w);
           let envs :=
             environ
             ++ ["CONFIG_VALUES_PATH=" +:+ configValuesPath;
                 "VALUES_PATH=" +:+ valuesPath;
                 "MODULE_ENABLED_RESULT=" +:+ enabledResultFilePath] in
           act (CallRunScript enabledScriptPath envs)
               (RunAndLogLines ext enabledScriptPath envs) ;;
           do read <- ask (fun w _ =>
                        readModuleEnabledResult enabledResultFilePath w);
           match read with
           | Err _ => fail "bad enabled result"
           | Ok moduleEnabled => ret moduleEnabled
           end))).

Definition checkIsEnabledByScript (precedingEnabledModules : list string)
    : M (State W) bool :=
  do enabledScriptPath <- ask (fun _ m => Join ext (Path m) "enabled");
  do f <- ask (fun w _ => Stat ext w enabledScriptPath);
  match f with
  | StatNotExist => ret true
  | StatFailed e => fail e
  | StatInfo mode =>
      if negb (IsFileExecutable mode)
      then fail "non-executable enable script"
      else run_enabled_script precedingEnabledModules enabledScriptPath
  end.

End EngineCode.

End Engine.

(** ** Tasks and the main queue *)

Module Queue.

Inductive TaskType : Type :=
| GlobalHookRun
| GlobalHookEnableKubernetesBindings
| ModuleRun
| ModuleDelete
| ModulePurge
| ModuleHookRun
| DiscoverModulesState
| ModuleManagerRetry.

#[global] Instance TaskType_eq_dec : EqDecision TaskType.
Proof. solve_decision. Defined.

(** [task.HookMetadata]; an unset [BindingType] is [None]. *)
Record HookMetadata : Type := mkHookMetadata {
  EventDescription : string;
  HookName : string;
  ModuleName : string;
  MetaBindingType : option BindingType;
  MetaBindingContext : list BindingContext;
  AllowFailure : bool;
  OnStartupHooks : bool;
  ReloadAllOnValuesChanges : bool;
  LastAfterAllHook : bool;
  ValuesChecksum : string
}.


(** A task ([sh_task.Task]); log labels are left out. *)
Record Task : Type := mkTask {
  Type_ : TaskType;
  QueueName : string;
  Metadata : HookMetadata;
  FailureCount : nat
}.

(** [sh_task.NewTask(t).WithQueueName(q).WithMetadata(hm)] *)
Definition NewTask (t : TaskType) (queueName : string) (hm : HookMetadata)
    : Task :=
  {| Type_ := t; QueueName := queueName; Metadata := hm; FailureCount := 0 |}.

(** [queue.TaskResult] *)
Record TaskResult : Type := mkTaskResult {
  Status : string;
  HeadTasks : list Task;
  AfterTasks : list Task;
  DelayBeforeNextTask : bool
}.

Definition emptyResult : TaskResult :=
  {| Status := ""; HeadTasks := []; AfterTasks := [];
     DelayBeforeNextTask := false |}.

(** Modelled from the spec: the task queue of shell-operator (package
    [queue], not among the sources) is a FIFO of tasks; [AddLast] appends,
    [AddFirst] prepends. *)
Definition AddLast (t : Task) (q : list Task) : list Task := q ++ [t].



Definition IncrementFailureCount (t : Task) : Task :=
  {| Type_ := Type_ t; QueueName := QueueName t; Metadata := Metadata t;
     FailureCount := S (FailureCount t) |}.


End Queue.

(** ** The operator (package addon_operator) *)

Module Operator.
Import GoStrings Queue.

(** What [DiscoverModulesState] of the module manager returns. *)
Record ModulesState : Type := mkModulesState {
  EnabledModules : list string;
  ModulesToDisable : list string;
  ReleasedUnknownModules : list string;
  NewlyEnabledModules : list string
}.

(** [controller.BindingExecutionInfo] with the hook it is for. *)
Record BindingExecutionInfo : Type := mkInfo {
  InfoHookName : string;
  InfoBindingContext : list BindingContext;
  InfoAllowFailure : bool;
  InfoQueueName : string
}.


(** Calls of the task handler on its collaborators, in order. *)
Inductive Call : Type :=
| CallPauseMonitor (moduleName : string)
| CallResumeMonitor (moduleName : string)
| CallStopMonitors
| CallRunModuleHook (hookName : string)
| CallRunGlobalHook (hookName : string)
| CallRunModule (moduleName : string) (onStartup : bool)
| CallDeleteModule (moduleName : string)
| CallDeleteRelease (releaseName : string)
| CallDiscoverModulesState
| CallRetry.

Abbreviation Monitors := (gmap string Monitor.ResourcesMonitor).

(** The collaborators of the operator over an outside world [W]: the
    module manager, the hook controllers, Helm and the metric storage.
    [RunModule] and [DeleteModule] also stop and start resource
    monitors. *)
Record Collaborators (W : Type) : Type := mkCollaborators {
  RunGlobalHook : string -> option BindingType -> list BindingContext ->
                  W -> W * (string * string * option error);
  RunModuleHook : string -> option BindingType -> list BindingContext ->
                  W -> W * option error;
  RunModule : string -> bool -> (W -> W * option error) ->
              W * Monitors -> (W * Monitors) * result bool;
  DeleteModule : string -> W * Monitors -> (W * Monitors) * option error;
  DiscoverModulesState : W -> W * result ModulesState;
  GetGlobalHooksInOrder : W -> BindingType -> list string;
  GlobalValuesChecksum : W -> result string;
  GlobalHookLabel : W -> string -> string;
  ModuleHookLabels : W -> string -> string * string;
  HandleGlobalEnableKubernetesBindings :
    string -> W -> W * result (list BindingExecutionInfo);
  HandleModuleEnableKubernetesBindings :
    string -> W -> W * result (list BindingExecutionInfo);
  StartModuleHooks : string -> W -> W;
  StartHookMonitors : string -> W -> W;
  EnableScheduleBindings : string -> W -> W;
  InitAndStartHookQueues : W -> W;
  RegisterModuleHooks : string -> W -> W * option error;
  DisableModuleHooks : string -> W -> W;
  Retry : W -> W;
  DeleteRelease : string -> W -> W * option error;
  SendCounter : string -> list (string * string) -> W -> W
}.

Arguments RunGlobalHook {W}.
Arguments RunModuleHook {W}.
Arguments RunModule {W}.
Arguments DeleteModule {W}.
Arguments DiscoverModulesState {W}.
Arguments GetGlobalHooksInOrder {W}.
Arguments GlobalValuesChecksum {W}.
Arguments GlobalHookLabel {W}.
Arguments ModuleHookLabels {W}.
Arguments HandleGlobalEnableKubernetesBindings {W}.
Arguments HandleModuleEnableKubernetesBindings {W}.
Arguments StartModuleHooks {W}.
Arguments StartHookMonitors {W}.
Arguments EnableScheduleBindings {W}.
Arguments InitAndStartHookQueues {W}.
Arguments RegisterModuleHooks {W}.
Arguments DisableModuleHooks {W}.
Arguments Retry {W}.
Arguments DeleteRelease {W}.
Arguments SendCounter {W}.

(** The operator's state: the world, the resource monitors by module,
    the main queue and the calls made so far. *)
Record State (W : Type) : Type := mkState {
  world : W;
  monitors : Monitors;
  mainQueue : list Task;
  calls : list Call
}.
Arguments mkState {W}.
Arguments world {W}.
Arguments monitors {W}.
Arguments mainQueue {W}.
Arguments calls {W}.


Section OperatorCode.
Context {W : Type} (ext : Collaborators W).

Definition on_world (f : W -> W) (s : State W) : State W :=
  {| world := f (world s); monitors := monitors s;
     mainQueue := mainQueue s; calls := calls s |}.

Definition with_world {A} (f : W -> W * A) (s : State W) : State W * A :=
  let '(w', a) := f (world s) in
  ({| world := w'; monitors := monitors s; mainQueue := mainQueue s;
      calls := calls s |}, a).

Definition with_world_monitors {A}
    (f : W * Monitors -> (W * Monitors) * A) (s : State W) : State W * A :=
  let '((w', ms'), a) := f (world s, monitors s) in
  ({| world := w'; monitors := ms'; mainQueue := mainQueue s;
      calls := calls s |}, a).

Definition on_monitors (f : Monitors -> Monitors) (s : State W) : State W :=
  {| world := world s; monitors := f (monitors s);
     mainQueue := mainQueue s; calls := calls s |}.

Definition on_queue (f : list Task -> list Task) (s : State W) : State W :=
  {| world := world s; monitors := monitors s;
     mainQueue := f (mainQueue s); calls := calls s |}.

Definition called (c : Call) (s : State W) : State W :=
  {| world := world s; monitors := monitors s; mainQueue := mainQueue s;
     calls := calls s ++ [c] |}.

(** Modelled from the spec: the helm resources manager
    (helm_resources_manager.go is not among the sources) keeps one
    monitor per module; [PauseMonitor] and [ResumeMonitor] call [Pause]
    and [Resume] of the module's monitor if there is one, and
    [StopMonitors] stops and drops all monitors. *)
Definition PauseMonitor (moduleName : string) (s : State W) : State W :=
  called (CallPauseMonitor moduleName)
         (on_monitors (alter Monitor.Pause moduleName) s).

Definition ResumeMonitor (moduleName : string) (s : State W) : State W :=
  called (CallResumeMonitor moduleName)
         (on_monitors (alter Monitor.Resume moduleName) s).

Definition StopMonitors (s : State W) : State W :=
  called CallStopMonitors (on_monitors (fun _ => ∅) s).

(** [CreateReloadAllTasks]: a GlobalHookRun per beforeAll hook, then a
    DiscoverModulesState task, at the end of the main queue. *)
Definition beforeAllTask (eventDescription hookName : string) : Task :=
  NewTask GlobalHookRun "main"
    {| EventDescription := eventDescription; HookName := hookName;
       ModuleName := ""; MetaBindingType := Some BeforeAll;
       MetaBindingContext :=
         [{| Binding := ContextBindingType BeforeAll; Snapshots := None;
             IncludeAllSnapshots := true;
             MetadataBindingType := Some BeforeAll |}];
       AllowFailure := false; OnStartupHooks := false;
       ReloadAllOnValuesChanges := false; LastAfterAllHook := false;
       ValuesChecksum := "" |}.

Definition discoverTask (eventDescription : string) (onStartup : bool)
    : Task :=
  NewTask Queue.DiscoverModulesState "main"
    {| EventDescription := eventDescription; HookName := "";
       ModuleName := ""; MetaBindingType := None;
       MetaBindingContext := []; AllowFailure := false;
       OnStartupHooks := onStartup; ReloadAllOnValuesChanges := false;
       LastAfterAllHook := false; ValuesChecksum := "" |}.

Definition CreateReloadAllTasks (onStartup : bool)
    (eventDescription : string) (s : State W) : State W :=
  let beforeAllHooks := GetGlobalHooksInOrder ext (world s) BeforeAll in
  let s1 := foldl (fun s hookName =>
                     on_queue (AddLast (beforeAllTask eventDescription hookName)) s)
                  s beforeAllHooks in
  on_queue (AddLast (discoverTask eventDescription onStartup)) s1.

(** The ModuleRun task queued by the event handlers. *)
Definition moduleRunTask (eventDescription moduleName : string)
    (onStartupHooks : bool) : Task :=
  NewTask ModuleRun "main"
    {| EventDescription := eventDescription; HookName := "";
       ModuleName := moduleName; MetaBindingType := None;
       MetaBindingContext := []; AllowFailure := false;
       OnStartupHooks := onStartupHooks;
       ReloadAllOnValuesChanges := false; LastAfterAllHook := false;
       ValuesChecksum := "" |}.




Definition add_suffix_once (eventDescription suffix : string) : string :=
  if negb (Contains eventDescription suffix)
  then eventDescription +:+ "." +:+ suffix else eventDescription.

(** The tasks built by the callbacks of the EnableKubernetesBindings
    handlers. *)
Definition globalSyncTask (eventDescription : string)
    (info : BindingExecutionInfo) : Task :=
  NewTask GlobalHookRun (InfoQueueName info)
    {| EventDescription := eventDescription;
       HookName := InfoHookName info; ModuleName := "";
       MetaBindingType := Some OnKubernetesEvent;
       MetaBindingContext := InfoBindingContext info;
       AllowFailure := InfoAllowFailure info; OnStartupHooks := false;
       ReloadAllOnValuesChanges := false; LastAfterAllHook := false;
       ValuesChecksum := "" |}.

Definition moduleSyncTask (moduleName : string)
    (info : BindingExecutionInfo) : Task :=
  NewTask ModuleHookRun (InfoQueueName info)
    {| EventDescription := ""; HookName := InfoHookName info;
       ModuleName := moduleName;
       MetaBindingType := Some OnKubernetesEvent;
       MetaBindingContext := InfoBindingContext info;
       AllowFailure := InfoAllowFailure info; OnStartupHooks := false;
       ReloadAllOnValuesChanges := false; LastAfterAllHook := false;
       ValuesChecksum := "" |}.

(** "Run OnKubernetesEvent@Synchronization tasks immediately" *)
Fixpoint run_sync_tasks (hookRunTasks : list Task) (w : W)
    : W * option error :=
  match hookRunTasks with
  | [] => (w, None)
  | t :: rest =>
      let hm := Metadata t in
      let '(w1, err) :=
        RunModuleHook ext (HookName hm) (MetaBindingType hm)
                      (MetaBindingContext hm) w in
      match err with
      | Some e =>
          let '(moduleLabel, hookLabel) :=
            ModuleHookLabels ext w1 (HookName hm) in
          (SendCounter ext "module_hook_errors"
             [("module", moduleLabel); ("hook", hookLabel)] w1, Some e)
      | None => run_sync_tasks rest w1
      end
  end.

(** The [afterStartupCb] closure given to [RunModule]. *)
Definition afterStartupCb (moduleName : string) (w : W) : W * option error :=
  let '(w1, r) := HandleModuleEnableKubernetesBindings ext moduleName w in
  match r with
  | Err e => (w1, Some e)
  | Ok infos =>
      let '(w2, err) := run_sync_tasks (moduleSyncTask moduleName <$> infos) w1 in
      match err with
      | Some e => (w2, Some e)
      | None => (StartModuleHooks ext moduleName w2, None)
      end
  end.

Definition success : TaskResult :=
  {| Status := "Success"; HeadTasks := []; AfterTasks := [];
     DelayBeforeNextTask := false |}.

Definition failure : TaskResult :=
  {| Status := "Fail"; HeadTasks := []; AfterTasks := [];
     DelayBeforeNextTask := false |}.

(** [RunDiscoverModulesState]: the tasks to append after the discover
    task. *)
Definition moduleDeleteTask (eventDescription moduleName : string) : Task :=
  NewTask ModuleDelete "main"
    {| EventDescription := eventDescription; HookName := "";
       ModuleName := moduleName; MetaBindingType := None;
       MetaBindingContext := []; AllowFailure := false;
       OnStartupHooks := false; ReloadAllOnValuesChanges := false;
       LastAfterAllHook := false; ValuesChecksum := "" |}.

Definition modulePurgeTask (eventDescription moduleName : string) : Task :=
  NewTask ModulePurge "main"
    {| EventDescription := eventDescription; HookName := "";
       ModuleName := moduleName; MetaBindingType := None;
       MetaBindingContext := []; AllowFailure := false;
       OnStartupHooks := false; ReloadAllOnValuesChanges := false;
       LastAfterAllHook := false; ValuesChecksum := "" |}.

Definition afterAllTask (eventDescription hookName : string)
    (last : bool) (checksum : string) : Task :=
  NewTask GlobalHookRun "main"
    {| EventDescription := eventDescription; HookName := hookName;
       ModuleName := ""; MetaBindingType := Some AfterAll;
       MetaBindingContext :=
         [{| Binding := ContextBindingType AfterAll; Snapshots := None;
             IncludeAllSnapshots := true;
             MetadataBindingType := Some AfterAll |}];
       AllowFailure := false; OnStartupHooks := false;
       ReloadAllOnValuesChanges := false; LastAfterAllHook := last;
       ValuesChecksum := checksum |}.

(** "queue ModuleRun tasks for enabled modules" *)
Definition discover_run_tasks (eventDescription : string)
    (onStartupHooks : bool) (modulesState : ModulesState) : list Task :=
  (fun moduleName =>
     let runOnStartupHooks :=
       if negb onStartupHooks
       then bool_decide (moduleName ∈ NewlyEnabledModules modulesState)
       else onStartupHooks in
     moduleRunTask eventDescription moduleName runOnStartupHooks)
  <$> EnabledModules modulesState.

(** "queue ModuleDelete tasks for disabled modules" *)
Fixpoint discover_delete_tasks (eventDescription : string)
    (onStartupHooks : bool) (modulesToDisable : list string) (w : W)
    : W * result (list Task) :=
  match modulesToDisable with
  | [] => (w, Ok [])
  | moduleName :: rest =>
      let '(w1, err) :=
        if onStartupHooks then RegisterModuleHooks ext moduleName w
        else (w, None) in
      match err with
      | Some e => (w1, Err e)
      | None =>
          let '(w2, r) :=
            discover_delete_tasks eventDescription onStartupHooks rest w1 in
          match r with
          | Err e => (w2, Err e)
          | Ok tasks =>
              (w2, Ok (moduleDeleteTask eventDescription moduleName :: tasks))
          end
      end
  end.

(** "Queue afterAll global hooks" *)
Fixpoint discover_after_all_tasks (eventDescription : string)
    (afterAllHooks : list string) (w : W) : result (list Task) :=
  match afterAllHooks with
  | [] => Ok []
  | [hookName] =>
      match GlobalValuesChecksum ext w with
      | Err e => Err e
      | Ok checksum => Ok [afterAllTask eventDescription hookName true checksum]
      end
  | hookName :: rest =>
      match discover_after_all_tasks eventDescription rest w with
      | Err e => Err e
      | Ok tasks =>
          Ok (afterAllTask eventDescription hookName false "" :: tasks)
      end
  end.

Definition RunDiscoverModulesState (discoverTask : Task) (s : State W)
    : State W * result (list Task) :=
  let '(s1, r) := with_world (DiscoverModulesState ext)
                             (called CallDiscoverModulesState s) in
  match r with
  | Err e => (s1, Err e)
  | Ok modulesState =>
      let hm := Metadata discoverTask in
      let eventDescription :=
        add_suffix_once (EventDescription hm) "DiscoverModulesState" in
      let runTasks :=
        discover_run_tasks eventDescription (OnStartupHooks hm) modulesState in
      let '(s2, deletes) :=
        with_world (discover_delete_tasks eventDescription (OnStartupHooks hm)
                      (ModulesToDisable modulesState)) s1 in
      match deletes with
      | Err e => (s2, Err e)
      | Ok deleteTasks =>
          let purgeTasks :=
            modulePurgeTask eventDescription
            <$> ReleasedUnknownModules modulesState in
          let afterAllHooks :=
            GetGlobalHooksInOrder ext (world s2) AfterAll in
          match discover_after_all_tasks eventDescription afterAllHooks
                  (world s2) with
          | Err e => (s2, Err e)
          | Ok afterAllTasks =>
              let s3 := foldl (fun s moduleName =>
                                 on_world (DisableModuleHooks ext moduleName) s)
                              s2 (ModulesToDisable modulesState) in
              (s3, Ok (runTasks ++ deleteTasks ++ purgeTasks ++ afterAllTasks))
          end
      end
  end.

(** [case task.GlobalHookRun] *)
Definition handle_GlobalHookRun (t : Task) (s : State W)
    : State W * TaskResult :=
  let hm := Metadata t in
  let '(s1, (beforeChecksum, afterChecksum, err)) :=
    with_world (RunGlobalHook ext (HookName hm) (MetaBindingType hm)
                              (MetaBindingContext hm))
               (called (CallRunGlobalHook (HookName hm)) s) in
  match err with
  | Some _ =>
      let hookLabel := GlobalHookLabel ext (world s1) (HookName hm) in
      if AllowFailure hm
      then (on_world (SendCounter ext "global_hook_allowed_errors"
                        [("hook", hookLabel)]) s1, success)
      else (on_world (SendCounter ext "global_hook_errors"
                        [("hook", hookLabel)]) s1, failure)
  | None =>
      let changed := negb (String.eqb beforeChecksum afterChecksum) in
      let reload : option string :=
        match MetaBindingType hm with
        | Some Schedule =>
            if changed then Some "ScheduleChangeGlobalValues" else None
        | Some OnKubernetesEvent =>
            if ReloadAllOnValuesChanges hm && changed
            then Some "KubernetesChangeGlobalValues" else None
        | Some AfterAll =>
            if LastAfterAllHook hm
               && negb (String.eqb afterChecksum (ValuesChecksum hm))
            then Some "AfterAllHooksChangeGlobalValues" else None
        | _ => None
        end in
      match reload with
      | Some eventDescription =>
          (CreateReloadAllTasks false eventDescription (StopMonitors s1),
           success)
      | None => (s1, success)
      end
  end.

(** [case task.GlobalHookEnableKubernetesBindings] *)
Definition handle_GlobalHookEnableKubernetesBindings (t : Task)
    (s : State W) : State W * TaskResult :=
  let hm := Metadata t in
  let eventDescription :=
    add_suffix_once (EventDescription hm)
                    "HandleGlobalEnableKubernetesBindings" in
  let '(s1, r) :=
    with_world (HandleGlobalEnableKubernetesBindings ext (HookName hm)) s in
  match r with
  | Err _ =>
      let hookLabel := GlobalHookLabel ext (world s1) (HookName hm) in
      (on_world (SendCounter ext "global_hook_errors" [("hook", hookLabel)]) s1,
       failure)
  | Ok infos =>
      let s2 := on_world (StartHookMonitors ext (HookName hm)) s1 in
      let s3 := on_world (EnableScheduleBindings ext (HookName hm)) s2 in
      (s3, {| Status := "Success";
              HeadTasks := globalSyncTask eventDescription <$> infos;
              AfterTasks := []; DelayBeforeNextTask := false |})
  end.

(** [case task.DiscoverModulesState] *)
Definition handle_DiscoverModulesState (t : Task) (s : State W)
    : State W * TaskResult :=
  let '(s1, r) := RunDiscoverModulesState t s in
  match r with
  | Err _ =>
      (on_world (SendCounter ext "modules_discover_errors" []) s1, failure)
  | Ok tasks =>
      (s1, {| Status := "Success"; HeadTasks := []; AfterTasks := tasks;
              DelayBeforeNextTask := false |})
  end.

(** [case task.ModuleRun] *)
Definition handle_ModuleRun (t : Task) (s : State W)
    : State W * TaskResult :=
  let hm := Metadata t in
  let s0 := if OnStartupHooks hm
            then on_world (InitAndStartHookQueues ext) s else s in
  let '(s1, r) :=
    with_world_monitors
      (RunModule ext (ModuleName hm) (OnStartupHooks hm)
                 (afterStartupCb (ModuleName hm)))
      (called (CallRunModule (ModuleName hm) (OnStartupHooks hm)) s0) in
  match r with
  | Err _ =>
      (on_world (SendCounter ext "module_run_errors"
                   [("module", ModuleName hm)]) s1, failure)
  | Ok valuesChanged =>
      if valuesChanged then
        let hm' :=
          {| EventDescription :=
               add_suffix_once (EventDescription hm)
                               "AfterHelmHooksChangeModuleValues";
             HookName := HookName hm; ModuleName := ModuleName hm;
             MetaBindingType := MetaBindingType hm;
             MetaBindingContext := MetaBindingContext hm;
             AllowFailure := AllowFailure hm; OnStartupHooks := false;
             ReloadAllOnValuesChanges := ReloadAllOnValuesChanges hm;
             LastAfterAllHook := LastAfterAllHook hm;
             ValuesChecksum := ValuesChecksum hm |} in
        let newTask := NewTask ModuleRun (QueueName t) hm' in
        (s1, {| Status := "Success"; HeadTasks := [];
                AfterTasks := [newTask]; DelayBeforeNextTask := false |})
      else (s1, success)
  end.

(** [case task.ModuleDelete] *)
Definition handle_ModuleDelete (t : Task) (s : State W)
    : State W * TaskResult :=
  let hm := Metadata t in
  let '(s1, err) :=
    with_world_monitors (DeleteModule ext (ModuleName hm))
                        (called (CallDeleteModule (ModuleName hm)) s) in
  match err with
  | Some _ =>
      (on_world (SendCounter ext "module_delete_errors"
                   [("module", ModuleName hm)]) s1, failure)
  | None => (s1, success)
  end.

(** [case task.ModuleHookRun] *)
Definition handle_ModuleHookRun (t : Task) (s : State W)
    : State W * TaskResult :=
  let hm := Metadata t in
  let s1 := PauseMonitor (ModuleName hm) s in
  let '(s2, err) :=
    with_world (RunModuleHook ext (HookName hm) (MetaBindingType hm)
                              (MetaBindingContext hm))
               (called (CallRunModuleHook (HookName hm)) s1) in
  match err with
  | Some _ =>
      let '(moduleLabel, hookLabel) :=
        ModuleHookLabels ext (world s2) (HookName hm) in
      if AllowFailure hm then
        let s3 := on_world (SendCounter ext "module_hook_allowed_errors"
                              [("module", moduleLabel); ("hook", hookLabel)])
                           s2 in
        (ResumeMonitor (ModuleName hm) s3, success)
      else
        (on_world (SendCounter ext "module_hook_errors"
                     [("module", moduleLabel); ("hook", hookLabel)]) s2,
         failure)
  | None => (ResumeMonitor (ModuleName hm) s2, success)
  end.

(** [case task.ModulePurge] *)
Definition handle_ModulePurge (t : Task) (s : State W)
    : State W * TaskResult :=
  let hm := Metadata t in
  let '(s1, _) :=
    with_world (DeleteRelease ext (ModuleName hm))
               (called (CallDeleteRelease (ModuleName hm)) s) in
  (s1, success).

(** [case task.ModuleManagerRetry] *)
Definition handle_ModuleManagerRetry (t : Task) (s : State W)
    : State W * TaskResult :=
  let s1 := on_world (SendCounter ext "modules_discover_errors" []) s in
  let s2 := on_world (Retry ext) (called CallRetry s1) in
  (s2, {| Status := "Success"; HeadTasks := []; AfterTasks := [];
          DelayBeforeNextTask := true |}).

(** [TaskHandler]: the handler of every queue. *)
Definition TaskHandler (t : Task) (s : State W) : State W * TaskResult :=
  match Type_ t with
  | GlobalHookRun => handle_GlobalHookRun t s
  | GlobalHookEnableKubernetesBindings =>
      handle_GlobalHookEnableKubernetesBindings t s
  | Queue.DiscoverModulesState => handle_DiscoverModulesState t s
  | ModuleRun => handle_ModuleRun t s
  | ModuleDelete => handle_ModuleDelete t s
  | ModuleHookRun => handle_ModuleHookRun t s
  | ModulePurge => handle_ModulePurge t s
  | ModuleManagerRetry => handle_ModuleManagerRetry t s
  end.


End OperatorCode.

End Operator.

(** ** More of package utils: patch filters and values keys *)

Module PatchFilter.
Import GoStrings Patch.

(** [FilterValuesPatch]: the operations whose [pathParts[1]] is
    [rootPath], appended in the order of the patch. *)
Definition FilterValuesPatch (valuesPatch : ValuesPatch) (rootPath : string)
    : ValuesPatch :=
  let resOps :=
    foldl (fun resOps op =>
             let pathParts := Split (Path op) "/" in
             if (1 <? length pathParts)%nat then
               if String.eqb (default "" (pathParts !! 1%nat)) rootPath
               then resOps ++ [op] else resOps
             else resOps)
          [] (Operations valuesPatch) in
  {| Operations := resOps |}.

(** [EnabledFromValuesPatch]: the operations whose [pathParts[1]] ends
    in ["Enabled"]. *)
Definition EnabledFromValuesPatch (valuesPatch : ValuesPatch) : ValuesPatch :=
  let resOps :=
    foldl (fun resOps op =>
             let pathParts := Split (Path op) "/" in
             if (1 <? length pathParts)%nat then
               if HasSuffix (default "" (pathParts !! 1%nat)) "Enabled"
               then resOps ++ [op] else resOps
             else resOps)
          [] (Operations valuesPatch) in
  {| Operations := resOps |}.

End PatchFilter.

Module ValuesKey.

(** [c >= 'A' && c <= 'Z'] on a byte *)
Definition is_upper (c : ascii) : bool :=
  ((65 <=? N_of_ascii c) && (N_of_ascii c <=? 90))%N.

(** [c >= '0' && c <= '9'] on a byte *)
Definition is_digit (c : ascii) : bool :=
  ((48 <=? N_of_ascii c) && (N_of_ascii c <=? 57))%N.

(** [c + ('a' - 'A')] on a byte *)
Definition lowered (c : ascii) : ascii :=
  ascii_of_N ((N_of_ascii c + 32) mod 256).

(** The loop [for i < l { c := moduleValuesKey[i]; ...; i++ }] of
    ModuleNameFromValuesKey from index [i] on, [rest] being
    [moduleValuesKey[i:]]: the bytes it appends to [b]. *)
Fixpoint kebab_from (i : nat) (rest : string) : string :=
  match rest with
  | EmptyString => EmptyString
  | String c rest' =>
      let appended := kebab_from (S i) rest' in
      if is_upper c then
        if (0 <? i)%nat
        then String "-" (String (lowered c) appended)
        else String (lowered c) appended
      else if is_digit c then
        if (0 <? i)%nat
        then String "-" (String c appended)
        else String c appended
      else String c appended
  end.

Definition ModuleNameFromValuesKey (moduleValuesKey : string) : string :=
  kebab_from 0 moduleValuesKey.

End ValuesKey.

(** ** More of the module engine: Module.Delete *)

Module EngineDelete.
Import GoStrings Engine.

Section DeleteCode.
Context {W : Type} (ext : Collaborators W).

(** [helm.NewClient(...).DeleteRelease(releaseName)], a call of the
    Helm client that only [Delete] makes. *)
Context (DeleteRelease : string -> W -> W * option error).

(** What [IsReleaseExists] returns as its first result: with an error
    it is the zero value. *)
Definition release_exists (w : W) (m : Module) : bool :=
  match IsReleaseExists ext w (generateHelmReleaseName m) with
  | Ok releaseExists => releaseExists
  | Err _ => false
  end.

(** An action on the world that returns an [error]; it is seen in the
    world only. *)
Definition act_on_world (f : W -> W * option error) : M (State W) unit :=
  fun s => let '(w', err) := f (world s) in
           ({| world := w'; self := self s; trace := trace s |}, check err).

(** [Module.Delete], the handler of a ModuleDelete task. *)
Definition Delete : M (State W) unit :=
  do name <- ask (fun _ m => Name m);
  act_ (CallStopMonitor name) (StopMonitor ext name) ;;
  do (chartExists, _) <- ask (checkHelmChart ext);
  (if chartExists then
     do releaseExists <- ask release_exists;
     if negb releaseExists then ret tt
     else
       do releaseName <- ask (fun _ m => generateHelmReleaseName m);
       act_on_world (DeleteRelease releaseName)
   else ret tt) ;;
  runHooksByBinding ext AfterDeleteHelm.

End DeleteCode.

End EngineDelete.

(** ** More of package module_manager: the modules directory *)

Module ModuleSearch.
Import GoStrings Engine.

(** [os.FileInfo], what SearchModules reads of it. *)
Record FileInfo : Type := mkFileInfo {
  FileName : string;
  IsDir : bool
}.

(** [ValidModuleNameRe.String()] *)
Definition ValidModuleNameRe : string := "^[0-9][0-9][0-9]-(.*)$".

Fixpoint has_newline (s : string) : bool :=
  match s with
  | EmptyString => false
  | String c rest => Ascii.eqb c (ascii_of_nat 10) || has_newline rest
  end.

(** [ValidModuleNameRe.FindStringSubmatch(name)]: the name and its group
    1 when the name is three digits, a dash and a rest; [.] does not
    match a newline and [$] is the end of the text. *)
Definition FindStringSubmatch (name : string) : option (list string) :=
  match name with
  | String d1 (String d2 (String d3 (String dash rest))) =>
      if ValuesKey.is_digit d1 && ValuesKey.is_digit d2
         && ValuesKey.is_digit d3 && Ascii.eqb dash "-"
         && negb (has_newline rest)
      then Some [name; rest] else None
  | _ => None
  end.

(** [strings.Join(elems, sep)] *)
Fixpoint JoinStrings (elems : list string) (sep : string) : string :=
  match elems with
  | [] => ""
  | [e] => e
  | e :: rest => e +:+ sep +:+ JoinStrings rest sep
  end.

(** [NewModule(name, path)] *)
Definition NewModule (name path : string) : Module :=
  {| Name := name; Path := path; LastReleaseManifests := [] |}.

Section SearchCode.
Context {W : Type} (ext : Collaborators W).

(** [ioutil.ReadDir(dirname)]: the entries sorted by file name. *)
Context (ReadDir : W -> string -> result (list FileInfo)).

(** The body of [for _, file := range files]. *)
Definition search_step (modulesDir : string)
    (found : list Module * list string) (file : FileInfo)
    : list Module * list string :=
  let '(modules, badModulesDirs) := found in
  if negb (IsDir file) then (modules, badModulesDirs)
  else
    match FindStringSubmatch (FileName file) with
    | Some matchRes =>
        let moduleName := default "" (matchRes !! 1%nat) in
        let modulePath := Join ext modulesDir (FileName file) in
        (modules ++ [NewModule moduleName modulePath], badModulesDirs)
    | None =>
        (modules, badModulesDirs ++ [Join ext modulesDir (FileName file)])
    end.

Definition SearchModules (modulesDir : string) (w : W)
    : result (list Module) :=
  match ReadDir w modulesDir with
  | Err e =>
      Err ("list modules directory '" +:+ modulesDir +:+ "': " +:+ e)
  | Ok files =>
      let '(modules, badModulesDirs) :=
        foldl (search_step modulesDir) ([], []) files in
      if (0 <? length badModulesDirs)%nat then
        Err ("modules directory contains directories not matched "
             +:+ "ValidModuleRegex '" +:+ ValidModuleNameRe +:+ "': "
             +:+ JoinStrings badModulesDirs ", ")
      else Ok modules
  end.

(** *** RegisterModules *)

(** [utils.Values] and [utils.ModuleConfig] are kept abstract, with
    the functions of package utils that make them. *)
Context {Values ModuleConfig : Type}.
Context (NewModuleConfig : string -> ModuleConfig)
        (LoadFromValues : ModuleConfig -> option Values -> result ModuleConfig)
        (FromYaml : ModuleConfig -> string -> result ModuleConfig)
        (NewValuesFromBytes : string -> result Values).

(** A module with its two static configs ([CommonStaticConfig] and
    [StaticConfig] of [Module]); a nil config is [None]. *)
Record LoadedModule : Type := mkLoadedModule {
  module : Module;
  CommonStaticConfig : option ModuleConfig;
  StaticConfig : option ModuleConfig
}.

(** [moduleManager], the fields RegisterModules reads and writes. *)
Record moduleManager : Type := mkModuleManager {
  ModulesDir : string;
  commonStaticValues : option Values;
  allModulesByName : gmap string LoadedModule;
  allModulesNamesInOrder : list string
}.

(** [mm.loadCommonStaticValues()]: the values it leaves in
    [mm.commonStaticValues], or its error. *)
Definition loadCommonStaticValues (mm : moduleManager) (w : W)
    : result (option Values) :=
  let valuesPath := Join ext (ModulesDir mm) "values.yaml" in
  match Stat ext w valuesPath with
  | StatNotExist => Ok (commonStaticValues mm)
  | _ =>
      match ReadFile ext w valuesPath with
      | Err e =>
          Err ("load common values file '" +:+ valuesPath +:+ "': " +:+ e)
      | Ok valuesYaml =>
          match NewValuesFromBytes valuesYaml with
          | Err e => Err e
          | Ok values => Ok (Some values)
          end
      end
  end.

(** [m.loadStaticValues()]: the module with its configs, or the
    error. *)
Definition loadStaticValues (common : option Values) (m : Module) (w : W)
    : result LoadedModule :=
  match LoadFromValues (NewModuleConfig (Name m)) common with
  | Err e => Err e
  | Ok commonConfig =>
      let valuesYamlPath := Join ext (Path m) "values.yaml" in
      match Stat ext w valuesYamlPath with
      | StatNotExist =>
          Ok {| module := m; CommonStaticConfig := Some commonConfig;
                StaticConfig := Some (NewModuleConfig (Name m)) |}
      | _ =>
          match ReadFile ext w valuesYamlPath with
          | Err e => Err ("cannot read '" +:+ Path m +:+ "': " +:+ e)
          | Ok data =>
              match FromYaml (NewModuleConfig (Name m)) data with
              | Err e => Err e
              | Ok config =>
                  Ok {| module := m;
                        CommonStaticConfig := Some commonConfig;
                        StaticConfig := Some config |}
              end
          end
      end
  end.

(** [for _, module := range modules] of RegisterModules: the manager
    it leaves and the error it returns. *)
Fixpoint register_loop (modules : list Module) (mm : moduleManager) (w : W)
    : moduleManager * option error :=
  match modules with
  | [] => (mm, None)
  | m :: rest =>
      match loadStaticValues (commonStaticValues mm) m w with
      | Err _ => (mm, Some "bad module values")
      | Ok loaded =>
          register_loop rest
            {| ModulesDir := ModulesDir mm;
               commonStaticValues := commonStaticValues mm;
               allModulesByName := <[Name m := loaded]> (allModulesByName mm);
               allModulesNamesInOrder := allModulesNamesInOrder mm ++ [Name m] |}
            w
      end
  end.

Definition RegisterModules (mm : moduleManager) (w : W)
    : moduleManager * option error :=
  match SearchModules (ModulesDir mm) w with
  | Err e => (mm, Some e)
  | Ok modules =>
      match loadCommonStaticValues mm w with
      | Err e => (mm, Some ("load common values for modules: " +:+ e))
      | Ok common =>
          register_loop modules
            {| ModulesDir := ModulesDir mm; commonStaticValues := common;
               allModulesByName := allModulesByName mm;
               allModulesNamesInOrder := allModulesNamesInOrder mm |}
            w
      end
  end.

End SearchCode.

End ModuleSearch.

(** * The vocabulary of the properties *)

(** ** Patches *)

Module PatchSpec.
Import GoStrings Patch.

Implicit Types (op a r : ValuesPatchOperation).
Implicit Types (tree : gmap string (list ValuesPatchOperation)).

(** What is stored under a path: nothing yet, one [add], or an [add]
    followed by a [remove], all on that path. *)
Inductive entry_shape (path : string) : list ValuesPatchOperation -> Prop :=
| shape_empty : entry_shape path []
| shape_add a :
    Op a = "add" -> Path a = path -> entry_shape path [a]
| shape_add_remove a r :
    Op a = "add" -> Path a = path -> Op r = "remove" -> Path r = path ->
    entry_shape path [a; r].

Definition tree_shape tree : Prop :=
  forall path entry, tree !! path = Some entry -> entry_shape path entry.

(** The entry of the operation's own path after one step. *)
Inductive own_entry tree op : list ValuesPatchOperation -> Prop :=
| own_add : Op op = "add" -> own_entry tree op [op]
| own_remove_guard :
    Op op = "remove" -> own_entry tree op [guard_add (Path op); op]
| own_remove_add old a :
    Op op = "remove" -> tree !! Path op = Some old -> a ∈ old ->
    Op a = "add" -> own_entry tree op [a; op]
| own_other :
    Op op <> "add" -> Op op <> "remove" ->
    own_entry tree op (default [] (tree !! Path op)).

(** Every stored operation is an operation of the input or the virtual
    [add] of its path. *)
Definition tree_from (seen : list ValuesPatchOperation) tree : Prop :=
  forall path entry o, tree !! path = Some entry -> o ∈ entry ->
    o ∈ seen \/ o = guard_add (Path o).

(** "Every remove is immediately preceded by an add on the same path." *)
Definition removes_follow_adds (ops : list ValuesPatchOperation) : Prop :=
  forall i r, ops !! i = Some r -> Op r = "remove" ->
    exists j a, i = S j /\ ops !! j = Some a
                /\ Op a = "add" /\ Path a = Path r.

(** What an operation leaves on [path], where [entry] was left before
    it: an [add] on the path leaves itself alone; a [remove] on the path
    leaves the [add] that was there, the virtual [add] if there was
    none, followed by itself; any other operation on the path leaves
    what was there; a [remove] of a parent path leaves nothing; and an
    operation elsewhere leaves what was there. *)
Definition left_on (path : string) (entry : list ValuesPatchOperation) op
    : list ValuesPatchOperation :=
  if String.eqb (Path op) path then
    if String.eqb (Op op) "add" then [op]
    else if String.eqb (Op op) "remove"
         then [hd (guard_add path) entry; op]
         else entry
  else if String.eqb (Op op) "remove" && is_subpath (Path op) path
       then [] else entry.

(** What a sequence of operations leaves on [path]. *)
Definition standing (path : string) (ops : list ValuesPatchOperation)
    : list ValuesPatchOperation :=
  foldl (left_on path) [] ops.

(** No operation of [ops] is an [add] on [path]. *)
Definition no_add_on (path : string) (ops : list ValuesPatchOperation)
    : Prop :=
  forall o, o ∈ ops -> Path o = path -> Op o <> "add".

(** No operation of [ops] is a [remove] of a parent of [path]. *)
Definition no_parent_remove (path : string)
    (ops : list ValuesPatchOperation) : Prop :=
  forall o, o ∈ ops -> Op o = "remove" -> is_subpath (Path o) path = false.

(** No operation of [ops] is on [path]. *)
Definition none_on (path : string) (ops : list ValuesPatchOperation)
    : Prop :=
  forall o, o ∈ ops -> Path o <> path.

(** A first segment a hook with section [acceptableKey] may patch. *)
Definition acceptable_segment (acceptableKey segment : string) : Prop :=
  segment = acceptableKey
  \/ (HasSuffix segment "Enabled" = true /\ acceptableKey = GlobalValuesKey).

(** An operation that makes the validation fail. *)
Definition rejected (acceptableKey : string) (op : ValuesPatchOperation)
    : Prop :=
  Op op = "replace"
  \/ exists segment, first_segment (Path op) = Some segment
                     /\ ~ acceptable_segment acceptableKey segment.

End PatchSpec.

(** ** The resources monitor *)

Module MonitorSpec.
Import Monitor.

(** A cluster in which the watched object has been deleted: listing by
    name gives an empty list, getting by name gives "not found". *)
Definition cluster_without_object : KubernetesClient :=
  {| KubeAPIResource := fun _ _ =>
       Ok {| Group := "apps"; Version := "v1";
             ResourceName := "deployments"; Namespaced := true |};
     KubeList := fun _ _ _ => (Some [], None);
     KubeGet := fun _ _ _ => Some "deployments.apps backend not found" |}.

Definition backend : Manifest :=
  {| ApiVersion := "apps/v1"; Kind := "Deployment";
     ManifestName := "backend"; MetadataNamespace := None |}.

Definition drifted_monitor : ResourcesMonitor :=
  {| paused := false; moduleName := "backend-module";
     manifests := [backend]; defaultNamespace := "default";
     kubeClient := cluster_without_object; hasAbsentCb := true |}.

(** Every lookup the monitor makes for its manifests succeeds. *)
Definition gets_succeed (r : ResourcesMonitor) : Prop :=
  forall m, m ∈ manifests r ->
    exists apiRes items err,
      KubeAPIResource (kubeClient r) (ApiVersion m) (Kind m) = Ok apiRes
      /\ KubeList (kubeClient r)
           {| gvrGroup := Group apiRes; gvrVersion := Version apiRes;
              gvrResource := ResourceName apiRes |}
           (if Namespaced apiRes
            then Some (Namespace m (defaultNamespace r)) else None)
           {| FieldSelector := OneTermEqualSelector "metadata.name" (ManifestName m) |}
         = (Some items, err)
      /\ KubeGet (kubeClient r)
           {| gvrGroup := Group apiRes; gvrVersion := Version apiRes;
              gvrResource := ResourceName apiRes |}
           (if Namespaced apiRes
            then Some (Namespace m (defaultNamespace r)) else None)
           (ManifestName m) = None.

Definition list_is_empty (r : ResourcesMonitor) (m : Manifest) : Prop :=
  listed r m = Some (Some []).

#[global] Instance list_is_empty_dec r m : Decision (list_is_empty r m).
Proof.
  unfold list_is_empty.
  destruct (listed r m) as [[[|x l]|]|];
    (by left) || (right; congruence).
Defined.

End MonitorSpec.

(** ** The module engine *)

Module EngineSpec.
Import GoStrings Engine.

Section EngineVocabulary.
Context {W : Type} (ext : Collaborators W).

Implicit Types (s : State W) (ev : Event) (l : list Event).

(** The calls of the hooks of a binding, in the order of the hooks. *)
Definition hook_calls (binding : BindingType) (hooks : list string) l
    : Prop :=
  Forall2 (fun hook ev => exists bc, ev = CallHookRun hook binding bc)
          hooks l.

Definition chartPath s : string := Join ext (Path (self s)) "Chart.yaml".

(** The calls of [cleanup]. *)
Definition cleanup_calls (releaseName : string) l : Prop :=
  l = [] \/ l = [CallDeleteSingleFailedRevision releaseName;
                 CallDeleteOldFailedRevisions releaseName].

(** The calls of the Helm step after the chart is rendered. *)
Definition release_calls (m : Module) (valuesPath checksum : string)
    (manifests : list Manifest) l : Prop :=
  let start := CallStartMonitor (Name m) manifests (AppNamespace ext) in
  l = [] \/ l = [start]
  \/ l = [CallUpgradeRelease (Name m) (Path m) [valuesPath]
            [checksum_key +:+ "=" +:+ checksum] (AppNamespace ext); start].

(** What a successful Helm step of a module with a chart has done: the
    merged values were written to a fresh file, the chart was rendered
    with that file, the manifests parsed from the rendering were
    recorded on the module, and the release was upgraded or left
    alone. *)
Definition helm_step_done s s' : Prop :=
  exists data w1 uuid w2 rendered manifests l,
    let m := self s in
    let valuesPath :=
      Join ext (TempDir ext)
           (SafeName ext m +:+ (".module-values.yaml-" +:+ uuid)) in
    YamlMarshal ext (ModuleValues ext (world s) m) = Ok data
    /\ NewUUID ext (world s) = (w1, uuid)
    /\ WriteFile ext valuesPath data w1 = (w2, None)
    /\ Render ext w2 (Path m) [valuesPath] [] (AppNamespace ext)
       = Ok rendered
    /\ GetManifestListFromYamlDocuments ext rendered = Ok manifests
    /\ self s' = {| Name := Name m; Path := Path m;
                    LastReleaseManifests := manifests |}
    /\ trace s' = trace s
                  ++ [CallWriteFile valuesPath data;
                      CallRender (Path m) [valuesPath] []
                                 (AppNamespace ext) (Ok rendered)]
                  ++ l
    /\ release_calls m valuesPath (CalculateStringsChecksum ext rendered)
                     manifests l.

(** Calls of the Helm step. *)
Definition is_helm_call ev : Prop :=
  match ev with
  | CallWriteFile _ _ | CallRender _ _ _ _ _
  | CallUpgradeRelease _ _ _ _ _ | CallStartMonitor _ _ _ => True
  | _ => False
  end.

Definition is_cleanup_call ev : Prop :=
  match ev with
  | CallDeleteSingleFailedRevision _
  | CallDeleteOldFailedRevisions _ => True
  | _ => False
  end.

Definition is_stop_call ev : Prop :=
  match ev with
  | CallStopMonitor _ => True
  | _ => False
  end.

(** Every call that is a [P] comes before every call that is a [Q]. *)
Definition all_before (P Q : Event -> Prop) l : Prop :=
  forall i j e1 e2, l !! i = Some e1 -> P e1 -> l !! j = Some e2 -> Q e2 ->
                    i < j.

(** The calls of the OnStartup phase: with [onStartup] the calls of
    [hooks] followed by the start-up callback, nothing otherwise. *)
Definition startup_calls (onStartup : bool) (hooks : list string) l
    : Prop :=
  if onStartup
  then exists l0, l = l0 ++ [CallAfterStartupCb]
                  /\ hook_calls OnStartup hooks l0
  else l = [].

(** The calls of the clean-up started in [s]: the two deletions of
    failed revisions, unless there is no Chart.yaml. *)
Definition cleanup_phase s : list Event :=
  match Stat ext (world s) (chartPath s) with
  | StatNotExist => []
  | _ => [CallDeleteSingleFailedRevision (Name (self s));
          CallDeleteOldFailedRevisions (Name (self s))]
  end.

(** The state after the monitor of the module is stopped. *)
Definition stopped s : State W :=
  {| world := StopMonitor ext (Name (self s)) (world s);
     self := self s;
     trace := trace s ++ [CallStopMonitor (Name (self s))] |}.

(** The calls that follow the rendering of the chart, by the decision
    of ShouldRunHelmUpgrade: the upgrade and the start of the monitor,
    or, with no upgrade, the start of the monitor when the module has
    none. *)
Definition decided_calls (m : Module) (valuesPath checksum : string)
    (manifests : list Manifest) (decision hasMonitor : bool)
    : list Event :=
  let start := CallStartMonitor (Name m) manifests (AppNamespace ext) in
  if decision
  then [CallUpgradeRelease (Name m) (Path m) [valuesPath]
          [checksum_key +:+ "=" +:+ checksum] (AppNamespace ext); start]
  else if hasMonitor then [] else [start].

(** The calls of a successful Helm step started in [s]: none when
    there is no Chart.yaml; otherwise the values file is written, the
    chart is rendered with it, and the calls decided by
    ShouldRunHelmUpgrade on the rendering follow. *)
Definition helm_phase s l : Prop :=
  match Stat ext (world s) (chartPath s) with
  | StatNotExist => l = []
  | _ =>
      exists data w1 uuid w2 rendered manifests decision,
        let m := self s in
        let valuesPath :=
          Join ext (TempDir ext)
               (SafeName ext m +:+ (".module-values.yaml-" +:+ uuid)) in
        let checksum := CalculateStringsChecksum ext rendered in
        YamlMarshal ext (ModuleValues ext (world s) m) = Ok data
        /\ NewUUID ext (world s) = (w1, uuid)
        /\ WriteFile ext valuesPath data w1 = (w2, None)
        /\ Render ext w2 (Path m) [valuesPath] [] (AppNamespace ext)
           = Ok rendered
        /\ GetManifestListFromYamlDocuments ext rendered = Ok manifests
        /\ ShouldRunHelmUpgrade ext (Name m) checksum manifests w2
           = Ok decision
        /\ l = [CallWriteFile valuesPath data;
                CallRender (Path m) [valuesPath] [] (AppNamespace ext)
                           (Ok rendered)]
               ++ decided_calls m valuesPath checksum manifests decision
                    (HasMonitor ext w2 (Name m))
  end.

Section Reasons.
Variables (w : W) (releaseName checksum : string)
          (manifests : list Manifest).

(** (a) no Helm release of that name *)
Definition no_release : Prop :=
  IsReleaseExists ext w releaseName = Ok false.

(** (b) the last release status is FAILED *)
Definition last_release_failed : Prop :=
  exists revision,
    LastReleaseStatus ext w releaseName = Ok (revision, "FAILED").

(** (c) the stored values have no checksum key *)
Definition no_stored_checksum : Prop :=
  exists releaseValues,
    GetReleaseValues ext w releaseName = Ok releaseValues
    /\ releaseValues !! checksum_key = None.

(** (d) as the claim has it: the stored checksum is not the fresh
    one *)
Definition stored_checksum_differs : Prop :=
  exists releaseValues recorded,
    GetReleaseValues ext w releaseName = Ok releaseValues
    /\ releaseValues !! checksum_key = Some recorded
    /\ recorded <> JStr checksum.

(** (d) as the code has it: the stored checksum is a string and not
    the fresh one *)
Definition stored_string_differs : Prop :=
  exists releaseValues recorded,
    GetReleaseValues ext w releaseName = Ok releaseValues
    /\ releaseValues !! checksum_key = Some (JStr recorded)
    /\ recorded <> checksum.

(** (e) a rendered manifest is absent from the cluster *)
Definition some_manifest_absent : Prop :=
  exists absent,
    GetAbsentResources ext w manifests (AppNamespace ext) = Ok absent
    /\ absent <> [].

Definition upgrade_claimed : Prop :=
  no_release \/ last_release_failed \/ no_stored_checksum
  \/ stored_checksum_differs \/ some_manifest_absent.

(** The reasons as the code reaches them.  The release exists and its
    last status is known and is not FAILED: *)
Definition release_deployed : Prop :=
  IsReleaseExists ext w releaseName = Ok true
  /\ exists revision status,
       LastReleaseStatus ext w releaseName = Ok (revision, status)
       /\ status <> "FAILED".

(** the stored values have a checksum that is not a string different
    from the fresh one: *)
Definition stored_checksum_kept : Prop :=
  exists releaseValues recorded,
    GetReleaseValues ext w releaseName = Ok releaseValues
    /\ releaseValues !! checksum_key = Some recorded
    /\ forall str, recorded = JStr str -> str = checksum.

(** The upgrade is required: (a); or the release exists and (b); or
    its status is not FAILED and (c) or (d); or the stored checksum
    is kept and (e). *)
Definition upgrade_required : Prop :=
  no_release
  \/ (IsReleaseExists ext w releaseName = Ok true /\ last_release_failed)
  \/ (release_deployed /\ no_stored_checksum)
  \/ (release_deployed /\ stored_string_differs)
  \/ (release_deployed /\ stored_checksum_kept /\ some_manifest_absent).

(** Nothing asks for an upgrade: the four queries have answered and
    none of the reasons holds. *)
Definition upgrade_not_required : Prop :=
  release_deployed /\ stored_checksum_kept
  /\ GetAbsentResources ext w manifests (AppNamespace ext) = Ok [].

(** A query that ShouldRunHelmUpgrade makes has failed: each query is
    made only when the ones before it have answered without giving a
    reason. *)
Definition query_failed (e : error) : Prop :=
  IsReleaseExists ext w releaseName = Err e
  \/ (IsReleaseExists ext w releaseName = Ok true
      /\ LastReleaseStatus ext w releaseName = Err e)
  \/ (release_deployed /\ GetReleaseValues ext w releaseName = Err e)
  \/ (release_deployed /\ stored_checksum_kept
      /\ GetAbsentResources ext w manifests (AppNamespace ext) = Err e).

(** The four queries all answer. *)
Definition queries_answer : Prop :=
  (exists isReleaseExists,
      IsReleaseExists ext w releaseName = Ok isReleaseExists)
  /\ (exists status, LastReleaseStatus ext w releaseName = Ok status)
  /\ (exists releaseValues,
        GetReleaseValues ext w releaseName = Ok releaseValues)
  /\ (exists absent,
        GetAbsentResources ext w manifests (AppNamespace ext) = Ok absent).

(** The reasons of the claim with (d) as the code has it, in no
    order. *)
Definition some_reason : Prop :=
  no_release \/ last_release_failed \/ no_stored_checksum
  \/ stored_string_differs \/ some_manifest_absent.

End Reasons.

Definition enabledScriptPath s : string :=
  Join ext (Path (self s)) "enabled".

(** The enabled script was found executable, its three files were
    prepared, and it ran without error, leaving the world [w] and its
    result file [resultPath]. *)
Definition script_has_run (preceding : list string) s
    (resultPath : string) (w : W) : Prop :=
  exists mode s1 configValuesPath s2 valuesPath s3,
    Stat ext (world s) (enabledScriptPath s) = StatInfo mode
    /\ IsFileExecutable mode = true
    /\ prepareConfigValuesJsonFile ext s = (s1, Ok configValuesPath)
    /\ prepareValuesJsonFileForEnabledScript ext preceding s1
       = (s2, Ok valuesPath)
    /\ prepareModuleEnabledResultFile ext s2 = (s3, Ok resultPath)
    /\ RunAndLogLines ext (enabledScriptPath s)
         (Environ ext (world s3)
          ++ ["CONFIG_VALUES_PATH=" +:+ configValuesPath;
              "VALUES_PATH=" +:+ valuesPath;
              "MODULE_ENABLED_RESULT=" +:+ resultPath])
         (world s3) = (w, None).

(** What the engine makes of the content of the result file. *)
Definition enabled_answer (data : string) : result bool :=
  if String.eqb (TrimSpace data) "true" then Ok true
  else if String.eqb (TrimSpace data) "false" then Ok false
  else Err "bad enabled result".

End EngineVocabulary.

End EngineSpec.

(** ** A small installation to run the engine on *)

Module Installation.
Import GoStrings Engine.

(** What the collaborators answer in a run.  The world is the revision of
    the module's values: a hook of [ins_bumping_hooks] changes them. *)
Record Installation : Type := mkInstallation {
  ins_chart : bool;
  ins_enabled_script : StatResult;
  ins_hooks : BindingType -> list string;
  ins_bumping_hooks : list string;
  ins_release_exists : result bool;
  ins_release_status : result (string * string);
  ins_release_values : result (gmap string JValue);
  ins_absent : result (list Manifest);
  ins_has_monitor : bool;
  ins_result_file : result string
}.

Definition app : Module :=
  {| Name := "app"; Path := "/modules/010-app"; LastReleaseManifests := [] |}.

Definition app_deployment : Manifest :=
  {| ApiVersion := "apps/v1"; Kind := "Deployment";
     ManifestName := "app"; MetadataNamespace := None |}.

Definition marshal (v : JValue) : result string :=
  Ok (match v with
      | JNum n => pretty n
      | _ => "null"
      end).

Definition installed (ins : Installation) : Collaborators Z :=
  {| Stat := fun _ path =>
       if String.eqb path "/modules/010-app/Chart.yaml"
       then if ins_chart ins then StatInfo 420 else StatNotExist
       else if String.eqb path "/modules/010-app/enabled"
            then ins_enabled_script ins
            else StatNotExist;
     ReadFile := fun _ _ => ins_result_file ins;
     WriteFile := fun _ _ w => (w, None);
     CreateEmptyWritableFile := fun _ w => (w, None);
     Remove := fun _ w => (w, None);
     Environ := fun _ => [];
     NewUUID := fun w => (w, "6ba7b810");
     Join := fun dir name => dir +:+ "/" +:+ name;
     RunAndLogLines := fun _ _ w => (w, None);
     DeleteSingleFailedRevision := fun _ w => (w, None);
     DeleteOldFailedRevisions := fun _ w => (w, None);
     IsReleaseExists := fun _ _ => ins_release_exists ins;
     LastReleaseStatus := fun _ _ => ins_release_status ins;
     GetReleaseValues := fun _ _ => ins_release_values ins;
     Render := fun _ _ _ _ _ => Ok "kind: Deployment";
     UpgradeRelease := fun _ _ _ _ _ w => (w, None);
     StopMonitor := fun _ w => w;
     HasMonitor := fun _ _ => ins_has_monitor ins;
     StartMonitor := fun _ _ _ w => w;
     GetAbsentResources := fun _ _ _ => ins_absent ins;
     TempDir := "/tmp";
     GetModuleHooksInOrder := fun _ _ binding => ins_hooks ins binding;
     KubernetesSnapshots := fun _ _ => JNull;
     HookRun := fun hook _ _ w =>
       (if bool_decide (hook ∈ ins_bumping_hooks ins) then (w + 1)%Z else w,
        None);
     ModuleValues := fun w _ => JNum w;
     ModuleConfigValues := fun _ _ => JNull;
     ValuesForEnabledScript := fun w _ _ => JNum w;
     JsonMarshal := marshal;
     YamlMarshal := marshal;
     CalculateChecksum := fun s => s;
     CalculateStringsChecksum := fun s => s;
     GetManifestListFromYamlDocuments := fun _ => Ok [app_deployment];
     SanitizeBaseName := fun name => name;
     AppNamespace := "default";
     DebugKeepTmpFiles := "no" |}.

Definition start : State Z := {| world := 0%Z; self := app; trace := [] |}.

Definition no_callback (w : Z) : Z * option error := (w, None).

(** A deployed release whose stored checksum is the number 42. *)
Definition numeric_checksum : Installation :=
  {| ins_chart := true; ins_enabled_script := StatNotExist;
     ins_hooks := fun _ => []; ins_bumping_hooks := [];
     ins_release_exists := Ok true;
     ins_release_status := Ok ("3", "DEPLOYED");
     ins_release_values := Ok {[ checksum_key := JNum 42 ]};
     ins_absent := Ok []; ins_has_monitor := false;
     ins_result_file := Ok "" |}.

(** A deployed release whose status cannot be read, while a manifest of
    the chart is absent from the cluster. *)
Definition status_unknown : Installation :=
  {| ins_chart := true; ins_enabled_script := StatNotExist;
     ins_hooks := fun _ => []; ins_bumping_hooks := [];
     ins_release_exists := Ok true;
     ins_release_status := Err "tiller: deadline exceeded";
     ins_release_values := Ok {[ checksum_key := JStr "kind: Deployment" ]};
     ins_absent := Ok [app_deployment]; ins_has_monitor := false;
     ins_result_file := Ok "" |}.

(** A first install: a chart, no release, an afterHelm hook that changes
    the values. *)
Definition first_install : Installation :=
  {| ins_chart := true; ins_enabled_script := StatNotExist;
     ins_hooks := fun binding =>
       match binding with
       | OnStartup => ["010-app/hooks/startup"]
       | AfterHelm => ["010-app/hooks/after"]
       | _ => []
       end;
     ins_bumping_hooks := ["010-app/hooks/after"];
     ins_release_exists := Ok false;
     ins_release_status := Err "release: not found";
     ins_release_values := Err "release: not found";
     ins_absent := Ok []; ins_has_monitor := false;
     ins_result_file := Ok "" |}.

(** An executable enabled script that leaves [data] in its result
    file. *)
Definition script_writes (data : string) : Installation :=
  {| ins_chart := true; ins_enabled_script := StatInfo 493;
     ins_hooks := fun _ => []; ins_bumping_hooks := [];
     ins_release_exists := Ok false;
     ins_release_status := Err "release: not found";
     ins_release_values := Err "release: not found";
     ins_absent := Ok []; ins_has_monitor := false;
     ins_result_file := Ok data |}.

(** What [echo true] writes. *)
Definition true_newline : string :=
  "true" +:+ String (ascii_of_nat 10) EmptyString.

End Installation.

(** ** The main queue *)

Module OperatorSpec.
Import Queue Operator.

(** A ModuleRun task of a module. *)
Definition is_module_run (moduleName : string) (t : Task) : Prop :=
  Type_ t = ModuleRun /\ ModuleName (Metadata t) = moduleName.

#[global] Instance is_module_run_dec moduleName t :
  Decision (is_module_run moduleName t).
Proof. unfold is_module_run. apply _. Defined.


(** An operator over a world where nothing happens: discovery finds
    [enabled], a module hook answers [hookErr]. *)
Definition quiet_operator (enabled : list string) (hookErr : option error)
    : Collaborators unit :=
  {| RunGlobalHook := fun _ _ _ w => (w, ("", "", None));
     RunModuleHook := fun _ _ _ w => (w, hookErr);
     RunModule := fun _ _ _ wm => (wm, Ok false);
     DeleteModule := fun _ wm => (wm, None);
     DiscoverModulesState := fun w =>
       (w, Ok {| EnabledModules := enabled; ModulesToDisable := [];
                 ReleasedUnknownModules := []; NewlyEnabledModules := [] |});
     GetGlobalHooksInOrder := fun _ _ => [];
     GlobalValuesChecksum := fun _ => Ok "";
     GlobalHookLabel := fun _ hook => hook;
     ModuleHookLabels := fun _ hook => ("app", hook);
     HandleGlobalEnableKubernetesBindings := fun _ w => (w, Ok []);
     HandleModuleEnableKubernetesBindings := fun _ w => (w, Ok []);
     StartModuleHooks := fun _ w => w;
     StartHookMonitors := fun _ w => w;
     EnableScheduleBindings := fun _ w => w;
     InitAndStartHookQueues := fun w => w;
     RegisterModuleHooks := fun _ w => (w, None);
     DisableModuleHooks := fun _ w => w;
     Retry := fun w => w;
     DeleteRelease := fun _ w => (w, None);
     SendCounter := fun _ _ w => w |}.

Definition idle : State unit :=
  {| world := tt; monitors := ∅; mainQueue := []; calls := [] |}.



Definition hook_task (allowFailure : bool) : Task :=
  NewTask ModuleHookRun "main"
    {| EventDescription := "Schedule"; HookName := "010-app/hooks/cron";
       ModuleName := "app"; MetaBindingType := Some Schedule;
       MetaBindingContext := []; AllowFailure := allowFailure;
       OnStartupHooks := false; ReloadAllOnValuesChanges := false;
       LastAfterAllHook := false; ValuesChecksum := "" |}.

(** Module [app] has a monitor, and a task of one of its hooks is at the
    head of the queue. *)
Definition watching : State unit :=
  {| world := tt;
     monitors := {[ "app" := MonitorSpec.drifted_monitor ]};
     mainQueue := [hook_task false]; calls := [] |}.

End OperatorSpec.

(** ** More vocabulary: patches *)

Module PatchMore.
Import GoStrings Patch PatchSpec PatchFilter.

Implicit Types (op a r : ValuesPatchOperation).
Implicit Types (tree : gmap string (list ValuesPatchOperation)).

(** Two trees that store the same operations under every path; a path
    without an entry and a path with an empty entry are not told
    apart. *)
Definition same_entries tree1 tree2 : Prop :=
  forall path, default [] (tree1 !! path) = default [] (tree2 !! path).

(** What one step stores under the path of its operation. *)
Definition own_result tree op : list ValuesPatchOperation :=
  if String.eqb (Op op) "add" then [op]
  else if String.eqb (Op op) "remove" then
    let '(entry, hasPreviousAdd) :=
      squash_remove op (default [] (tree !! Path op)) in
    if hasPreviousAdd then entry else [guard_add (Path op); op]
  else default [] (tree !! Path op).

(** No operation of [later] is on [path] or removes a parent of it. *)
Definition untouched_by (path : string) (later : list ValuesPatchOperation)
    : Prop :=
  forall o, o ∈ later ->
    Path o <> path
    /\ (Op o = "remove" -> is_subpath (Path o) path = false).

(** The operations of a patch on [path]. *)
Definition on_path (path : string) (ops : list ValuesPatchOperation)
    : list ValuesPatchOperation :=
  filter (fun o => Path o = path) ops.

(** The path of the operation has a first segment. *)
Definition has_segment op : Prop := is_Some (first_segment (Path op)).

#[global] Instance has_segment_dec op : Decision (has_segment op).
Proof. unfold has_segment. apply _. Defined.

(** Operations under the section [rootPath]. *)
Definition under_root (rootPath : string) op : Prop :=
  first_segment (Path op) = Some rootPath.

#[global] Instance under_root_dec rootPath op : Decision (under_root rootPath op).
Proof. unfold under_root. apply _. Defined.

(** Operations on a key that ends in [Enabled]. *)
Definition on_enabled_key op : Prop :=
  exists segment, first_segment (Path op) = Some segment
                  /\ HasSuffix segment "Enabled" = true.

#[global] Instance on_enabled_key_dec op : Decision (on_enabled_key op).
Proof.
  unfold on_enabled_key.
  destruct (first_segment (Path op)) as [segment|].
  - destruct (HasSuffix segment "Enabled") eqn:Hs.
    + left. by exists segment.
    + right. intros (s & [= <-] & Hs'). congruence.
  - right. by intros (s & ? & _).
Defined.

(** A patch of a global hook: two operations under the global section,
    one on an [Enabled] key and one on the whole document. *)
Definition global_hook_patch : ValuesPatch :=
  {| Operations :=
       [ {| Op := "add"; Path := "/global/a"; Value := JNum 1 |};
         {| Op := "remove"; Path := "/global/b"; Value := JNull |};
         {| Op := "add"; Path := "/nginxEnabled"; Value := JBool true |};
         {| Op := "add"; Path := ""; Value := JNull |} ] |}.

End PatchMore.

(** ** More vocabulary: the resources monitor *)

Module MonitorMore.
Import Monitor MonitorSpec.

(** The resource and the namespace of the lookups for a manifest. *)
Definition resource_of (apiRes : APIResource) : GroupVersionResource :=
  {| gvrGroup := Group apiRes; gvrVersion := Version apiRes;
     gvrResource := ResourceName apiRes |}.

Definition namespace_of (r : ResourcesMonitor) (m : Manifest)
    (apiRes : APIResource) : option string :=
  if Namespaced apiRes then Some (Namespace m (defaultNamespace r)) else None.

(** What a cluster answers: getting an object by name fails whenever
    listing by that name gives an empty list. *)
Definition get_fails_when_list_is_empty (r : ResourcesMonitor) : Prop :=
  forall m apiRes,
    m ∈ manifests r ->
    KubeAPIResource (kubeClient r) (ApiVersion m) (Kind m) = Ok apiRes ->
    (KubeList (kubeClient r) (resource_of apiRes) (namespace_of r m apiRes)
       {| FieldSelector := OneTermEqualSelector "metadata.name" (ManifestName m) |}).1
    = Some [] ->
    KubeGet (kubeClient r) (resource_of apiRes) (namespace_of r m apiRes)
            (ManifestName m) <> None.

(** A client whose list by name is empty while the object can be got by
    name. *)
Definition stale_list_client : KubernetesClient :=
  {| KubeAPIResource := fun _ _ =>
       Ok {| Group := "apps"; Version := "v1";
             ResourceName := "deployments"; Namespaced := true |};
     KubeList := fun _ _ _ => (Some [], None);
     KubeGet := fun _ _ _ => None |}.

Definition stale_list_monitor : ResourcesMonitor :=
  {| paused := false; moduleName := "backend-module";
     manifests := [backend]; defaultNamespace := "default";
     kubeClient := stale_list_client; hasAbsentCb := true |}.

End MonitorMore.

(** ** More vocabulary: the module engine *)

Module EngineMore.
Import GoStrings Engine EngineSpec.

Section EngineMoreVocabulary.
Context {W : Type} (ext : Collaborators W).

Implicit Types (s : State W) (ev : Event) (l : list Event).

(** A computation that, started where [I] holds, ends where [I] holds
    and has added to the trace calls that are [P] only, whatever it
    returns. *)
Definition keeps {A} (I : State W -> Prop) (P : Event -> Prop)
    (c : M (State W) A) : Prop :=
  forall s s' r, I s -> c s = (s', r) ->
    I s' /\ exists l, trace s' = trace s ++ l /\ Forall P l.

(** An invariant that reads the receiver only. *)
Definition on_self (J : Module -> Prop) : State W -> Prop :=
  fun s => J (self s).

(** The path of the values file the Helm step writes. *)
Definition valuesYamlPath (m : Module) (uuid : string) : string :=
  Join ext (TempDir ext) (SafeName ext m +:+ (".module-values.yaml-" +:+ uuid)).

Definition is_start_call ev : Prop :=
  match ev with
  | CallStartMonitor _ _ _ => True
  | _ => False
  end.

Definition is_remove_call ev : Prop :=
  match ev with
  | CallRemove _ => True
  | _ => False
  end.

Definition is_upgrade_call ev : Prop :=
  match ev with
  | CallUpgradeRelease _ _ _ _ _ => True
  | _ => False
  end.

(** The calls of a run of a module that has no chart. *)
Definition is_hook_phase_call ev : Prop :=
  match ev with
  | CallStopMonitor _ | CallHookRun _ _ _ | CallAfterStartupCb
  | SampleValuesChecksum _ => True
  | _ => False
  end.

(** The Helm step of a module with a chart, outcome by outcome. *)
Definition helm_step s : State W * result unit :=
  let m := self s in
  let ns := AppNamespace ext in
  match YamlMarshal ext (ModuleValues ext (world s) m) with
  | Err e => (s, Err e)
  | Ok data =>
      let '(w1, uuid) := NewUUID ext (world s) in
      let valuesPath := valuesYamlPath m uuid in
      let '(w2, writeErr) := WriteFile ext valuesPath data w1 in
      let written := trace s ++ [CallWriteFile valuesPath data] in
      match writeErr with
      | Some e => ({| world := w2; self := m; trace := written |}, Err e)
      | None =>
          let rendered := Render ext w2 (Path m) [valuesPath] [] ns in
          let calls :=
            written ++ [CallRender (Path m) [valuesPath] [] ns rendered] in
          match rendered with
          | Err e => ({| world := w2; self := m; trace := calls |}, Err e)
          | Ok renderedManifests =>
              match GetManifestListFromYamlDocuments ext renderedManifests with
              | Err e => ({| world := w2; self := m; trace := calls |}, Err e)
              | Ok manifests =>
                  let m' := {| Name := Name m; Path := Path m;
                               LastReleaseManifests := manifests |} in
                  let checksum :=
                    CalculateStringsChecksum ext renderedManifests in
                  let start := CallStartMonitor (Name m) manifests ns in
                  match ShouldRunHelmUpgrade ext (Name m) checksum
                                             manifests w2 with
                  | Err e =>
                      ({| world := w2; self := m'; trace := calls |}, Err e)
                  | Ok false =>
                      if HasMonitor ext w2 (Name m)
                      then ({| world := w2; self := m'; trace := calls |},
                            Ok tt)
                      else ({| world := StartMonitor ext (Name m) manifests
                                                     ns w2;
                               self := m'; trace := calls ++ [start] |},
                            Ok tt)
                  | Ok true =>
                      let setValues := [checksum_key +:+ "=" +:+ checksum] in
                      let upgrade :=
                        CallUpgradeRelease (Name m) (Path m) [valuesPath]
                                           setValues ns in
                      let '(w3, upgradeErr) :=
                        UpgradeRelease ext (Name m) (Path m) [valuesPath]
                                       setValues ns w2 in
                      match upgradeErr with
                      | Some e =>
                          ({| world := w3; self := m';
                              trace := calls ++ [upgrade] |}, Err e)
                      | None =>
                          ({| world := StartMonitor ext (Name m) manifests
                                                    ns w3;
                              self := m';
                              trace := (calls ++ [upgrade]) ++ [start] |},
                           Ok tt)
                      end
                  end
              end
          end
      end
  end.

(** The three files of the enabled script have been prepared, which
    left the state [s3]. *)
Definition files_prepared (preceding : list string) s
    (configValuesPath valuesPath resultPath : string) (s3 : State W)
    : Prop :=
  exists mode s1 s2,
    Stat ext (world s) (enabledScriptPath ext s) = StatInfo mode
    /\ IsFileExecutable mode = true
    /\ prepareConfigValuesJsonFile ext s = (s1, Ok configValuesPath)
    /\ prepareValuesJsonFileForEnabledScript ext preceding s1
       = (s2, Ok valuesPath)
    /\ prepareModuleEnabledResultFile ext s2 = (s3, Ok resultPath).

(** The environment the enabled script is run in. *)
Definition script_envs (w : W)
    (configValuesPath valuesPath resultPath : string) : list string :=
  Environ ext w
  ++ ["CONFIG_VALUES_PATH=" +:+ configValuesPath;
      "VALUES_PATH=" +:+ valuesPath;
      "MODULE_ENABLED_RESULT=" +:+ resultPath].

End EngineMoreVocabulary.

(** *** Installations where something fails *)

Import Installation.

(** What goes wrong in an installation: a hook that fails, the errors
    of the clean-up of failed revisions, of the upgrade of the release
    and of the enabled script, and whether temporary files are kept. *)
Record Faults : Type := mkFaults {
  failing_hook : option string;
  cleanup_error : option error;
  upgrade_error : option error;
  script_error : option error;
  keep_tmp_files : bool
}.

Definition no_faults : Faults :=
  {| failing_hook := None; cleanup_error := None; upgrade_error := None;
     script_error := None; keep_tmp_files := false |}.

(** The collaborators of [ins] with the faults [f]. *)
Definition broken (ins : Installation) (f : Faults) : Collaborators Z :=
  let ext := installed ins in
  {| Stat := Stat ext;
     ReadFile := ReadFile ext;
     WriteFile := WriteFile ext;
     CreateEmptyWritableFile := CreateEmptyWritableFile ext;
     Remove := Remove ext;
     Environ := Environ ext;
     NewUUID := NewUUID ext;
     Join := Join ext;
     RunAndLogLines := fun _ _ w => (w, script_error f);
     DeleteSingleFailedRevision := fun _ w => (w, cleanup_error f);
     DeleteOldFailedRevisions := DeleteOldFailedRevisions ext;
     IsReleaseExists := IsReleaseExists ext;
     LastReleaseStatus := LastReleaseStatus ext;
     GetReleaseValues := GetReleaseValues ext;
     Render := Render ext;
     UpgradeRelease := fun _ _ _ _ _ w => (w, upgrade_error f);
     StopMonitor := StopMonitor ext;
     HasMonitor := HasMonitor ext;
     StartMonitor := StartMonitor ext;
     GetAbsentResources := GetAbsentResources ext;
     TempDir := TempDir ext;
     GetModuleHooksInOrder := GetModuleHooksInOrder ext;
     KubernetesSnapshots := KubernetesSnapshots ext;
     HookRun := fun hook binding bcs w =>
       if bool_decide (failing_hook f = Some hook)
       then (w, Some "exit status 1")
       else HookRun ext hook binding bcs w;
     ModuleValues := ModuleValues ext;
     ModuleConfigValues := ModuleConfigValues ext;
     ValuesForEnabledScript := ValuesForEnabledScript ext;
     JsonMarshal := JsonMarshal ext;
     YamlMarshal := YamlMarshal ext;
     CalculateChecksum := CalculateChecksum ext;
     CalculateStringsChecksum := CalculateStringsChecksum ext;
     GetManifestListFromYamlDocuments := GetManifestListFromYamlDocuments ext;
     SanitizeBaseName := SanitizeBaseName ext;
     AppNamespace := AppNamespace ext;
     DebugKeepTmpFiles :=
       if keep_tmp_files f then "yes" else DebugKeepTmpFiles ext |}.

Definition hook_fails (hook : string) : Faults :=
  {| failing_hook := Some hook; cleanup_error := None;
     upgrade_error := None; script_error := None; keep_tmp_files := false |}.

Definition cleanup_fails (e : error) : Faults :=
  {| failing_hook := None; cleanup_error := Some e; upgrade_error := None;
     script_error := None; keep_tmp_files := false |}.

Definition upgrade_fails (e : error) : Faults :=
  {| failing_hook := None; cleanup_error := None; upgrade_error := Some e;
     script_error := None; keep_tmp_files := false |}.

Definition script_fails (e : error) : Faults :=
  {| failing_hook := None; cleanup_error := None; upgrade_error := None;
     script_error := Some e; keep_tmp_files := false |}.

Definition files_kept : Faults :=
  {| failing_hook := None; cleanup_error := None; upgrade_error := None;
     script_error := None; keep_tmp_files := true |}.

(** A module with three BeforeHelm hooks. *)
Definition three_hooks : Installation :=
  {| ins_chart := true; ins_enabled_script := StatNotExist;
     ins_hooks := fun binding =>
       match binding with
       | BeforeHelm => ["010-app/hooks/a"; "010-app/hooks/b"; "010-app/hooks/c"]
       | _ => []
       end;
     ins_bumping_hooks := [];
     ins_release_exists := Ok false;
     ins_release_status := Err "release: not found";
     ins_release_values := Err "release: not found";
     ins_absent := Ok []; ins_has_monitor := false;
     ins_result_file := Ok "" |}.

(** A module of hooks only: no chart. *)
Definition hooks_only : Installation :=
  {| ins_chart := false; ins_enabled_script := StatNotExist;
     ins_hooks := fun binding =>
       match binding with
       | AfterHelm => ["010-app/hooks/after"]
       | AfterDeleteHelm => ["010-app/hooks/gone"]
       | _ => []
       end;
     ins_bumping_hooks := ["010-app/hooks/after"];
     ins_release_exists := Err "connection refused";
     ins_release_status := Err "connection refused";
     ins_release_values := Err "connection refused";
     ins_absent := Ok []; ins_has_monitor := false;
     ins_result_file := Ok "" |}.

(** A module with a chart and a release that cannot be looked up. *)
Definition unreachable_helm : Installation :=
  {| ins_chart := true; ins_enabled_script := StatNotExist;
     ins_hooks := fun binding =>
       match binding with
       | AfterDeleteHelm => ["010-app/hooks/gone"]
       | _ => []
       end;
     ins_bumping_hooks := [];
     ins_release_exists := Err "connection refused";
     ins_release_status := Err "connection refused";
     ins_release_values := Err "connection refused";
     ins_absent := Ok []; ins_has_monitor := false;
     ins_result_file := Ok "" |}.

(** A release that is deployed with the checksum of the rendering and
    has nothing absent; the module has a monitor or not. *)
Definition up_to_date (hasMonitor : bool) : Installation :=
  {| ins_chart := true; ins_enabled_script := StatNotExist;
     ins_hooks := fun _ => []; ins_bumping_hooks := [];
     ins_release_exists := Ok true;
     ins_release_status := Ok ("3", "DEPLOYED");
     ins_release_values := Ok {[ checksum_key := JStr "kind: Deployment" ]};
     ins_absent := Ok []; ins_has_monitor := hasMonitor;
     ins_result_file := Ok "" |}.

Definition delete_release_ok (releaseName : string) (w : Z)
    : Z * option error := (w, None).

Definition delete_release_fails (releaseName : string) (w : Z)
    : Z * option error := (w, Some "release: not found").

End EngineMore.

(** ** More vocabulary: the modules directory *)

Module SearchSpec.
Import GoStrings Engine ModuleSearch.

(** The name of a module directory: three digits, a dash, and the name
    of the module, which has no newline. *)
Definition module_dir_name (name moduleName : string) : Prop :=
  exists d1 d2 d3,
    name = String d1 (String d2 (String d3 (String "-" moduleName)))
    /\ ValuesKey.is_digit d1 = true /\ ValuesKey.is_digit d2 = true
    /\ ValuesKey.is_digit d3 = true
    /\ has_newline moduleName = false.

Definition is_directory (file : FileInfo) : Prop := IsDir file = true.

#[global] Instance is_directory_dec file : Decision (is_directory file).
Proof. unfold is_directory. apply _. Defined.

(** The module made for a directory of the modules directory. *)
Definition module_of_dir {W} (ext : Collaborators W) (modulesDir : string)
    (file : FileInfo) (m : Module) : Prop :=
  module_dir_name (FileName file) (Name m)
  /\ Path m = Join ext modulesDir (FileName file)
  /\ LastReleaseManifests m = [].

(** The modules of [modules] that have the name [name]. *)
Definition named (name : string) (modules : list Module) : list Module :=
  filter (fun m => Name m = name) modules.

(** A modules directory with a file and two directories for the same
    module name. *)
Definition two_versions (w : unit) (dir : string) : result (list FileInfo) :=
  Ok [ {| FileName := "010-app"; IsDir := true |};
       {| FileName := "020-app"; IsDir := true |};
       {| FileName := "values.yaml"; IsDir := false |} ].

(** Configs as the text they were read from; values.yaml files that
    hold [bad] cannot be parsed. *)
Definition config_of_name (name : string) : string := "".

Definition config_of_values (config : string) (values : option string)
    : result string := Ok (default "" values).

Definition config_of_yaml (config data : string) : result string :=
  if String.eqb data "bad" then Err "yaml: cannot unmarshal" else Ok data.

Definition values_of_bytes (data : string) : result string := Ok data.

(** An installation whose files are all there and hold [data]. *)
Definition files_hold (data : string) : Collaborators unit :=
  {| Stat := fun _ _ => StatInfo 420;
     ReadFile := fun _ _ => Ok data;
     WriteFile := fun _ _ w => (w, None);
     CreateEmptyWritableFile := fun _ w => (w, None);
     Remove := fun _ w => (w, None);
     Environ := fun _ => [];
     NewUUID := fun w => (w, "6ba7b810");
     Join := fun dir name => dir +:+ "/" +:+ name;
     RunAndLogLines := fun _ _ w => (w, None);
     DeleteSingleFailedRevision := fun _ w => (w, None);
     DeleteOldFailedRevisions := fun _ w => (w, None);
     IsReleaseExists := fun _ _ => Ok false;
     LastReleaseStatus := fun _ _ => Err "release: not found";
     GetReleaseValues := fun _ _ => Err "release: not found";
     Render := fun _ _ _ _ _ => Ok "";
     UpgradeRelease := fun _ _ _ _ _ w => (w, None);
     StopMonitor := fun _ w => w;
     HasMonitor := fun _ _ => false;
     StartMonitor := fun _ _ _ w => w;
     GetAbsentResources := fun _ _ _ => Ok [];
     TempDir := "/tmp";
     GetModuleHooksInOrder := fun _ _ _ => [];
     KubernetesSnapshots := fun _ _ => JNull;
     HookRun := fun _ _ _ w => (w, None);
     ModuleValues := fun _ _ => JNull;
     ModuleConfigValues := fun _ _ => JNull;
     ValuesForEnabledScript := fun _ _ _ => JNull;
     JsonMarshal := fun _ => Ok "null";
     YamlMarshal := fun _ => Ok "null";
     CalculateChecksum := fun s => s;
     CalculateStringsChecksum := fun s => s;
     GetManifestListFromYamlDocuments := fun _ => Ok [];
     SanitizeBaseName := fun name => name;
     AppNamespace := "default";
     DebugKeepTmpFiles := "no" |}.

Definition fresh_manager : moduleManager (Values := string)
                                         (ModuleConfig := string) :=
  {| ModulesDir := "/modules"; commonStaticValues := None;
     allModulesByName := ∅; allModulesNamesInOrder := [] |}.

End SearchSpec.

(** ** More vocabulary: the operator *)

Module OperatorMore.
Import GoStrings Queue Operator OperatorSpec.

(** The global values have changed in the way that makes the handler of
    a global hook reload all: for a schedule binding the checksums
    before and after the hook differ; for a kubernetes binding they
    differ and the task asks for the reload; for the last afterAll hook
    the checksum after the hook is not the one taken at discovery. *)
Definition values_changed (hm : HookMetadata)
    (beforeChecksum afterChecksum : string) : Prop :=
  match MetaBindingType hm with
  | Some Schedule => beforeChecksum <> afterChecksum
  | Some OnKubernetesEvent =>
      ReloadAllOnValuesChanges hm = true /\ beforeChecksum <> afterChecksum
  | Some AfterAll =>
      LastAfterAllHook hm = true /\ afterChecksum <> ValuesChecksum hm
  | _ => False
  end.

(** The tasks of a reload of all: the beforeAll hooks, then the
    discovery. *)
Definition reload_all_tasks {W} (ext : Collaborators W) (w : W)
    (eventDescription : string) (onStartup : bool) : list Task :=
  (beforeAllTask eventDescription <$> GetGlobalHooksInOrder ext w BeforeAll)
  ++ [discoverTask eventDescription onStartup].

(** A task of a schedule binding of a global hook. *)
Definition schedule_task : Task :=
  NewTask GlobalHookRun "main"
    {| EventDescription := "Schedule"; HookName := "hooks/cron";
       ModuleName := ""; MetaBindingType := Some Schedule;
       MetaBindingContext := []; AllowFailure := false;
       OnStartupHooks := false; ReloadAllOnValuesChanges := false;
       LastAfterAllHook := false; ValuesChecksum := "" |}.

(** An operator whose global hooks change the global values, whose
    modules change their values in afterHelm, and which has two afterAll
    hooks and a beforeAll hook. *)
Definition busy_operator : Collaborators unit :=
  {| RunGlobalHook := fun _ _ _ w => (w, ("1f3a", "9c0d", None));
     RunModuleHook := fun _ _ _ w => (w, None);
     RunModule := fun _ _ _ wm => (wm, Ok true);
     DeleteModule := fun _ wm => (wm, None);
     DiscoverModulesState := fun w =>
       (w, Ok {| EnabledModules := ["app"; "db"];
                 ModulesToDisable := ["old"];
                 ReleasedUnknownModules := ["stray"];
                 NewlyEnabledModules := ["db"] |});
     GetGlobalHooksInOrder := fun _ binding =>
       match binding with
       | BeforeAll => ["hooks/before"]
       | AfterAll => ["hooks/after-1"; "hooks/after-2"]
       | _ => []
       end;
     GlobalValuesChecksum := fun _ => Ok "9c0d";
     GlobalHookLabel := fun _ hook => hook;
     ModuleHookLabels := fun _ hook => ("app", hook);
     HandleGlobalEnableKubernetesBindings := fun _ w => (w, Ok []);
     HandleModuleEnableKubernetesBindings := fun _ w => (w, Ok []);
     StartModuleHooks := fun _ w => w;
     StartHookMonitors := fun _ w => w;
     EnableScheduleBindings := fun _ w => w;
     InitAndStartHookQueues := fun w => w;
     RegisterModuleHooks := fun _ w => (w, None);
     DisableModuleHooks := fun _ w => w;
     Retry := fun w => w;
     DeleteRelease := fun _ w => (w, None);
     SendCounter := fun _ _ w => w |}.

Definition discover_task : Task :=
  discoverTask "GlobalConfigValuesChanged" false.

End OperatorMore.

(** * Lemmas and theorems *)

(** ** The order of [sort.Strings] *)

Section StringOrder.
Import GoStrings.

Lemma string_compare_refl (s : string) : String.compare s s = Eq.
Proof.
  induction s as [|c s IH]; simpl; [done|].
  unfold Ascii.compare. by rewrite N.compare_refl.
Qed.

Lemma string_compare_not_gt_trans (a b c : string) :
  String.compare a b <> Gt -> String.compare b c <> Gt ->
  String.compare a c <> Gt.
Proof.
  revert b c. induction a as [|x a IH]; intros [|y b] [|z c]; simpl; try done.
  unfold Ascii.compare.
  destruct (N.compare_spec (N_of_ascii x) (N_of_ascii y)) as [Hxy|Hxy|Hxy];
    destruct (N.compare_spec (N_of_ascii y) (N_of_ascii z)) as [Hyz|Hyz|Hyz];
    destruct (N.compare_spec (N_of_ascii x) (N_of_ascii z)) as [Hxz|Hxz|Hxz];
    try done; try lia.
  apply IH.
Qed.

#[global] Instance le_refl : Reflexive le.
Proof. intros s. unfold le, String.leb. by rewrite string_compare_refl. Qed.

#[global] Instance le_trans : Transitive le.
Proof.
  intros a b c. unfold le, String.leb.
  pose proof (string_compare_not_gt_trans a b c) as H.
  destruct (String.compare a b), (String.compare b c), (String.compare a c);
    try done; intros _ _; exfalso; by apply H.
Qed.

#[global] Instance le_total : Total le.
Proof. intros a b. apply String.leb_total. Qed.

#[global] Instance le_antisym : AntiSymm (=) le.
Proof. intros a b. apply String.leb_antisym. Qed.

End StringOrder.

(** ** Lists *)

Section ListFacts.
Context {A : Type} (P : A -> Prop) `{!forall x, Decision (P x)}.

Lemma filter_all (l : list A) :
  (forall x, x ∈ l -> P x) -> filter P l = l.
Proof.
  induction l as [|x l IH]; intros Hall; [done|].
  rewrite filter_cons_True by (apply Hall; apply list_elem_of_here).
  f_equal. apply IH. intros y Hy. by apply Hall, list_elem_of_further.
Qed.

Lemma filter_none (l : list A) :
  (forall x, x ∈ l -> ~ P x) -> filter P l = [].
Proof.
  induction l as [|x l IH]; intros Hall; [done|].
  rewrite filter_cons_False by (apply Hall; apply list_elem_of_here).
  apply IH. intros y Hy. by apply Hall, list_elem_of_further.
Qed.

End ListFacts.

(** ** CompactPatches *)

Section Compact.
Import GoStrings Patch PatchSpec PatchMore.

Implicit Types (op a r : ValuesPatchOperation).
Implicit Types (tree : gmap string (list ValuesPatchOperation)).

Lemma entry_shape_path path entry a :
  entry_shape path entry -> a ∈ entry -> Path a = path.
Proof.
  intros Hs Ha. destruct Hs as [|a1 H1 H2|a1 r1 H1 H2 H3 H4].
  - by apply elem_of_nil in Ha.
  - apply list_elem_of_singleton in Ha. by subst.
  - apply elem_of_cons in Ha as [->|Ha]; [done|].
    apply list_elem_of_singleton in Ha. by subst.
Qed.


Lemma squash_remove_spec op prev :
  (exists a, a ∈ prev /\ Op a = "add" /\ squash_remove op prev = ([a; op], true))
  \/ (squash_remove op prev = (prev, false)).
Proof.
  unfold squash_remove.
  assert (Hgen : forall l acc,
    (exists a, a ∈ l /\ Op a = "add" /\
       foldl (fun acc prevOp =>
                if String.eqb (Op prevOp) "add" then ([prevOp; op], true) else acc)
             acc l = ([a; op], true))
    \/ foldl (fun acc prevOp =>
                if String.eqb (Op prevOp) "add" then ([prevOp; op], true) else acc)
             acc l = acc).
  { induction l as [|x l IH] using rev_ind; intros acc; [by right|].
    rewrite foldl_app. simpl.
    destruct (String.eqb_spec (Op x) "add") as [Hx|Hx].
    - left. exists x. split; [set_solver|done].
    - destruct (IH acc) as [(a & Ha & Hop & Heq)|Heq]; [left|by right].
      exists a. split; [set_solver|done]. }
  apply Hgen.
Qed.

Lemma delete_subpaths_lookup parent tree path :
  delete_subpaths parent tree !! path
  = if is_subpath parent path then None else tree !! path.
Proof.
  unfold delete_subpaths. rewrite map_lookup_filter.
  destruct (tree !! path) as [entry|] eqn:Hl; simpl.
  - destruct (is_subpath parent path) eqn:Hs.
    + rewrite option_guard_False; [done|]. simpl. congruence.
    + rewrite option_guard_True; [done|]. simpl. done.
  - by destruct (is_subpath parent path).
Qed.

Lemma is_subpath_irrefl path : is_subpath path path = false.
Proof. unfold is_subpath. by rewrite Nat.ltb_irrefl. Qed.

Lemma compact_step_lookup_own tree op :
  exists entry, compact_step tree op !! Path op = Some entry
                /\ own_entry tree op entry.
Proof.
  unfold compact_step.
  set (t1 := if String.eqb (Op op) "remove"
             then delete_subpaths (Path op) tree else tree).
  assert (Ht1 : t1 !! Path op = tree !! Path op).
  { unfold t1. destruct (String.eqb (Op op) "remove"); [|done].
    by rewrite delete_subpaths_lookup, is_subpath_irrefl. }
  set (t2 := match t1 !! Path op with
             | Some _ => t1 | None => <[Path op := []]> t1 end).
  assert (Ht2 : t2 !! Path op = Some (default [] (tree !! Path op))).
  { unfold t2. rewrite <- Ht1. destruct (t1 !! Path op) as [e|] eqn:He.
    - done.
    - by rewrite lookup_insert_eq. }
  destruct (String.eqb_spec (Op op) "add") as [Hadd|Hadd].
  - assert (String.eqb (Op op) "remove" = false) as ->
      by (apply String.eqb_neq; congruence).
    exists [op]. rewrite lookup_insert_eq. split; [done|by constructor].
  - destruct (String.eqb_spec (Op op) "remove") as [Hrm|Hrm].
    + rewrite Ht2. simpl.
      destruct (squash_remove_spec op (default [] (tree !! Path op)))
        as [(a & Ha & Hop & ->)| ->].
      * exists [a; op]. rewrite lookup_insert_eq. split; [done|].
        destruct (tree !! Path op) as [old|] eqn:Hold; simpl in Ha.
        -- by eapply own_remove_add.
        -- by apply elem_of_nil in Ha.
      * exists [guard_add (Path op); op]. rewrite lookup_insert_eq.
        split; [done|]. by constructor.
    + eexists. split; [done|]. by constructor.
Qed.

(** The entries of the other paths after one step: dropped if the step
    removes a parent path, unchanged otherwise. *)
Lemma compact_step_lookup_other tree op path :
  path <> Path op ->
  compact_step tree op !! path
  = if String.eqb (Op op) "remove" && is_subpath (Path op) path
    then None else tree !! path.
Proof.
  intros Hne. unfold compact_step.
  set (t1 := if String.eqb (Op op) "remove"
             then delete_subpaths (Path op) tree else tree).
  assert (Ht1 : t1 !! path
                = if String.eqb (Op op) "remove" && is_subpath (Path op) path
                  then None else tree !! path).
  { unfold t1. destruct (String.eqb (Op op) "remove"); simpl; [|done].
    apply delete_subpaths_lookup. }
  set (t2 := match t1 !! Path op with
             | Some _ => t1 | None => <[Path op := []]> t1 end).
  assert (Ht2 : t2 !! path = t1 !! path).
  { unfold t2. destruct (t1 !! Path op); [done|].
    by rewrite lookup_insert_ne. }
  set (t3 := if String.eqb (Op op) "add" then <[Path op := [op]]> t2 else t2).
  assert (Ht3 : t3 !! path = t1 !! path).
  { unfold t3. destruct (String.eqb (Op op) "add"); [|done].
    by rewrite lookup_insert_ne. }
  rewrite <- Ht1, <- Ht3.
  destruct (String.eqb (Op op) "remove"); [|done].
  destruct (squash_remove op (default [] (t3 !! Path op))) as [entry has].
  destruct has; by rewrite lookup_insert_ne.
Qed.

Lemma compact_step_lookup_own_result tree op :
  compact_step tree op !! Path op = Some (own_result tree op).
Proof.
  unfold compact_step, own_result.
  set (t1 := if String.eqb (Op op) "remove"
             then delete_subpaths (Path op) tree else tree).
  assert (Ht1 : t1 !! Path op = tree !! Path op).
  { unfold t1. destruct (String.eqb (Op op) "remove"); [|done].
    by rewrite delete_subpaths_lookup, is_subpath_irrefl. }
  set (t2 := match t1 !! Path op with
             | Some _ => t1 | None => <[Path op := []]> t1 end).
  assert (Ht2 : t2 !! Path op = Some (default [] (tree !! Path op))).
  { unfold t2. rewrite <- Ht1. destruct (t1 !! Path op) as [e|] eqn:He.
    - done.
    - by rewrite lookup_insert_eq. }
  destruct (String.eqb_spec (Op op) "add") as [Hadd|Hadd].
  - assert (String.eqb (Op op) "remove" = false) as ->
      by (apply String.eqb_neq; congruence).
    by rewrite lookup_insert_eq.
  - destruct (String.eqb (Op op) "remove"); [|done].
    rewrite Ht2. simpl.
    destruct (squash_remove op (default [] (tree !! Path op))) as [entry has].
    destruct has; by rewrite lookup_insert_eq.
Qed.

Lemma compact_step_shape tree op :
  tree_shape tree -> tree_shape (compact_step tree op).
Proof.
  intros Hshape path entry Hl.
  destruct (decide (path = Path op)) as [->|Hne].
  - destruct (compact_step_lookup_own tree op) as (e & He & Hown).
    assert (e = entry) as -> by congruence.
    destruct Hown as [Hadd|Hrm|old a Hrm Hold Ha Hadd|Hadd Hrm].
    + by constructor.
    + by constructor.
    + constructor; try done. eapply entry_shape_path; [|done]. by apply Hshape.
    + destruct (tree !! Path op) as [old|] eqn:Hold; simpl.
      * by apply Hshape.
      * constructor.
  - rewrite compact_step_lookup_other in Hl by done.
    destruct (String.eqb (Op op) "remove" && is_subpath (Path op) path);
      [done|]. by apply Hshape.
Qed.

Lemma compact_tree_shape operations : tree_shape (compact_tree operations).
Proof.
  unfold compact_tree.
  assert (Hgen : forall tree, tree_shape tree ->
                   tree_shape (foldl compact_step tree operations)).
  { induction operations as [|op ops IH]; intros tree Ht; [done|].
    simpl. apply IH. by apply compact_step_shape. }
  apply Hgen. intros path entry. by rewrite lookup_empty.
Qed.

Lemma compact_step_from seen tree op :
  tree_from seen tree -> tree_from (seen ++ [op]) (compact_step tree op).
Proof.
  intros Hfrom path entry o Hl Ho.
  destruct (decide (path = Path op)) as [->|Hne].
  - destruct (compact_step_lookup_own tree op) as (e & He & Hown).
    assert (e = entry) as -> by congruence.
    destruct Hown as [Hadd|Hrm|old a Hrm Hold Ha Hadd|Hadd Hrm].
    + apply list_elem_of_singleton in Ho as ->. left. set_solver.
    + apply elem_of_cons in Ho as [->|Ho]; [by right|].
      apply list_elem_of_singleton in Ho as ->. left. set_solver.
    + apply elem_of_cons in Ho as [->|Ho].
      * destruct (Hfrom _ _ _ Hold Ha); [left; set_solver|by right].
      * apply list_elem_of_singleton in Ho as ->. left. set_solver.
    + destruct (tree !! Path op) as [old|] eqn:Hold; simpl in Ho.
      * destruct (Hfrom _ _ _ Hold Ho); [left; set_solver|by right].
      * by apply elem_of_nil in Ho.
  - rewrite compact_step_lookup_other in Hl by done.
    destruct (String.eqb (Op op) "remove" && is_subpath (Path op) path);
      [done|].
    destruct (Hfrom _ _ _ Hl Ho); [left; set_solver|by right].
Qed.

Lemma compact_tree_from operations :
  tree_from operations (compact_tree operations).
Proof.
  unfold compact_tree.
  assert (Hgen : forall ops seen tree, tree_from seen tree ->
                   tree_from (seen ++ ops) (foldl compact_step tree ops)).
  { induction ops as [|op ops IH]; intros seen tree Ht; simpl.
    - by rewrite app_nil_r.
    - replace (seen ++ op :: ops) with ((seen ++ [op]) ++ ops)
        by (by rewrite <- app_assoc).
      apply IH. by apply compact_step_from. }
  apply (Hgen operations [] ∅). intros path entry o. by rewrite lookup_empty.
Qed.

(** *** The emitted list *)

Lemma sorted_paths_sorted tree : StronglySorted le (sorted_paths tree).
Proof. apply StronglySorted_merge_sort; apply _. Qed.

Lemma sorted_paths_NoDup tree : NoDup (sorted_paths tree).
Proof.
  unfold sorted_paths. rewrite merge_sort_Permutation.
  apply NoDup_fst_map_to_list.
Qed.

Lemma elem_of_sorted_paths tree path :
  path ∈ sorted_paths tree <-> is_Some (tree !! path).
Proof.
  unfold sorted_paths. rewrite merge_sort_Permutation.
  rewrite list_elem_of_fmap. split.
  - intros ([p e] & -> & Hin). apply elem_of_map_to_list in Hin. by exists e.
  - intros [e He]. exists (path, e). split; [done|].
    by apply elem_of_map_to_list.
Qed.

Lemma elem_of_emit tree paths o :
  o ∈ Patch.emit tree paths <->
  exists path entry, path ∈ paths /\ tree !! path = Some entry /\ o ∈ entry.
Proof.
  unfold Patch.emit. rewrite list_elem_of_In, in_flat_map. split.
  - intros (path & Hp & Ho). apply list_elem_of_In in Hp, Ho.
    destruct (tree !! path) as [entry|] eqn:He; simpl in Ho.
    + by exists path, entry.
    + by apply elem_of_nil in Ho.
  - intros (path & entry & Hp & He & Ho). exists path.
    rewrite <- !list_elem_of_In. by rewrite He.
Qed.

Lemma emit_path tree paths o :
  tree_shape tree -> o ∈ Patch.emit tree paths -> Path o ∈ paths.
Proof.
  intros Hshape (path & entry & Hp & He & Ho)%elem_of_emit.
  by rewrite (entry_shape_path path entry o (Hshape _ _ He) Ho).
Qed.

Lemma entry_path tree path o :
  tree_shape tree -> o ∈ default [] (tree !! path) -> Path o = path.
Proof.
  intros Hshape Ho. destruct (tree !! path) as [e|] eqn:He; simpl in Ho.
  - by apply (entry_shape_path path e o (Hshape _ _ He)).
  - by apply elem_of_nil in Ho.
Qed.

(** The operations of one path in the emitted list are the entry of
    that path. *)
Lemma filter_emit tree paths path :
  tree_shape tree -> NoDup paths ->
  filter (fun o => Path o = path) (Patch.emit tree paths)
  = if decide (path ∈ paths) then default [] (tree !! path) else [].
Proof.
  intros Hshape. induction paths as [|p paths IH]; intros Hnd.
  - simpl. destruct (decide (path ∈ [])) as [Hin|]; [|done].
    by apply elem_of_nil in Hin.
  - apply NoDup_cons in Hnd as [Hp Hnd]. simpl.
    rewrite filter_app, IH by done.
    destruct (decide (path = p)) as [->|Hne].
    + destruct (decide (p ∈ paths)); [done|].
      destruct (decide (p ∈ p :: paths)) as [_|Hn]; [|set_solver].
      rewrite app_nil_r.
      apply filter_all. intros o Ho. by apply (entry_path tree).
    + rewrite filter_none.
      2:{ intros o Ho Hpath. apply Hne.
          by rewrite <- (entry_path tree p o Hshape Ho). }
      simpl. destruct (decide (path ∈ paths)) as [Hin|Hnin];
        destruct (decide (path ∈ p :: paths)) as [Hin'|Hnin'].
      * done.
      * exfalso. apply Hnin'. apply elem_of_cons; by right.
      * exfalso. apply elem_of_cons in Hin' as [?|?]; done.
      * done.
Qed.

Lemma entry_length tree path :
  tree_shape tree -> length (default [] (tree !! path)) <= 2.
Proof.
  intros Hshape. destruct (tree !! path) as [e|] eqn:He; simpl; [|lia].
  destruct (Hshape _ _ He); simpl; lia.
Qed.

Lemma entry_adds tree path :
  tree_shape tree ->
  length (filter (fun o => Op o = "add") (default [] (tree !! path))) <= 1.
Proof.
  intros Hshape. destruct (tree !! path) as [e|] eqn:He; simpl; [|lia].
  destruct (Hshape _ _ He) as [|a H1 H2|a r H1 H2 H3 H4].
  - simpl. lia.
  - by rewrite filter_cons_True.
  - rewrite filter_cons_True by done.
    rewrite filter_cons_False by (rewrite H3; done). simpl. lia.
Qed.

Lemma removes_follow_adds_app ops1 ops2 :
  removes_follow_adds ops1 -> removes_follow_adds ops2 ->
  removes_follow_adds (ops1 ++ ops2).
Proof.
  intros H1 H2 i r Hi Hr.
  apply lookup_app_Some in Hi as [Hi|[Hlen Hi]].
  - destruct (H1 i r Hi Hr) as (j & a & -> & Hj & Ha).
    exists j, a. split; [done|]. split; [|done].
    by apply lookup_app_l_Some.
  - destruct (H2 _ r Hi Hr) as (j & a & Hij & Hj & Ha).
    exists (length ops1 + j), a. split; [lia|]. split; [|done].
    by rewrite lookup_app_r, Nat.add_comm, Nat.add_sub by lia.
Qed.

Lemma removes_follow_adds_entry path entry :
  entry_shape path entry -> removes_follow_adds entry.
Proof.
  intros [|a H1 H2|a r H1 H2 H3 H4] i x Hi Hx.
  - done.
  - destruct i; simpl in Hi; [|done]. congruence.
  - destruct i as [|[|i]]; simpl in Hi; try done.
    + congruence.
    + exists 0, a. simplify_eq. by rewrite H4.
Qed.

Lemma removes_follow_adds_emit tree paths :
  tree_shape tree -> removes_follow_adds (Patch.emit tree paths).
Proof.
  intros Hshape. induction paths as [|p paths IH]; simpl.
  - intros i r Hi. done.
  - apply removes_follow_adds_app; [|done].
    destruct (tree !! p) as [e|] eqn:He; simpl.
    + eapply removes_follow_adds_entry. by apply Hshape.
    + intros i r Hi. done.
Qed.

Lemma entry_paths_sorted tree path :
  tree_shape tree -> StronglySorted le (Path <$> default [] (tree !! path)).
Proof.
  intros Hshape.
  assert (Hp : forall o, o ∈ default [] (tree !! path) -> Path o = path)
    by (intros o; by apply entry_path).
  revert Hp. generalize (default [] (tree !! path)). intros entry.
  induction entry as [|o e IHe]; intros Hp; simpl; constructor.
  - apply IHe. intros o' Ho'. apply Hp. set_solver.
  - apply Forall_forall. intros q (o' & -> & Ho')%list_elem_of_fmap.
    rewrite (Hp o), (Hp o') by set_solver. reflexivity.
Qed.

(** The paths of the emitted list are in the order of [paths]. *)
Lemma emit_sorted tree paths :
  tree_shape tree -> StronglySorted le paths ->
  StronglySorted le (Path <$> Patch.emit tree paths).
Proof.
  intros Hshape. induction paths as [|p paths IH]; intros Hs; simpl.
  - constructor.
  - apply StronglySorted_inv in Hs as [Hs Hall].
    rewrite fmap_app. apply StronglySorted_app.
    split; [|split; [by apply entry_paths_sorted|by apply IH]].
    intros q1 q2 (o1 & -> & Ho1)%list_elem_of_fmap
                 (o2 & -> & Ho2)%list_elem_of_fmap.
    rewrite (entry_path tree p o1 Hshape Ho1).
    rewrite Forall_forall in Hall. apply Hall.
    by apply (emit_path tree).
Qed.

(** *** Removing a path drops what was stored below it *)




(** The normal form of the output, path by path. *)
Lemma CompactPatches_on_path operations path :
  entry_shape path
    (filter (fun o => Path o = path) (Operations (CompactPatches operations))).
Proof.
  simpl. rewrite filter_emit
    by (apply compact_tree_shape || apply sorted_paths_NoDup).
  destruct (decide _) as [_|_]; [|constructor].
  destruct (compact_tree operations !! path) as [entry|] eqn:He; simpl.
  - by apply (compact_tree_shape operations).
  - constructor.
Qed.

Lemma on_path_CompactPatches operations path :
  on_path path (Operations (CompactPatches operations))
  = default [] (compact_tree operations !! path).
Proof.
  unfold on_path. simpl. rewrite filter_emit
    by (apply compact_tree_shape || apply sorted_paths_NoDup).
  destruct (decide _) as [|Hnin]; [done|].
  destruct (compact_tree operations !! path) as [entry|] eqn:He; [|done].
  exfalso. apply Hnin. apply elem_of_sorted_paths. by eexists.
Qed.

(** One step of the loop, seen from one path. *)
Lemma compact_step_left_on tree op path :
  tree_shape tree ->
  default [] (compact_step tree op !! path)
  = left_on path (default [] (tree !! path)) op.
Proof.
  intros Hshape. unfold left_on.
  destruct (String.eqb_spec (Path op) path) as [<-|Hne].
  - rewrite compact_step_lookup_own_result. simpl. unfold own_result.
    destruct (String.eqb (Op op) "add"); [done|].
    destruct (String.eqb (Op op) "remove"); [|done].
    destruct (tree !! Path op) as [entry|] eqn:He; simpl; [|done].
    destruct (Hshape _ _ He) as [|a H1 H2|a r H1 H2 H3 H4];
      unfold squash_remove; simpl.
    + done.
    + by rewrite H1.
    + by rewrite H1, H3.
  - rewrite compact_step_lookup_other by done.
    by destruct (String.eqb (Op op) "remove" && is_subpath (Path op) path).
Qed.

Lemma compact_tree_standing operations path :
  default [] (compact_tree operations !! path) = standing path operations.
Proof.
  unfold standing.
  induction operations as [|op operations IH] using rev_ind; [done|].
  unfold compact_tree in *. rewrite !foldl_app. simpl. rewrite <- IH.
  apply compact_step_left_on, compact_tree_shape.
Qed.

Lemma left_on_untouched path later entry :
  untouched_by path later -> foldl (left_on path) entry later = entry.
Proof.
  revert entry. induction later as [|o later IH]; intros entry Hun; [done|].
  simpl. destruct (Hun o) as [Hne Hrm]; [apply list_elem_of_here|].
  rewrite IH by (intros o' Ho'; apply Hun; by apply list_elem_of_further).
  unfold left_on. destruct (String.eqb_spec (Path o) path); [done|].
  destruct (String.eqb_spec (Op o) "remove") as [Ho|Ho]; [|done].
  by rewrite (Hrm Ho).
Qed.

(** Without an [add] on the path, the [add] a [remove] would keep is the
    virtual one. *)
Lemma left_on_no_add path ops entry :
  no_add_on path ops ->
  hd (guard_add path) entry = guard_add path ->
  hd (guard_add path) (foldl (left_on path) entry ops) = guard_add path.
Proof.
  revert entry. induction ops as [|o ops IH]; intros entry Hno Hhd; [done|].
  simpl. apply IH.
  { intros o' Ho'. apply Hno. by apply list_elem_of_further. }
  unfold left_on. destruct (String.eqb_spec (Path o) path) as [Hp|Hp].
  - destruct (String.eqb_spec (Op o) "add") as [Ho|Ho].
    { by destruct (Hno o (list_elem_of_here _ _) Hp). }
    by destruct (String.eqb (Op o) "remove").
  - by destruct (String.eqb (Op o) "remove" && is_subpath (Path o) path).
Qed.

(** Without an [add] on the path and a [remove] of a parent, the [add]
    a [remove] would keep stays. *)
Lemma left_on_keeps_add path ops entry a :
  no_add_on path ops -> no_parent_remove path ops ->
  hd (guard_add path) entry = a ->
  hd (guard_add path) (foldl (left_on path) entry ops) = a.
Proof.
  revert entry. induction ops as [|o ops IH]; intros entry Hno Hnp Hhd;
    [done|].
  simpl. apply IH.
  { intros o' Ho'. apply Hno. by apply list_elem_of_further. }
  { intros o' Ho'. apply Hnp. by apply list_elem_of_further. }
  unfold left_on. destruct (String.eqb_spec (Path o) path) as [Hp|Hp].
  - destruct (String.eqb_spec (Op o) "add") as [Ho|Ho].
    { by destruct (Hno o (list_elem_of_here _ _) Hp). }
    by destruct (String.eqb (Op o) "remove").
  - destruct (String.eqb_spec (Op o) "remove") as [Ho|Ho]; [|done].
    by rewrite (Hnp o (list_elem_of_here _ _) Ho).
Qed.

Lemma standing_last path before o later :
  untouched_by path later ->
  standing path (before ++ o :: later)
  = left_on path (standing path before) o.
Proof.
  intros Hun. unfold standing. rewrite foldl_app. simpl.
  by apply left_on_untouched.
Qed.

End Compact.

Section CompactTheorems.
Import GoStrings Patch PatchSpec PatchMore.

(** C5.  For every sequence of patch operations the output of
    CompactPatches has, for each path, at most one [add]; every [remove]
    of the output is immediately preceded by an [add] on the same path,
    where an operation of the output that is not an operation of the
    input is the virtual [add] of its path; the operations of a path are
    nothing, one [add], or an [add] followed by a [remove], so at most
    two; and the paths of the output are in the byte-wise order of
    [sort.Strings], which groups the operations by path.  What the
    output has on a path is what the operations of the input leave on
    it one after the other: an [add] on the path leaves itself alone, a
    [remove] on the path leaves the [add] that was there, the virtual
    one if there was none, followed by itself, and a [remove] of a
    parent path leaves nothing.  So for a [remove] that no later
    operation touches, the output has the virtual [add] and the
    [remove] when no operation before it is an [add] on its path, and
    the last [add] on its path and the [remove] when neither an [add]
    on the path nor a [remove] of a parent comes between them; and for
    an [add] that no later operation touches, the output has that [add]
    alone. *)
Theorem CompactPatches_normal_form (operations : list ValuesPatchOperation) :
  let out := Operations (CompactPatches operations) in
  (forall path,
      length (filter (fun o => Op o = "add" /\ Path o = path) out) <= 1)
  /\ removes_follow_adds out
  /\ (forall o, o ∈ out -> o ∈ operations \/ o = guard_add (Path o))
  /\ (forall path,
        entry_shape path (filter (fun o => Path o = path) out)
        /\ length (filter (fun o => Path o = path) out) <= 2)
  /\ StronglySorted le (Path <$> out)
  /\ (forall path,
        filter (fun o => Path o = path) out = standing path operations)
  /\ (forall before r later,
        operations = before ++ r :: later ->
        Op r = "remove" ->
        untouched_by (Path r) later ->
        (no_add_on (Path r) before ->
         filter (fun o => Path o = Path r) out = [guard_add (Path r); r])
        /\ (forall front a between,
              before = front ++ a :: between ->
              Op a = "add" -> Path a = Path r ->
              no_add_on (Path r) between ->
              no_parent_remove (Path r) between ->
              filter (fun o => Path o = Path r) out = [a; r]))
  /\ (forall before a later,
        operations = before ++ a :: later ->
        Op a = "add" ->
        untouched_by (Path a) later ->
        filter (fun o => Path o = Path a) out = [a]).
Proof.
  intros out.
  assert (Hon : forall path,
             entry_shape path (filter (fun o => Path o = path) out))
    by (intros; apply CompactPatches_on_path).
  assert (Hstanding : forall path,
             filter (fun o => Path o = path) out = standing path operations).
  { intros path. rewrite <- compact_tree_standing.
    apply on_path_CompactPatches. }
  split_and!.
  - intros path. rewrite <- list_filter_filter.
    destruct (Hon path) as [|a H1 H2|a r H1 H2 H3 H4].
    + simpl. lia.
    + by rewrite filter_cons_True.
    + rewrite filter_cons_True by done.
      rewrite filter_cons_False by (rewrite H3; done). simpl. lia.
  - apply removes_follow_adds_emit, compact_tree_shape.
  - intros o (path & entry & _ & He & Ho)%elem_of_emit.
    by apply (compact_tree_from operations path entry).
  - intros path. split; [done|]. destruct (Hon path); simpl; lia.
  - apply emit_sorted; [apply compact_tree_shape|apply sorted_paths_sorted].
  - exact Hstanding.
  - intros before r later -> Hr Hun.
    rewrite Hstanding, standing_last by done.
    assert (Hlast : forall entry,
               left_on (Path r) entry r
               = [hd (guard_add (Path r)) entry; r])
      by (intros; unfold left_on; by rewrite String.eqb_refl, Hr).
    rewrite Hlast. split.
    + intros Hno. f_equal. by apply left_on_no_add.
    + intros front a between -> Ha Hpath Hno Hnp. f_equal.
      unfold standing. rewrite foldl_app. simpl.
      apply left_on_keeps_add; [done..|].
      unfold left_on. by rewrite Hpath, String.eqb_refl, Ha.
  - intros before a later -> Ha Hun.
    rewrite Hstanding, standing_last by done.
    unfold left_on. by rewrite String.eqb_refl, Ha.
Qed.

(** The theorem at work: a [remove] with no [add] before it gets the
    virtual [add] in front, and a [remove] after an [add] keeps that
    [add]. *)
Lemma CompactPatches_normal_form_witness :
  Operations (CompactPatches [mkOp "remove" "/global/old" JNull;
                              mkOp "add" "/global/new" (JNum 1);
                              mkOp "remove" "/global/new" JNull])
  = [mkOp "add" "/global/new" (JNum 1); mkOp "remove" "/global/new" JNull;
     guard_add "/global/old"; mkOp "remove" "/global/old" JNull]
  /\ filter (fun o => Path o = "/global/old")
       (Operations (CompactPatches [mkOp "remove" "/global/old" JNull;
                                    mkOp "add" "/global/new" (JNum 1);
                                    mkOp "remove" "/global/new" JNull]))
     = [guard_add "/global/old"; mkOp "remove" "/global/old" JNull].
Proof.
  split; [vm_compute; reflexivity|].
  refine (proj1 (proj1 (proj2 (proj2 (proj2 (proj2 (proj2 (proj2
           (CompactPatches_normal_form
              [mkOp "remove" "/global/old" JNull;
               mkOp "add" "/global/new" (JNum 1);
               mkOp "remove" "/global/new" JNull])))))))
           [] (mkOp "remove" "/global/old" JNull)
           [mkOp "add" "/global/new" (JNum 1);
            mkOp "remove" "/global/new" JNull]
           eq_refl eq_refl _) _).
  - intros o Ho. apply elem_of_cons in Ho as [->|Ho];
      [|apply list_elem_of_singleton in Ho as ->];
      (split; [discriminate|intros _; reflexivity]).
  - intros o Ho. by apply elem_of_nil in Ho.
Defined.



End CompactTheorems.

(** ** ValidateHookValuesPatch *)

Section Validate.
Import GoStrings Patch PatchSpec.

Lemma validate_op_rejected acceptableKey op :
  validate_op acceptableKey op <> None <-> rejected acceptableKey op.
Proof.
  unfold validate_op, rejected, first_segment, acceptable_segment.
  destruct (String.eqb_spec (Op op) "replace") as [Hrep|Hrep].
  { split; [by left|intros _; discriminate]. }
  destruct (Split (Path op) "/") as [|p0 [|segment parts]] eqn:Hsplit; simpl.
  - split; [done|]. intros [?|(seg & ? & _)]; done.
  - split; [done|]. intros [?|(seg & ? & _)]; done.
  - assert (Hiff : forall b : bool,
               (~ acceptable_segment acceptableKey segment <-> b = false) ->
               (if b then None
                else Some (UnacceptablePath segment acceptableKey op)) <> None
               <-> (Op op = "replace"
                    \/ exists seg, Some segment = Some seg
                         /\ ~ acceptable_segment acceptableKey seg)).
    { intros b Hb. split.
      - intros Hne. right. exists segment. split; [done|].
        apply Hb. by destruct b.
      - intros [?|(seg & [= <-] & Hacc)]; [done|].
        apply Hb in Hacc as ->. discriminate. }
    unfold acceptable_segment in Hiff.
    destruct (HasSuffix segment "Enabled") eqn:Hsuf;
      destruct (String.eqb_spec acceptableKey GlobalValuesKey) as [Hg|Hg];
      destruct (String.eqb_spec segment acceptableKey) as [Hs|Hs]; simpl.
    all: first [ apply (Hiff true) | apply (Hiff false) ].
    all: split; [try done; intros Hn; exfalso; apply Hn; tauto
                | try done; intros _ [?|[? ?]]; congruence].
Qed.

Lemma validate_ops_rejected ops acceptableKey :
  validate_ops ops acceptableKey <> None
  <-> exists op, op ∈ ops /\ rejected acceptableKey op.
Proof.
  induction ops as [|op ops IH]; simpl.
  - split; [done|]. intros (op & Hop & _). by apply elem_of_nil in Hop.
  - destruct (validate_op acceptableKey op) as [e|] eqn:Hv.
    + split; [|done]. intros _. exists op. split; [apply list_elem_of_here|].
      apply validate_op_rejected. by rewrite Hv.
    + rewrite IH. split.
      * intros (op' & Hin & Hrej). exists op'.
        split; [by apply list_elem_of_further|done].
      * intros (op' & Hin & Hrej).
        apply elem_of_cons in Hin as [->|Hin]; [|by exists op'].
        apply validate_op_rejected in Hrej. by rewrite Hv in Hrej.
Qed.

(** C6.  ValidateHookValuesPatch returns an error exactly when the patch
    has a [replace] operation or an operation whose first path segment is
    neither the acceptable key nor, for the global section, a key that
    ends in [Enabled]; so a patch of [add] and [remove] operations under
    the acceptable section is valid.  The first segment of a path is what
    follows its first ["/"]. *)
Theorem ValidateHookValuesPatch_error_iff (valuesPatch : ValuesPatch)
    (acceptableKey : string) :
  (ValidateHookValuesPatch valuesPatch acceptableKey <> None
   <-> exists op, op ∈ Operations valuesPatch /\ rejected acceptableKey op)
  /\ ((forall op, op ∈ Operations valuesPatch ->
         (Op op = "add" \/ Op op = "remove")
         /\ first_segment (Path op) = Some acceptableKey) ->
      ValidateHookValuesPatch valuesPatch acceptableKey = None).
Proof.
  unfold ValidateHookValuesPatch. split; [apply validate_ops_rejected|].
  intros Hall.
  destruct (validate_ops (Operations valuesPatch) acceptableKey) eqn:Hv;
    [|done].
  exfalso.
  assert (validate_ops (Operations valuesPatch) acceptableKey <> None) as Hne
    by (by rewrite Hv).
  apply validate_ops_rejected in Hne as (op & Hin & [Hrep|(seg & Hseg & Hacc)]).
  - destruct (Hall op Hin) as [[Hop|Hop] _]; congruence.
  - destruct (Hall op Hin) as [_ Hfirst].
    apply Hacc. left. congruence.
Qed.

(** The theorem at work on a patch of a module hook. *)
Lemma ValidateHookValuesPatch_error_iff_witness :
  ValidateHookValuesPatch
    {| Operations := [mkOp "add" "/myModule/replicas" (JNum 2);
                      mkOp "remove" "/myModule/old" JNull] |}
    "myModule" = None.
Proof.
  apply (proj2 (ValidateHookValuesPatch_error_iff _ "myModule")).
  intros op Hop. simpl in Hop.
  apply elem_of_cons in Hop as [->|Hop];
    [|apply list_elem_of_singleton in Hop as ->];
    (split; [|reflexivity]); [by left|by right].
Defined.

End Validate.

(** ** The resources monitor *)

Section MonitorFacts.
Import Monitor MonitorSpec.

Lemma absent_loop_when_gets_succeed r ms res :
  (forall m, m ∈ ms -> m ∈ manifests r) -> gets_succeed r ->
  absent_loop r ms res = Returns (Ok (res ++ filter (list_is_empty r) ms)).
Proof.
  intros Hsub Hok. revert res.
  induction ms as [|m ms IH]; intros res; simpl.
  - by rewrite filter_nil, app_nil_r.
  - destruct (Hok m) as (apiRes & items & err & Hapi & Hlist & Hget);
      [apply Hsub, list_elem_of_here|].
    assert (Hlisted : listed r m = Some (Some items))
      by (unfold listed; by rewrite Hapi, Hlist).
    unfold absent_body. rewrite Hapi, Hlist, Hget.
    assert (Hrest : forall m', m' ∈ ms -> m' ∈ manifests r)
      by (intros m' Hm'; by apply Hsub, list_elem_of_further).
    destruct items as [|x items]; simpl.
    + rewrite IH by done. rewrite filter_cons_True by done.
      by rewrite <- app_assoc.
    + rewrite IH by done.
      rewrite filter_cons_False; [done|].
      unfold list_is_empty. rewrite Hlisted. congruence.
Qed.

(** When the name lookups succeed, a manifest is absent exactly when its
    list is empty, and a tick that is not paused calls the callback once,
    with the module name, the absent manifests and the default
    namespace, exactly when some manifest is absent. *)
Lemma tick_when_gets_succeed r :
  gets_succeed r -> paused r = false -> hasAbsentCb r = true ->
  AbsentResources r = Returns (Ok (filter (list_is_empty r) (manifests r)))
  /\ tick r = Returns
       (match filter (list_is_empty r) (manifests r) with
        | [] => []
        | absent => [mkAbsentCall (moduleName r) absent (defaultNamespace r)]
        end).
Proof.
  intros Hok Hp Hcb.
  assert (Habs : AbsentResources r
                 = Returns (Ok (filter (list_is_empty r) (manifests r))))
    by (unfold AbsentResources; by rewrite absent_loop_when_gets_succeed).
  split; [done|]. unfold tick. rewrite Hp, Habs, Hcb.
  by destruct (filter (list_is_empty r) (manifests r)).
Qed.

(** C2 fails on the code.  On a tick that is not paused, a manifest whose
    list is empty is not classified absent when the lookup of the same
    object by name answers "not found": the error of that lookup makes
    AbsentResources return an error and no absent list, and the tick
    calls no callback. *)
Theorem absent_object_is_not_reported :
  paused drifted_monitor = false
  /\ listed drifted_monitor backend = Some (Some [])
  /\ AbsentResources drifted_monitor
     = Returns (Err ("Fetch list for helm resource default/Deployment/backend: "
                     +:+ "deployments.apps backend not found"))
  /\ tick drifted_monitor = Returns [].
Proof. repeat split. Qed.

End MonitorFacts.

(** ** The module engine *)

Section MonadFacts.
Context {S : Type}.

Lemma bind_Ok {A B} (c : M S A) (k : A -> M S B) s s' b :
  bind c k s = (s', Ok b) ->
  exists s1 a, c s = (s1, Ok a) /\ k a s1 = (s', Ok b).
Proof.
  unfold bind. destruct (c s) as [s1 [a|e]]; [|done].
  intros H. by exists s1, a.
Qed.

Lemma bind_eq {A B} (c : M S A) (k : A -> M S B) s s1 a :
  c s = (s1, Ok a) -> bind c k s = k a s1.
Proof. unfold bind. by intros ->. Qed.

Lemma bind_Err {A B} (c : M S A) (k : A -> M S B) s s1 e :
  c s = (s1, Err e) -> bind c k s = (s1, Err e).
Proof. unfold bind. by intros ->. Qed.

End MonadFacts.

Section EngineFacts.
Import GoStrings Engine EngineSpec.
Context {W : Type} (ext : Collaborators W).

Implicit Types (s : State W) (ev : Event) (l : list Event).

Lemma act_Ok ev f s s' :
  act ev f s = (s', Ok tt) ->
  exists w', f (world s) = (w', None)
             /\ s' = {| world := w'; self := self s; trace := trace s ++ [ev] |}.
Proof.
  unfold act. destruct (f (world s)) as [w' [e|]]; simpl; [done|].
  intros [= <-]. by exists w'.
Qed.

Lemma run_hooks_Ok binding hooks s s' :
  run_hooks ext binding hooks s = (s', Ok tt) ->
  self s' = self s
  /\ exists l, trace s' = trace s ++ l /\ hook_calls binding hooks l.
Proof.
  revert s. induction hooks as [|h hooks IH]; intros s; simpl.
  - intros [= <-]. split; [done|]. exists []. rewrite app_nil_r.
    split; [done|constructor].
  - intros H. apply bind_Ok in H as (s1 & bc & Hbc & H).
    injection Hbc as <- <-.
    apply bind_Ok in H as (s2 & [] & Hact & H).
    apply act_Ok in Hact as (w' & Hw & ->).
    apply IH in H as (Hself & l & Htr & Hl). simpl in *.
    split; [done|]. eexists (_ :: l). rewrite Htr, <- app_assoc.
    split; [done|]. constructor; [by eexists|done].
Qed.

Lemma runHooksByBinding_Ok binding s s' :
  runHooksByBinding ext binding s = (s', Ok tt) ->
  self s' = self s
  /\ exists l, trace s' = trace s ++ l
       /\ hook_calls binding
            (GetModuleHooksInOrder ext (world s) (Name (self s)) binding) l.
Proof.
  unfold runHooksByBinding. intros H.
  apply bind_Ok in H as (s1 & hooks & Hh & H). injection Hh as <- <-.
  by apply run_hooks_Ok.
Qed.

Lemma cleanup_Ok s s' :
  cleanup ext s = (s', Ok tt) ->
  self s' = self s
  /\ exists l, trace s' = trace s ++ l /\ cleanup_calls (Name (self s)) l
       /\ (l = [] <-> Stat ext (world s) (chartPath ext s) = StatNotExist).
Proof.
  unfold cleanup. intros H.
  apply bind_Ok in H as (s1 & [chartExists err] & Hc & H).
  injection Hc as <- Hc. unfold checkHelmChart in Hc. fold (chartPath ext s) in Hc.
  destruct (Stat ext (world s) (chartPath ext s)) eqn:Hstat;
    injection Hc as <- <-; simpl in H.
  - injection H as <-. split; [done|]. exists []. rewrite app_nil_r.
    split; [done|]. split; [by left|done].
  - apply bind_Ok in H as (s1 & rel & Hrel & H). injection Hrel as <- <-.
    apply bind_Ok in H as (s2 & [] & Hact & H).
    apply act_Ok in Hact as (w1 & Hw1 & ->).
    apply act_Ok in H as (w2 & Hw2 & ->). simpl.
    split; [done|]. eexists. rewrite <- app_assoc. split; [done|].
    split; [by right|]. split; done.
  - apply bind_Ok in H as (s1 & rel & Hrel & H). injection Hrel as <- <-.
    apply bind_Ok in H as (s2 & [] & Hact & H).
    apply act_Ok in Hact as (w1 & Hw1 & ->).
    apply act_Ok in H as (w2 & Hw2 & ->). simpl.
    split; [done|]. eexists. rewrite <- app_assoc. split; [done|].
    split; [by right|]. split; done.
Qed.

Lemma sample_checksum_Ok s s' checksum :
  sample_checksum ext s = (s', Ok checksum) ->
  values_checksum ext (world s) (self s) = Ok checksum
  /\ s' = {| world := world s; self := self s;
             trace := trace s ++ [SampleValuesChecksum (Ok checksum)] |}.
Proof. unfold sample_checksum. intros [= <- ->]. done. Qed.

Lemma runHooksByBindingAndCheckValues_Ok binding s s' valuesChanged :
  runHooksByBindingAndCheckValues ext binding s = (s', Ok valuesChanged) ->
  self s' = self s
  /\ exists before after l,
       trace s' = trace s ++ [SampleValuesChecksum (Ok before)] ++ l
                          ++ [SampleValuesChecksum (Ok after)]
       /\ hook_calls binding
            (GetModuleHooksInOrder ext (world s) (Name (self s)) binding) l
       /\ values_checksum ext (world s) (self s) = Ok before
       /\ values_checksum ext (world s') (self s') = Ok after
       /\ valuesChanged = negb (String.eqb after before).
Proof.
  unfold runHooksByBindingAndCheckValues. intros H.
  apply bind_Ok in H as (s0 & hooks & Hh & H). injection Hh as <- <-.
  apply bind_Ok in H as (s1 & before & Hb & H).
  apply sample_checksum_Ok in Hb as (Hbefore & ->).
  apply bind_Ok in H as (s2 & [] & Hrun & H).
  apply run_hooks_Ok in Hrun as (Hself & l & Htr & Hl). simpl in *.
  apply bind_Ok in H as (s3 & after & Ha & H).
  apply sample_checksum_Ok in Ha as (Hafter & ->).
  assert (s' = {| world := world s2; self := self s2;
                  trace := trace s2 ++ [SampleValuesChecksum (Ok after)] |}
          /\ valuesChanged = negb (String.eqb after before)) as [-> ->].
  { destruct (String.eqb after before); simpl in H; by injection H as <- <-. }
  simpl. split; [done|]. exists before, after, l.
  rewrite Htr, <- !app_assoc. done.
Qed.

Lemma runHelmInstall_Ok s s' :
  runHelmInstall ext s = (s', Ok tt) ->
  (Stat ext (world s) (chartPath ext s) = StatNotExist /\ s' = s)
  \/ (Stat ext (world s) (chartPath ext s) <> StatNotExist
      /\ helm_step_done ext s s').
Proof.
  unfold runHelmInstall. intros H.
  apply bind_Ok in H as (s0 & [chartExists err] & Hc & H).
  injection Hc as <- Hc. unfold checkHelmChart in Hc.
  fold (chartPath ext s) in Hc. cbv beta iota in H.
  assert (Hchart :
    Stat ext (world s) (chartPath ext s) = StatNotExist
      /\ negb chartExists && bool_decide (err <> None) = true
    \/ Stat ext (world s) (chartPath ext s) <> StatNotExist
       /\ negb chartExists && bool_decide (err <> None) = false).
  { destruct (Stat ext (world s) (chartPath ext s));
      injection Hc as <- <-; [left|right..]; done. }
  destruct Hchart as [[Hstat Hb]|[Hstat Hb]]; rewrite Hb in H.
  { left. by injection H as <-. }
  right. split; [done|]. clear Hc.
  apply bind_Ok in H as (s0 & m & Hm & H). injection Hm as <- <-.
  apply bind_Ok in H as (s1 & valuesPath & Hprep & H).
  unfold prepareValuesYamlFile in Hprep.
  apply bind_Ok in Hprep as (s0 & data & Hdata & Hprep).
  injection Hdata as <- Hdata.
  unfold dump_to_tmp in Hprep.
  apply bind_Ok in Hprep as (s0 & uuid & Huuid & Hprep).
  unfold draw in Huuid. destruct (NewUUID ext (world s)) as [w1 u] eqn:Hu.
  injection Huuid as <- <-.
  apply bind_Ok in Hprep as (s0 & path & Hpath & Hprep).
  injection Hpath as <- <-. simpl in Hprep.
  apply bind_Ok in Hprep as (s0 & [] & Hact & Hprep).
  apply act_Ok in Hact as (w2 & Hw2 & ->). simpl in Hw2.
  injection Hprep as <- <-.
  apply bind_Ok in H as (s0 & rendered & Hr & H). injection Hr as <- <-.
  simpl in H.
  apply bind_Ok in H as (s0 & [] & Hlog & H). injection Hlog as <-.
  apply bind_Ok in H as (s1 & renderedManifests & Hrm & H).
  injection Hrm as <- Hrm. simpl in Hrm.
  apply bind_Ok in H as (s1 & manifests & Hman & H).
  injection Hman as <- Hman.
  apply bind_Ok in H as (s1 & [] & Hset & H). injection Hset as <-.
  apply bind_Ok in H as (s1 & runUpgrade & Hshould & H).
  injection Hshould as <- _. simpl in H.
  exists data, w1, u, w2, renderedManifests, manifests.
  rewrite Hrm in H.
  destruct runUpgrade; simpl in H.
  - apply bind_Ok in H as (s1 & [] & Hact & H).
    apply act_Ok in Hact as (w3 & Hw3 & ->).
    injection H as <-. simpl.
    eexists. split_and!; try done.
    + by rewrite ?app_nil_r, <- ?app_assoc.
    + right. by right.
  - apply bind_Ok in H as (s1 & hasMonitor & Hhas & H).
    injection Hhas as <- <-.
    destruct (HasMonitor ext w2 (Name (self s))); simpl in H;
      injection H as <-; simpl.
    + exists []. split_and!; try done.
      * by rewrite ?app_nil_r, <- ?app_assoc.
      * by left.
    + eexists. split_and!; try done.
      * by rewrite ?app_nil_r, <- ?app_assoc.
      * right. by left.
Qed.

Lemma helm_step_calls s s' :
  runHelmInstall ext s = (s', Ok tt) ->
  Name (self s') = Name (self s) /\ Path (self s') = Path (self s)
  /\ exists l, trace s' = trace s ++ l /\ Forall is_helm_call l.
Proof.
  intros [[_ ->]|[_ Hdone]]%runHelmInstall_Ok.
  - split; [done|]. split; [done|]. exists []. by rewrite app_nil_r.
  - destruct Hdone as (data & w1 & uuid & w2 & rendered & manifests & l
                       & _ & _ & _ & _ & _ & Hself & Htr & Hl).
    rewrite Hself. split; [done|]. split; [done|].
    eexists. split; [exact Htr|].
    apply Forall_app. split; [by repeat constructor|].
    destruct Hl as [->|[->| ->]]; by repeat constructor.
Qed.

Lemma cleanup_phase_Ok s s' :
  cleanup ext s = (s', Ok tt) ->
  self s' = self s /\ trace s' = trace s ++ cleanup_phase ext s.
Proof.
  unfold cleanup, cleanup_phase. intros H.
  apply bind_Ok in H as (s1 & [chartExists err] & Hc & H).
  injection Hc as <- Hc. unfold checkHelmChart in Hc.
  fold (chartPath ext s) in Hc.
  destruct (Stat ext (world s) (chartPath ext s)) eqn:Hstat;
    injection Hc as <- <-; simpl in H.
  - injection H as <-. by rewrite app_nil_r.
  - apply bind_Ok in H as (s1 & rel & Hrel & H). injection Hrel as <- <-.
    apply bind_Ok in H as (s2 & [] & Hact & H).
    apply act_Ok in Hact as (w1 & Hw1 & ->).
    apply act_Ok in H as (w2 & Hw2 & ->). simpl.
    by rewrite <- app_assoc.
  - apply bind_Ok in H as (s1 & rel & Hrel & H). injection Hrel as <- <-.
    apply bind_Ok in H as (s2 & [] & Hact & H).
    apply act_Ok in Hact as (w1 & Hw1 & ->).
    apply act_Ok in H as (w2 & Hw2 & ->). simpl.
    by rewrite <- app_assoc.
Qed.

Lemma helm_phase_Ok s s' :
  runHelmInstall ext s = (s', Ok tt) ->
  exists l, trace s' = trace s ++ l /\ helm_phase ext s l.
Proof.
  intros H. destruct (runHelmInstall_Ok _ _ H) as [[Hno ->]|[Hchart _]].
  { exists []. rewrite app_nil_r. split; [done|].
    unfold helm_phase. by rewrite Hno. }
  assert (Hphase : forall l,
    (exists data w1 uuid w2 rendered manifests decision,
        let m := self s in
        let valuesPath :=
          Join ext (TempDir ext)
               (SafeName ext m +:+ (".module-values.yaml-" +:+ uuid)) in
        let checksum := CalculateStringsChecksum ext rendered in
        YamlMarshal ext (ModuleValues ext (world s) m) = Ok data
        /\ NewUUID ext (world s) = (w1, uuid)
        /\ WriteFile ext valuesPath data w1 = (w2, None)
        /\ Render ext w2 (Path m) [valuesPath] [] (AppNamespace ext)
           = Ok rendered
        /\ GetManifestListFromYamlDocuments ext rendered = Ok manifests
        /\ ShouldRunHelmUpgrade ext (Name m) checksum manifests w2
           = Ok decision
        /\ l = [CallWriteFile valuesPath data;
                CallRender (Path m) [valuesPath] [] (AppNamespace ext)
                           (Ok rendered)]
               ++ decided_calls ext m valuesPath checksum manifests decision
                    (HasMonitor ext w2 (Name m))) ->
    helm_phase ext s l).
  { intros l Hl. unfold helm_phase.
    by destruct (Stat ext (world s) (chartPath ext s)). }
  revert H. unfold runHelmInstall. intros H.
  apply bind_Ok in H as (s0 & [chartExists err] & Hc & H).
  injection Hc as <- Hc. unfold checkHelmChart in Hc.
  fold (chartPath ext s) in Hc. cbv beta iota in H.
  assert (Hb : negb chartExists && bool_decide (err <> None) = false).
  { destruct (Stat ext (world s) (chartPath ext s));
      injection Hc as <- <-; done. }
  rewrite Hb in H. clear Hc Hb.
  apply bind_Ok in H as (s0 & m & Hm & H). injection Hm as <- <-.
  apply bind_Ok in H as (s1 & valuesPath & Hprep & H).
  unfold prepareValuesYamlFile in Hprep.
  apply bind_Ok in Hprep as (s0 & data & Hdata & Hprep).
  injection Hdata as <- Hdata.
  unfold dump_to_tmp in Hprep.
  apply bind_Ok in Hprep as (s0 & uuid & Huuid & Hprep).
  unfold draw in Huuid. destruct (NewUUID ext (world s)) as [w1 u] eqn:Hu.
  injection Huuid as <- <-.
  apply bind_Ok in Hprep as (s0 & path & Hpath & Hprep).
  injection Hpath as <- <-. simpl in Hprep.
  apply bind_Ok in Hprep as (s0 & [] & Hact & Hprep).
  apply act_Ok in Hact as (w2 & Hw2 & ->). simpl in Hw2.
  injection Hprep as <- <-.
  apply bind_Ok in H as (s0 & rendered & Hr & H). injection Hr as <- <-.
  simpl in H.
  apply bind_Ok in H as (s0 & [] & Hlog & H). injection Hlog as <-.
  apply bind_Ok in H as (s1 & renderedManifests & Hrm & H).
  injection Hrm as <- Hrm. simpl in Hrm.
  apply bind_Ok in H as (s1 & manifests & Hman & H).
  injection Hman as <- Hman.
  apply bind_Ok in H as (s1 & [] & Hset & H). injection Hset as <-.
  apply bind_Ok in H as (s1 & runUpgrade & Hshould & H).
  injection Hshould as <- Hshould. simpl in H, Hshould.
  rewrite Hrm in H.
  eexists. split; [|apply Hphase;
                    exists data, w1, u, w2, renderedManifests, manifests,
                      runUpgrade; split_and!; [done..|reflexivity]].
  destruct runUpgrade; simpl in H.
  - apply bind_Ok in H as (s1 & [] & Hact & H).
    apply act_Ok in Hact as (w3 & Hw3 & ->).
    injection H as <-. simpl. by rewrite <- ?app_assoc.
  - apply bind_Ok in H as (s1 & hasMonitor & Hhas & H).
    injection Hhas as <- <-. simpl.
    destruct (HasMonitor ext w2 (Name (self s))); simpl in H;
      injection H as <-; simpl; by rewrite <- ?app_assoc.
Qed.

(** C4, as the code has it.  A successful Module.Run is made of these
    steps in this order, each from the state the one before has left:
    the clean-up of failed Helm revisions, which deletes them unless the
    module has no Chart.yaml; then the stop of the module's resources
    monitor; then with [onStartup] the OnStartup hooks of the module
    followed by [afterStartupCb]; then the BeforeHelm hooks of the
    module; then the Helm step, which without a Chart.yaml does nothing
    and with it writes the values file, renders the chart and follows
    the decision of ShouldRunHelmUpgrade; then the AfterHelm hooks of the
    module between two samples of the values checksum.  The calls recorded
    are those of the steps in that order, the hooks of each phase being
    those GetModuleHooksInOrder gives when the phase starts; and Run
    returns whether the second sample differs from the first. *)
Theorem Run_order (onStartup : bool) (afterStartupCb : W -> W * option error)
    s s' (valuesChanged : bool) :
  Run ext onStartup afterStartupCb s = (s', Ok valuesChanged) ->
  exists s1 s3 s4 s5 startup beforeHelm helm afterHelm before after,
    let name := Name (self s) in
    let s2 := stopped ext s1 in
    (cleanup ext s = (s1, Ok tt)
     /\ (if onStartup
         then runHooksByBinding ext OnStartup ;;
              act CallAfterStartupCb afterStartupCb
         else ret tt) s2 = (s3, Ok tt)
     /\ runHooksByBinding ext BeforeHelm s3 = (s4, Ok tt)
     /\ runHelmInstall ext s4 = (s5, Ok tt)
     /\ runHooksByBindingAndCheckValues ext AfterHelm s5
        = (s', Ok valuesChanged))
    /\ (trace s1 = trace s ++ cleanup_phase ext s
        /\ trace s3 = trace s2 ++ startup
        /\ trace s4 = trace s3 ++ beforeHelm
        /\ trace s5 = trace s4 ++ helm
        /\ trace s' = trace s5 ++ [SampleValuesChecksum (Ok before)]
                      ++ afterHelm ++ [SampleValuesChecksum (Ok after)])
    /\ trace s' = trace s ++ cleanup_phase ext s ++ [CallStopMonitor name]
                  ++ startup ++ beforeHelm ++ helm
                  ++ [SampleValuesChecksum (Ok before)] ++ afterHelm
                  ++ [SampleValuesChecksum (Ok after)]
    /\ startup_calls onStartup
         (GetModuleHooksInOrder ext (world s2) name OnStartup) startup
    /\ hook_calls BeforeHelm
         (GetModuleHooksInOrder ext (world s3) name BeforeHelm) beforeHelm
    /\ helm_phase ext s4 helm
    /\ hook_calls AfterHelm
         (GetModuleHooksInOrder ext (world s5) name AfterHelm) afterHelm
    /\ values_checksum ext (world s5) (self s5) = Ok before
    /\ values_checksum ext (world s') (self s') = Ok after
    /\ valuesChanged = negb (String.eqb after before).
Proof.
  unfold Run. intros H.
  apply bind_Ok in H as (s1 & [] & Hcleanup & H).
  destruct (cleanup_phase_Ok _ _ Hcleanup) as (Hself1 & Htr1).
  apply bind_Ok in H as (s0 & name & Hname & H). injection Hname as <- <-.
  apply bind_Ok in H as (s2 & [] & Hstop & H). injection Hstop as <-.
  change (act_ (CallStopMonitor (Name (self s1)))
               (StopMonitor ext (Name (self s1))) s1).1
    with (stopped ext s1) in H.
  apply bind_Ok in H as (s3 & [] & Hstartup & H).
  assert (Hs3 : self s3 = self s
                /\ exists ls, trace s3 = trace (stopped ext s1) ++ ls
                    /\ startup_calls onStartup
                         (GetModuleHooksInOrder ext (world (stopped ext s1))
                                                (Name (self s)) OnStartup)
                         ls).
  { destruct onStartup; simpl in Hstartup.
    - apply bind_Ok in Hstartup as (s4 & [] & Hhooks & Hcb).
      apply runHooksByBinding_Ok in Hhooks as (Hself4 & l0 & Htr4 & Hl0).
      apply act_Ok in Hcb as (w' & _ & ->). simpl in *.
      split; [congruence|]. exists (l0 ++ [CallAfterStartupCb]).
      rewrite Htr4, <- !app_assoc. split; [done|].
      exists l0. split; [done|]. by rewrite <- Hself1.
    - injection Hstartup as <-. simpl. split; [done|]. exists [].
      by rewrite app_nil_r. }
  destruct Hs3 as (Hself3 & ls & Htr3 & Hls).
  apply bind_Ok in H as (s4 & [] & Hbefore & H).
  destruct (runHooksByBinding_Ok _ _ _ Hbefore) as (Hself4 & lb & Htr4 & Hlb).
  apply bind_Ok in H as (s5 & [] & Hhelm & H).
  destruct (helm_phase_Ok _ _ Hhelm) as (lh & Htr5 & Hlh).
  destruct (helm_step_calls _ _ Hhelm) as (Hname5 & _).
  apply bind_Ok in H as (s6 & vc & Hafter & H). injection H as <- <-.
  destruct (runHooksByBindingAndCheckValues_Ok _ _ _ _ Hafter)
    as (Hself6 & before & after & la & Htr6 & Hla & Hb & Ha & ->).
  exists s1, s3, s4, s5, ls, lb, lh, la, before, after. simpl.
  split_and!; try done.
  - rewrite Htr6, Htr5, Htr4, Htr3. unfold stopped. simpl.
    rewrite Htr1, Hself1, <- !app_assoc. done.
  - by rewrite <- Hself3.
  - by rewrite <- Hself3, <- Hself4, <- Hname5.
Qed.

Lemma chartPath_self s1 s2 : self s1 = self s2 -> chartPath ext s1 = chartPath ext s2.
Proof. unfold chartPath. by intros ->. Qed.

(** C8.  For a module with a chart, after Module.Run has returned
    success the module's LastReleaseManifests is the manifest list
    parsed from the rendering of the chart with the values file written
    from the module's merged values in the Helm step of that run,
    whether the release was then upgraded or left alone. *)
Theorem Run_records_rendered_manifests (onStartup : bool)
    (afterStartupCb : W -> W * option error) s s' (valuesChanged : bool) :
  (forall w, Stat ext w (chartPath ext s) <> StatNotExist) ->
  Run ext onStartup afterStartupCb s = (s', Ok valuesChanged) ->
  exists s1 s2,
    self s1 = self s
    /\ runHelmInstall ext s1 = (s2, Ok tt)
    /\ helm_step_done ext s1 s2
    /\ self s' = self s2
    /\ exists rendered valuesPath,
         CallRender (Path (self s)) [valuesPath] [] (AppNamespace ext)
                    (Ok rendered) ∈ trace s'
         /\ GetManifestListFromYamlDocuments ext rendered
            = Ok (LastReleaseManifests (self s')).
Proof.
  intros Hchart. unfold Run. intros H.
  apply bind_Ok in H as (s1 & [] & Hcleanup & H).
  apply cleanup_Ok in Hcleanup as (Hself1 & _).
  apply bind_Ok in H as (s0 & name & Hname & H). injection Hname as <- <-.
  apply bind_Ok in H as (s2 & [] & Hstop & H). injection Hstop as <-.
  apply bind_Ok in H as (s3 & [] & Hstartup & H).
  assert (Hself3 : self s3 = self s).
  { destruct onStartup; simpl in Hstartup.
    - apply bind_Ok in Hstartup as (s4 & [] & Hhooks & Hcb).
      apply runHooksByBinding_Ok in Hhooks as (Hself4 & _).
      apply act_Ok in Hcb as (w' & _ & ->). simpl in *. congruence.
    - by injection Hstartup as <-. }
  apply bind_Ok in H as (s4 & [] & Hbefore & H).
  apply runHooksByBinding_Ok in Hbefore as (Hself4 & _).
  apply bind_Ok in H as (s5 & [] & Hhelm & H).
  apply bind_Ok in H as (s6 & vc & Hafter & H). injection H as <- <-.
  apply runHooksByBindingAndCheckValues_Ok in Hafter
    as (Hself6 & before & after & la & Htr6 & _).
  assert (Hself : self s4 = self s) by congruence.
  exists s4, s5. split; [done|]. split; [done|].
  destruct (runHelmInstall_Ok _ _ Hhelm) as [[Hno _]|[_ Hdone]].
  { exfalso. apply (Hchart (world s4)).
    by rewrite <- (chartPath_self s4 s Hself). }
  split; [done|]. split; [done|].
  destruct Hdone as (data & w1 & uuid & w2 & rendered & manifests & l
                     & _ & _ & _ & _ & Hparse & Hself5 & Htr5 & _).
  exists rendered. eexists. split.
  - rewrite Htr6, Htr5, Hself.
    apply elem_of_app. left. apply elem_of_app. right.
    apply list_elem_of_further, list_elem_of_here.
  - by rewrite Hself6, Hself5.
Qed.

(** *** ShouldRunHelmUpgrade *)

(** A disjunction of reasons that the answers of the queries rule
    out. *)
Ltac refute_reasons :=
  let H := fresh in
  intros H;
  repeat match goal with
         | H : _ /\ _ |- _ => destruct H
         | H : _ \/ _ |- _ => destruct H
         | H : ex _ |- _ => destruct H
         end;
  simplify_eq;
  repeat match goal with
         | H : forall str, JStr ?s = JStr str -> str = _ |- _ =>
             specialize (H s eq_refl)
         end;
  first [done|congruence].

Section UpgradeReasons.
Variables (w : W) (releaseName checksum : string)
          (manifests : list Manifest).

(** What the stored checksum makes of the comparison. *)
Lemma stored_checksum_cases (recorded : JValue) :
  (match recorded with
   | JStr recordedChecksumStr =>
       negb (String.eqb recordedChecksumStr checksum)
   | _ => false
   end = true
   <-> exists str, recorded = JStr str /\ str <> checksum)
  /\ (match recorded with
      | JStr recordedChecksumStr =>
          negb (String.eqb recordedChecksumStr checksum)
      | _ => false
      end = false
      <-> forall str, recorded = JStr str -> str = checksum).
Proof.
  destruct recorded as [| | |str| |];
    try (split; split;
         [done|by intros (? & ? & _)|by intros _ ? ?|done]).
  destruct (String.eqb_spec str checksum) as [->|Hne]; simpl.
  - split; split; [done| |by intros _ ? [= <-]|done].
    by intros (? & [= <-] & ?).
  - split; split; [by exists str|done|done|].
    intros H. by destruct Hne; apply H.
Qed.

(** C1, as the code has it.  ShouldRunHelmUpgrade asks in turn whether
    the release exists, for its last status, for its stored values and
    for the absent manifests, and stops at the first answer that
    decides or fails.  It returns true exactly when no release exists;
    or the release exists and its last status is FAILED; or, the
    status not being FAILED, the stored values have no checksum key or
    the stored checksum is a string that differs from the fresh
    checksum; or, the stored checksum not being such a string, a
    rendered manifest is absent.  It returns false exactly when the
    four queries have answered and none of this holds, and the error
    [e] exactly when [e] is the error of the first query that fails
    before a reason is found.  When the four queries all answer, the
    order does not matter: it returns true exactly when one of the
    five reasons holds. *)
Theorem ShouldRunHelmUpgrade_iff :
  (ShouldRunHelmUpgrade ext releaseName checksum manifests w = Ok true
   <-> upgrade_required ext w releaseName checksum manifests)
  /\ (ShouldRunHelmUpgrade ext releaseName checksum manifests w = Ok false
      <-> upgrade_not_required ext w releaseName checksum manifests)
  /\ (forall e,
        ShouldRunHelmUpgrade ext releaseName checksum manifests w = Err e
        <-> query_failed ext w releaseName checksum manifests e)
  /\ (queries_answer ext w releaseName manifests ->
      (ShouldRunHelmUpgrade ext releaseName checksum manifests w = Ok true
       <-> some_reason ext w releaseName checksum manifests)).
Proof.
  unfold ShouldRunHelmUpgrade, upgrade_required, upgrade_not_required,
    query_failed, queries_answer, some_reason, release_deployed,
    stored_checksum_kept, no_release, last_release_failed,
    no_stored_checksum, stored_string_differs, some_manifest_absent.
  destruct (IsReleaseExists ext w releaseName) as [[|]|e0] eqn:Hex; simpl.
  2:{ split_and!; [split; [by left|done] | split; [done|refute_reasons] |
                   intros e; split; [done|refute_reasons] |
                   intros _; split; [by left|done]]. }
  2:{ split_and!; [split; [done|refute_reasons] |
                   split; [done|refute_reasons] |
                   intros e; split; [intros [= <-]; by left|refute_reasons] |
                   refute_reasons]. }
  destruct (LastReleaseStatus ext w releaseName)
    as [[revision status]|e0] eqn:Hst.
  2:{ split_and!; [split; [done|refute_reasons] |
                   split; [done|refute_reasons] |
                   intros e; split; [intros [= <-]; right; by left
                                    |refute_reasons] |
                   refute_reasons]. }
  destruct (String.eqb_spec status "FAILED") as [->|Hfailed].
  { split_and!; [| split; [done|refute_reasons] |
                 intros e; split; [done|refute_reasons] |].
    - split; [|done]. intros _. right. left. split; [done|].
      by exists revision.
    - intros _. split; [|done]. intros _. right. left. by exists revision. }
  assert (Hdeployed :
    Ok true = Ok true
    /\ exists revision0 status0 : string,
         Ok (revision, status) = Ok (revision0, status0)
         /\ status0 <> "FAILED")
    by (split; [done|]; by exists revision, status).
  destruct (GetReleaseValues ext w releaseName) as [releaseValues|e0] eqn:Hv.
  2:{ split_and!; [split; [done|refute_reasons] |
                   split; [done|refute_reasons] |
                   intros e; split; [intros [= <-]; right; right; by left
                                    |refute_reasons] |
                   refute_reasons]. }
  destruct (releaseValues !! checksum_key) as [recorded|] eqn:Hrec.
  2:{ split_and!; [| split; [done|refute_reasons] |
                   intros e; split; [done|refute_reasons] |].
      - split; [|done]. intros _. right. right. left.
        split; [done|]. by exists releaseValues.
      - intros _. split; [|done]. intros _. right. right. left.
        by exists releaseValues. }
  destruct (stored_checksum_cases recorded) as [Hdiffers Hkept].
  destruct (match recorded with
            | JStr recordedChecksumStr =>
                negb (String.eqb recordedChecksumStr checksum)
            | _ => false
            end).
  { destruct (proj1 Hdiffers eq_refl) as (str & -> & Hne).
    split_and!; [| split; [done|refute_reasons] |
                 intros e; split; [done|refute_reasons] |].
    - split; [|done]. intros _. right. right. right. left.
      split; [done|]. by exists releaseValues, str.
    - intros _. split; [|done]. intros _. right. right. right. left.
      by exists releaseValues, str. }
  pose proof (proj1 Hkept eq_refl) as Hsame. clear Hdiffers Hkept.
  assert (Hkeeps :
    exists releaseValues0 recorded0,
      Ok releaseValues = Ok releaseValues0
      /\ releaseValues0 !! checksum_key = Some recorded0
      /\ forall str, recorded0 = JStr str -> str = checksum)
    by (by exists releaseValues, recorded).
  destruct (GetAbsentResources ext w manifests (AppNamespace ext))
    as [absent|e0] eqn:Habs.
  2:{ split_and!; [split; [done|refute_reasons] |
                   split; [done|refute_reasons] |
                   intros e; split; [intros [= <-]; by repeat right
                                    |refute_reasons] |
                   refute_reasons]. }
  destruct absent as [|m absent]; simpl.
  - split_and!; [split; [done|refute_reasons] | by split |
                 intros e; split; [done|refute_reasons] |
                 intros _; split; [done|refute_reasons]].
  - split_and!; [| split; [done|refute_reasons] |
                 intros e; split; [done|refute_reasons] |].
    + split; [|done]. intros _. repeat right.
      split; [exact Hdeployed|]. split; [exact Hkeeps|].
      by exists (m :: absent).
    + intros _. split; [|done]. intros _. repeat right.
      by exists (m :: absent).
Qed.

End UpgradeReasons.

(** *** The enabled script *)

Lemma defer_result {A} (c : M (State W) unit) (body : M (State W) A) s :
  (defer c body s).2 = (body s).2.
Proof.
  unfold defer. destruct (body s) as [s1 r]. by destruct (c s1).
Qed.

Lemma bind_result {A B} (c : M (State W) A) (k : A -> M (State W) B) s s1 a :
  c s = (s1, Ok a) -> (bind c k s).2 = (k a s1).2.
Proof. intros H. by rewrite (bind_eq _ _ _ _ _ H). Qed.

Lemma checkIsEnabledByScript_unfold preceding s :
  checkIsEnabledByScript ext preceding s
  = match Stat ext (world s) (enabledScriptPath ext s) with
    | StatNotExist => (s, Ok true)
    | StatFailed e => (s, Err e)
    | StatInfo mode =>
        if negb (IsFileExecutable mode)
        then (s, Err "non-executable enable script")
        else run_enabled_script ext preceding (enabledScriptPath ext s) s
    end.
Proof.
  unfold checkIsEnabledByScript, enabledScriptPath.
  unfold bind at 1, ask at 1. unfold bind at 1, ask at 1. simpl.
  destruct (Stat ext (world s) (Join ext (Path (self s)) "enabled"));
    try done.
  by destruct (negb (IsFileExecutable mode)).
Qed.

(** C7, as the code has it.  The enabled-script check answers enabled
    when there is no enabled script, fails when the script is there but
    not executable, and after the script has run takes the content of
    the MODULE_ENABLED_RESULT file with the white space around it
    trimmed: [true] is enabled, [false] is disabled, anything else is an
    error. *)
Theorem checkIsEnabledByScript_answer (preceding : list string) s :
  let answer := (checkIsEnabledByScript ext preceding s).2 in
  (Stat ext (world s) (enabledScriptPath ext s) = StatNotExist ->
   answer = Ok true)
  /\ (forall mode,
        Stat ext (world s) (enabledScriptPath ext s) = StatInfo mode ->
        IsFileExecutable mode = false ->
        answer = Err "non-executable enable script")
  /\ (forall resultPath w data,
        script_has_run ext preceding s resultPath w ->
        ReadFile ext w resultPath = Ok data ->
        answer = enabled_answer data).
Proof.
  intros answer. unfold answer. rewrite checkIsEnabledByScript_unfold.
  split_and!.
  - by intros ->.
  - intros mode -> ->. done.
  - intros resultPath w data
      (mode & s1 & p1 & s2 & p2 & s3 & -> & -> & H1 & H2 & H3 & Hrun) Hread.
    simpl. unfold run_enabled_script.
    rewrite (bind_result _ _ _ _ _ H1), defer_result.
    rewrite (bind_result _ _ _ _ _ H2), defer_result.
    rewrite (bind_result _ _ _ _ _ H3), defer_result.
    unfold bind at 1, ask at 1. unfold bind at 1, act at 1.
    rewrite Hrun. simpl. unfold bind at 1, ask at 1. simpl.
    unfold readModuleEnabledResult, enabled_answer. rewrite Hread.
    destruct (String.eqb (TrimSpace data) "true"); [done|].
    by destruct (String.eqb (TrimSpace data) "false").
Qed.

End EngineFacts.

Section EngineExamples.
Import GoStrings Engine EngineSpec Installation.

(** C1 fails as stated, in two ways.  With a stored checksum that is
    not a string the stored checksum differs from the fresh one, and the
    upgrade is skipped.  And when the status of the release cannot be
    read the function returns the error, although a rendered manifest is
    absent from the cluster. *)
Lemma upgrade_is_not_as_claimed :
  ~ (ShouldRunHelmUpgrade (installed numeric_checksum) "app"
       "kind: Deployment" [app_deployment] 0%Z = Ok true
     <-> upgrade_claimed (installed numeric_checksum) 0%Z "app"
           "kind: Deployment" [app_deployment])
  /\ ~ (ShouldRunHelmUpgrade (installed status_unknown) "app"
          "kind: Deployment" [app_deployment] 0%Z = Ok true
        <-> upgrade_claimed (installed status_unknown) 0%Z "app"
              "kind: Deployment" [app_deployment]).
Proof.
  split.
  - intros [_ H].
    assert (ShouldRunHelmUpgrade (installed numeric_checksum) "app"
              "kind: Deployment" [app_deployment] 0%Z = Ok true) as Hrun.
    { apply H. right. right. right. left.
      exists {[ checksum_key := JNum 42 ]}, (JNum 42).
      split; [reflexivity|]. split; [reflexivity|discriminate]. }
    vm_compute in Hrun. discriminate.
  - intros [_ H].
    assert (ShouldRunHelmUpgrade (installed status_unknown) "app"
              "kind: Deployment" [app_deployment] 0%Z = Ok true) as Hrun.
    { apply H. repeat right. exists [app_deployment].
      split; [reflexivity|discriminate]. }
    vm_compute in Hrun. discriminate.
Qed.

(** The theorem at work.  On a first install the upgrade is required,
    although the status of the release cannot be read: there is no
    release, and the status is not asked for. *)
Lemma ShouldRunHelmUpgrade_iff_witness :
  LastReleaseStatus (installed first_install) 0%Z "app"
  = Err "release: not found"
  /\ ShouldRunHelmUpgrade (installed first_install) "app" "kind: Deployment"
                          [app_deployment] 0%Z = Ok true.
Proof.
  split; [reflexivity|].
  apply (proj1 (ShouldRunHelmUpgrade_iff (installed first_install) 0%Z "app"
                  "kind: Deployment" [app_deployment])).
  left. reflexivity.
Defined.

(** C4 fails as stated: the failed revisions are cleaned up before the
    monitor is stopped, not after. *)
Lemma cleanup_precedes_stop_monitor :
  exists s',
    Run (installed first_install) true no_callback start = (s', Ok true)
    /\ ~ all_before is_stop_call is_cleanup_call (trace s').
Proof.
  eexists. split; [vm_compute; reflexivity|].
  intros H.
  specialize (H 2 0 (CallStopMonitor "app")
                (CallDeleteSingleFailedRevision "app")
                eq_refl I eq_refl I).
  lia.
Qed.

(** The theorem at work: a first install with an OnStartup and an
    AfterHelm hook.  The module has a chart, so the failed revisions are
    cleaned up first; the Helm step starts with the writing of the
    values file; and the AfterHelm hook changes the values. *)
Lemma Run_order_witness :
  exists startup beforeHelm helm afterHelm before after,
    trace (Run (installed first_install) true no_callback start).1
    = trace start
      ++ [CallDeleteSingleFailedRevision "app";
          CallDeleteOldFailedRevisions "app"]
      ++ [CallStopMonitor "app"] ++ startup ++ beforeHelm ++ helm
      ++ [SampleValuesChecksum (Ok before)] ++ afterHelm
      ++ [SampleValuesChecksum (Ok after)]
    /\ startup_calls true ["010-app/hooks/startup"] startup
    /\ hook_calls BeforeHelm [] beforeHelm
    /\ hook_calls AfterHelm ["010-app/hooks/after"] afterHelm
    /\ true = negb (String.eqb after before).
Proof.
  destruct (Run_order (installed first_install) true no_callback start
              (Run (installed first_install) true no_callback start).1 true)
    as (s1 & s3 & s4 & s5 & startup & beforeHelm & helm & afterHelm
        & before & after & _ & _ & Htrace & Hstartup & Hbefore & _
        & Hafter & _ & _ & Hchanged); [vm_compute; reflexivity|].
  exists startup, beforeHelm, helm, afterHelm, before, after.
  split; [exact Htrace|]. split; [exact Hstartup|].
  split; [exact Hbefore|]. split; [exact Hafter|exact Hchanged].
Defined.

(** The manifests recorded by a first install. *)
Lemma Run_records_rendered_manifests_witness :
  exists rendered,
    GetManifestListFromYamlDocuments (installed first_install) rendered
    = Ok (LastReleaseManifests
            (self (Run (installed first_install) true no_callback start).1)).
Proof.
  destruct (Run_records_rendered_manifests (installed first_install) true
              no_callback start
              (Run (installed first_install) true no_callback start).1 true)
    as (s1 & s2 & _ & _ & _ & _ & rendered & valuesPath & _ & Hparse).
  - intros w. vm_compute. discriminate.
  - vm_compute. reflexivity.
  - exists rendered. exact Hparse.
Defined.

(** C7 fails as stated: what the script wrote is not exactly [true], and
    the module is enabled all the same. *)
Lemma written_newline_is_accepted :
  true_newline <> "true" /\ true_newline <> "false"
  /\ (checkIsEnabledByScript (installed (script_writes true_newline)) []
        start).2 = Ok true.
Proof. split; [discriminate|]. split; [discriminate|]. reflexivity. Qed.

(** A script that writes [false] disables the module. *)
Lemma checkIsEnabledByScript_answer_witness :
  (checkIsEnabledByScript (installed (script_writes "false")) [] start).2
  = Ok false.
Proof.
  apply (proj2 (proj2 (checkIsEnabledByScript_answer
                         (installed (script_writes "false")) [] start))
           "/tmp/app.module-enabled-result" 0%Z "false");
    [|reflexivity].
  eexists 493%Z, _, _, _, _, _.
  split; [reflexivity|]. split; [reflexivity|].
  split; [vm_compute; reflexivity|].
  split; [vm_compute; reflexivity|].
  split; [vm_compute; reflexivity|].
  reflexivity.
Defined.

End EngineExamples.

(** ** The operator *)

Section QueueFacts.
Import Queue Operator OperatorSpec.





End QueueFacts.

Section OperatorFacts.
Import Queue Operator OperatorSpec.
Context {W : Type} (ext : Collaborators W).

Implicit Types (s : State W) (t : Task) (q : list Task).





Lemma handle_ModuleRun_result t s :
  mainQueue (handle_ModuleRun ext t s).1 = mainQueue s
  /\ HeadTasks (handle_ModuleRun ext t s).2 = []
  /\ (AfterTasks (handle_ModuleRun ext t s).2 = []
      \/ Status (handle_ModuleRun ext t s).2 = "Success"
         /\ exists newTask,
              AfterTasks (handle_ModuleRun ext t s).2 = [newTask]
              /\ Type_ newTask = ModuleRun
              /\ ModuleName (Metadata newTask) = ModuleName (Metadata t)
              /\ OnStartupHooks (Metadata newTask) = false).
Proof.
  unfold handle_ModuleRun, with_world_monitors.
  destruct (RunModule ext _ _ _ _) as [[w' ms'] [[|]|e]];
    destruct (OnStartupHooks (Metadata t)); simpl;
    (split; [done|]); (split; [done|]); try (by left);
    right; (split; [done|]); by eexists.
Qed.

Lemma IncrementFailureCount_module_run moduleName t :
  is_module_run moduleName (IncrementFailureCount t)
  <-> is_module_run moduleName t.
Proof. done. Qed.


(** *** Discovery *)

Lemma on_world_queue f s : mainQueue (on_world f s) = mainQueue s.
Proof. done. Qed.

Lemma with_world_queue {A} (f : W -> W * A) s :
  mainQueue (with_world f s).1 = mainQueue s.
Proof. unfold with_world. by destruct (f (world s)). Qed.




Lemma foldl_on_world_queue (f : string -> W -> W) names s :
  mainQueue (foldl (fun s name => on_world (f name) s) s names) = mainQueue s.
Proof.
  revert s. induction names as [|name names IH]; intros s; [done|].
  simpl. by rewrite IH.
Qed.




(** *** ModuleHookRun *)

(** C9.  For a ModuleHookRun task the handler pauses the module's
    resources monitor, then runs the hook; when the hook succeeds or
    fails with [allowFailure] the task succeeds and the monitor is
    resumed, so it is left not paused; when the hook fails without
    [allowFailure] the task fails and the monitor is not resumed, so it
    is left paused. *)
Theorem ModuleHookRun_pauses_and_resumes t s :
  Type_ t = ModuleHookRun ->
  let hm := Metadata t in
  let err := (RunModuleHook ext (HookName hm) (MetaBindingType hm)
                            (MetaBindingContext hm) (world s)).2 in
  let s' := (TaskHandler ext t s).1 in
  let res := (TaskHandler ext t s).2 in
  (err = None \/ AllowFailure hm = true ->
   Status res = "Success"
   /\ calls s' = calls s ++ [CallPauseMonitor (ModuleName hm);
                             CallRunModuleHook (HookName hm);
                             CallResumeMonitor (ModuleName hm)]
   /\ forall r, monitors s !! ModuleName hm = Some r ->
        Monitor.paused <$> monitors s' !! ModuleName hm = Some false)
  /\ (err <> None /\ AllowFailure hm = false ->
      Status res = "Fail"
      /\ calls s' = calls s ++ [CallPauseMonitor (ModuleName hm);
                                CallRunModuleHook (HookName hm)]
      /\ forall r, monitors s !! ModuleName hm = Some r ->
           Monitor.paused <$> monitors s' !! ModuleName hm = Some true).
Proof.
  intros Ht hm err s' res. unfold s', res, err, TaskHandler. rewrite Ht.
  unfold handle_ModuleHookRun, with_world. simpl. fold hm.
  destruct (RunModuleHook ext (HookName hm) (MetaBindingType hm)
              (MetaBindingContext hm) (world s)) as [w' [e|]]; simpl.
  - destruct (ModuleHookLabels ext w' (HookName hm)) as [moduleLabel hookLabel].
    destruct (AllowFailure hm); simpl.
    + split; [|by intros [_ ?]]. intros _. split; [done|].
      split; [by rewrite <- !app_assoc|].
      intros r Hr. by rewrite !lookup_alter_eq, Hr.
    + split; [by intros [?|?]|]. intros _. split; [done|].
      split; [by rewrite <- !app_assoc|].
      intros r Hr. by rewrite !lookup_alter_eq, Hr.
  - split; [|by intros [? _]]. intros _. split; [done|].
    split; [by rewrite <- !app_assoc|].
    intros r Hr. by rewrite !lookup_alter_eq, Hr.
Qed.

End OperatorFacts.

Section OperatorExamples.
Import Queue Operator OperatorSpec MonitorSpec.




(** A hook that fails without [allowFailure] leaves the monitor paused. *)
Lemma ModuleHookRun_pauses_and_resumes_witness :
  Monitor.paused
  <$> monitors (TaskHandler (quiet_operator [] (Some "exit status 1"))
                            (hook_task false) watching).1 !! "app"
  = Some true.
Proof.
  pose proof (ModuleHookRun_pauses_and_resumes
                (quiet_operator [] (Some "exit status 1"))
                (hook_task false) watching eq_refl) as H.
  cbv zeta in H. destruct H as [_ H].
  destruct H as (_ & _ & H); [split; [discriminate|reflexivity]|].
  apply (H drifted_monitor). vm_compute. reflexivity.
Defined.

End OperatorExamples.

(** ** More on the values patches *)

Section CompactMore.
Import GoStrings Patch PatchSpec PatchMore.

Implicit Types (op a r : ValuesPatchOperation).
Implicit Types (tree : gmap string (list ValuesPatchOperation)).

Lemma same_entries_step tree1 tree2 op :
  same_entries tree1 tree2 ->
  same_entries (compact_step tree1 op) (compact_step tree2 op).
Proof.
  intros Hsame path. destruct (decide (path = Path op)) as [->|Hne].
  - rewrite !compact_step_lookup_own_result. simpl.
    unfold own_result. by rewrite (Hsame (Path op)).
  - rewrite !compact_step_lookup_other by done.
    destruct (String.eqb (Op op) "remove" && is_subpath (Path op) path);
      [done|apply Hsame].
Qed.

Lemma same_entries_foldl ops tree1 tree2 :
  same_entries tree1 tree2 ->
  same_entries (foldl compact_step tree1 ops) (foldl compact_step tree2 ops).
Proof.
  revert tree1 tree2. induction ops as [|op ops IH]; intros t1 t2 H; [done|].
  simpl. apply IH. by apply same_entries_step.
Qed.

(** *** The emitted list depends on the stored operations only *)

Lemma StronglySorted_filter_le (P : string -> Prop)
    `{!forall x, Decision (P x)} (l : list string) :
  StronglySorted le l -> StronglySorted le (filter P l).
Proof.
  induction 1 as [|x l Hs IH Hall]; [constructor|].
  destruct (decide (P x)) as [Hx|Hx].
  - rewrite filter_cons_True by done. constructor; [done|].
    rewrite Forall_forall in *. intros y [_ Hy]%list_elem_of_filter.
    by apply Hall.
  - by rewrite filter_cons_False.
Qed.

Lemma emit_skips_empty tree paths :
  Patch.emit tree paths
  = Patch.emit tree (filter (fun p => default [] (tree !! p) <> []) paths).
Proof.
  induction paths as [|p paths IH]; [done|].
  destruct (decide (default [] (tree !! p) <> [])) as [Hp|Hp].
  - rewrite filter_cons_True by done. simpl. by rewrite <- IH.
  - rewrite filter_cons_False by done. simpl. rewrite <- IH.
    destruct (default [] (tree !! p)); [done|]. exfalso. by apply Hp.
Qed.

Lemma emit_same_entries tree1 tree2 :
  same_entries tree1 tree2 ->
  Patch.emit tree1 (sorted_paths tree1) = Patch.emit tree2 (sorted_paths tree2).
Proof.
  intros Hsame.
  rewrite (emit_skips_empty tree1), (emit_skips_empty tree2).
  assert (Hpaths :
    filter (fun p => default [] (tree1 !! p) <> []) (sorted_paths tree1)
    = filter (fun p => default [] (tree2 !! p) <> []) (sorted_paths tree2)).
  { apply (StronglySorted_unique le).
    - apply StronglySorted_filter_le, sorted_paths_sorted.
    - apply StronglySorted_filter_le, sorted_paths_sorted.
    - apply NoDup_Permutation.
      + apply NoDup_filter, sorted_paths_NoDup.
      + apply NoDup_filter, sorted_paths_NoDup.
      + intros p. rewrite !list_elem_of_filter, !elem_of_sorted_paths.
        rewrite (Hsame p). split; intros [Hne _]; (split; [done|]).
        * destruct (tree2 !! p); [by eexists|done].
        * rewrite <- (Hsame p) in Hne. destruct (tree1 !! p); [by eexists|done]. }
  rewrite Hpaths. unfold Patch.emit.
  apply flat_map_ext. intros p. apply Hsame.
Qed.

(** *** Reading back what was emitted *)

(** A path sorts before the paths below it. *)
Lemma is_subpath_not_le parent path :
  is_subpath parent path = true -> ~ le path parent.
Proof.
  unfold is_subpath, HasPrefix, le, String.leb.
  intros [_ Hpre]%andb_prop. revert path Hpre.
  induction parent as [|c parent IH]; intros [|d path]; simpl; try done.
  destruct (Ascii.eqb_spec c d) as [->|]; [|by destruct (ascii_dec c d)].
  destruct (ascii_dec d d); [|done].
  intros Hpre. unfold Ascii.compare. rewrite N.compare_refl.
  by apply IH.
Qed.

Lemma squash_remove_after_add a r :
  Op a = "add" -> squash_remove r [a] = ([a; r], true).
Proof. intros Ha. unfold squash_remove. simpl. by rewrite Ha. Qed.

(** From a tree that has nothing at or below [path], the operations
    stored for [path] put themselves back and leave the rest alone. *)
Lemma foldl_entry_back tree path entry :
  entry_shape path entry ->
  (forall q, is_subpath path q = true -> default [] (tree !! q) = []) ->
  default [] (tree !! path) = [] ->
  forall q, default [] (foldl compact_step tree entry !! q)
            = if decide (q = path) then entry else default [] (tree !! q).
Proof.
  intros Hshape Hbelow Hown q.
  destruct Hshape as [|a Hop Hpath|a r Hop Hpath Hopr Hpathr]; simpl.
  - destruct (decide (q = path)) as [->|]; done.
  - destruct (decide (q = path)) as [->|Hne].
    + rewrite <- Hpath, compact_step_lookup_own_result. simpl.
      unfold own_result. by rewrite Hop.
    + rewrite compact_step_lookup_other by congruence.
      by rewrite Hop.
  - destruct (decide (q = path)) as [->|Hne].
    + rewrite <- Hpathr, compact_step_lookup_own_result. simpl.
      unfold own_result. rewrite Hopr. simpl.
      rewrite Hpathr, <- Hpath, compact_step_lookup_own_result. simpl.
      replace (own_result tree a) with [a]
        by (unfold own_result; by rewrite Hop).
      by rewrite squash_remove_after_add.
    + rewrite compact_step_lookup_other by congruence.
      rewrite Hopr, Hpathr. simpl.
      destruct (is_subpath path q) eqn:Hsub.
      * symmetry. by apply Hbelow.
      * rewrite compact_step_lookup_other by congruence. by rewrite Hop.
Qed.

Lemma emit_app tree l1 l2 :
  Patch.emit tree (l1 ++ l2) = Patch.emit tree l1 ++ Patch.emit tree l2.
Proof. unfold Patch.emit. apply flat_map_app. Qed.

Lemma foldl_emit_back tree paths :
  tree_shape tree -> StronglySorted le paths -> NoDup paths ->
  forall q, default [] (foldl compact_step ∅ (Patch.emit tree paths) !! q)
            = if decide (q ∈ paths) then default [] (tree !! q) else [].
Proof.
  intros Hshape. induction paths as [|p paths IH] using rev_ind;
    intros Hsorted Hnd q.
  - simpl. rewrite lookup_empty. simpl.
    destruct (decide (q ∈ [])) as [Hin|]; [|done]. by apply elem_of_nil in Hin.
  - apply StronglySorted_app in Hsorted as (Hle & Hs1 & _).
    apply NoDup_app in Hnd as (Hnd1 & Hnotin & _).
    specialize (IH Hs1 Hnd1).
    assert (Hp : p ∉ paths).
    { intros Hin. apply (Hnotin p Hin). apply list_elem_of_here. }
    rewrite emit_app, foldl_app. simpl. rewrite app_nil_r.
    rewrite (foldl_entry_back _ p).
    + destruct (decide (q = p)) as [->|Hne].
      * destruct (decide (p ∈ paths ++ [p])) as [_|Hn]; [done|].
        exfalso. apply Hn. apply elem_of_app. right. apply list_elem_of_here.
      * rewrite IH.
        destruct (decide (q ∈ paths)) as [Hin|Hnin];
          destruct (decide (q ∈ paths ++ [p])) as [Hin'|Hnin']; try done.
        -- exfalso. apply Hnin'. apply elem_of_app. by left.
        -- exfalso. apply elem_of_app in Hin' as [?|Hq]; [done|].
           by apply list_elem_of_singleton in Hq.
    + destruct (tree !! p) as [entry|] eqn:He; simpl; [|constructor].
      by apply Hshape.
    + intros q' Hsub. rewrite IH.
      destruct (decide (q' ∈ paths)) as [Hin|]; [|done].
      exfalso. apply (is_subpath_not_le p q' Hsub).
      apply Hle; [done|apply list_elem_of_here].
    + rewrite IH. by destruct (decide (p ∈ paths)).
Qed.

(** Compacting what a compaction emitted stores the same operations. *)
Lemma compact_tree_back operations :
  same_entries
    (compact_tree (Operations (CompactPatches operations)))
    (compact_tree operations).
Proof.
  intros q. unfold compact_tree at 1. simpl.
  rewrite foldl_emit_back
    by (apply compact_tree_shape || apply sorted_paths_sorted
        || apply sorted_paths_NoDup).
  destruct (decide _) as [|Hnin]; [done|].
  destruct (compact_tree operations !! q) as [entry|] eqn:He; [|done].
  exfalso. apply Hnin. apply elem_of_sorted_paths. by eexists.
Qed.

Lemma compact_incremental first second :
  Operations (CompactPatches (Operations (CompactPatches first) ++ second))
  = Operations (CompactPatches (first ++ second)).
Proof.
  simpl. apply emit_same_entries.
  unfold compact_tree. rewrite !foldl_app.
  apply same_entries_foldl. apply compact_tree_back.
Qed.

End CompactMore.

Section CompactMoreTheorems.
Import GoStrings Patch PatchSpec PatchMore.

Implicit Types (op a r o : ValuesPatchOperation).
Implicit Types (tree : gmap string (list ValuesPatchOperation)).

(** X1.  Appending patch by patch gives what one compaction of all
    operations gives: the single patch kept after [valuesPatches] and
    [p] were appended, with [q] appended to it, is the patch of
    appending [q] to [valuesPatches] followed by [p]. *)
Theorem AppendValuesPatch_incremental
    (valuesPatches : list ValuesPatch) (p q : ValuesPatch) :
  AppendValuesPatch (AppendValuesPatch valuesPatches p) q
  = AppendValuesPatch (valuesPatches ++ [p]) q.
Proof.
  unfold AppendValuesPatch, CompactValuesPatches. f_equal.
  unfold CompactPatches at 1 3. f_equal.
  change (Operations (CompactPatches
            (flat_map Operations
               [CompactPatches (flat_map Operations valuesPatches
                                ++ Operations p)]
             ++ Operations q))
          = Operations (CompactPatches
              (flat_map Operations (valuesPatches ++ [p]) ++ Operations q))).
  rewrite flat_map_app. simpl flat_map. rewrite !app_nil_r.
  apply compact_incremental.
Qed.

(** X2.  CompactPatches is idempotent: compacting the operations of a
    compacted patch gives the same patch. *)
Theorem CompactPatches_idempotent (operations : list ValuesPatchOperation) :
  CompactPatches (Operations (CompactPatches operations))
  = CompactPatches operations.
Proof.
  pose proof (compact_incremental operations []) as H.
  rewrite !app_nil_r in H.
  unfold CompactPatches at 1 3. f_equal. exact H.
Qed.

Lemma foldl_untouched later tree path :
  untouched_by path later ->
  foldl compact_step tree later !! path = tree !! path.
Proof.
  revert tree. induction later as [|o later IH]; intros tree Hun; [done|].
  simpl. rewrite IH.
  - destruct (Hun o) as [Hne Hrm]; [apply list_elem_of_here|].
    rewrite compact_step_lookup_other by done.
    destruct (String.eqb_spec (Op o) "remove") as [Ho|Ho]; [|done].
    by rewrite (Hrm Ho).
  - intros o' Ho'. apply Hun. by apply list_elem_of_further.
Qed.

(** X3.  The last operation on a path decides what the compacted patch
    has on that path.  Let [o] be an operation of the input after which
    no operation is on the path of [o] or removes a parent of it.  If
    [o] is an [add], the output has [o] alone on that path; if [o] is a
    [remove], the output has an [add] of that path, from the operations
    before [o] or the virtual one, followed by [o]; and if [o] is
    anything else, it is ignored: the output has on that path what the
    compaction of the operations before [o] has. *)
Theorem CompactPatches_last_operation
    (before later : list ValuesPatchOperation) o :
  untouched_by (Path o) later ->
  let out := Operations (CompactPatches (before ++ o :: later)) in
  (Op o = "add" -> on_path (Path o) out = [o])
  /\ (Op o = "remove" ->
      exists a, on_path (Path o) out = [a; o]
                /\ Op a = "add" /\ Path a = Path o
                /\ (a ∈ before \/ a = guard_add (Path o)))
  /\ (Op o <> "add" -> Op o <> "remove" ->
      on_path (Path o) out
      = on_path (Path o) (Operations (CompactPatches before))).
Proof.
  intros Hun out.
  assert (Hout : on_path (Path o) out = own_result (compact_tree before) o).
  { unfold out. rewrite on_path_CompactPatches.
    unfold compact_tree. rewrite foldl_app. simpl.
    rewrite foldl_untouched by done.
    by rewrite compact_step_lookup_own_result. }
  rewrite Hout. unfold own_result. repeat split.
  - by intros ->.
  - intros Hrm. rewrite Hrm. simpl.
    destruct (squash_remove_spec o (default [] (compact_tree before !! Path o)))
      as [(a & Ha & Hop & ->)| ->].
    + exists a. split; [done|]. split; [done|].
      pose proof (entry_path _ _ _ (compact_tree_shape before) Ha) as Hpath.
      split; [done|].
      destruct (compact_tree before !! Path o) as [entry|] eqn:He;
        simpl in Ha; [|by apply elem_of_nil in Ha].
      destruct (compact_tree_from before _ _ _ He Ha) as [Hin|Hg];
        [by left|right]. by rewrite <- Hpath.
    + exists (guard_add (Path o)). repeat split. by right.
  - intros Hadd Hrm.
    apply String.eqb_neq in Hadd, Hrm. rewrite Hadd, Hrm.
    by rewrite on_path_CompactPatches.
Qed.

Lemma CompactPatches_last_operation_witness :
  let before := [mkOp "add" "/a/b" (JNum 1)] in
  let o := mkOp "remove" "/a/b" JNull in
  let later := [mkOp "add" "/a/c" (JNum 2)] in
  untouched_by (Path o) later
  /\ exists a, on_path (Path o)
                (Operations (CompactPatches (before ++ o :: later)))
              = [a; o]
              /\ Op a = "add" /\ Path a = Path o
              /\ (a ∈ before \/ a = guard_add (Path o)).
Proof.
  intros before o later.
  assert (Hun : untouched_by (Path o) later).
  { intros x Hx. apply list_elem_of_singleton in Hx as ->.
    split; [discriminate|reflexivity]. }
  split; [exact Hun|].
  exact (proj1 (proj2 (CompactPatches_last_operation before later o Hun))
               eq_refl).
Defined.

End CompactMoreTheorems.

(** ** Compaction, validation and the patch filters *)

Section PatchFilters.
Import GoStrings Patch PatchSpec PatchMore PatchFilter.

Implicit Types (op a r o : ValuesPatchOperation).
Implicit Types (tree : gmap string (list ValuesPatchOperation)).





(** *** The filters *)

Lemma second_part (parts : list string) (wanted : string -> bool) :
  (if (1 <? length parts)%nat
   then wanted (default "" (parts !! 1%nat)) else false)
  = match parts !! 1%nat with Some segment => wanted segment | None => false end.
Proof. by destruct parts as [|p0 [|p1 parts]]. Qed.

Lemma foldl_append_filter (step : list ValuesPatchOperation ->
                                 ValuesPatchOperation ->
                                 list ValuesPatchOperation)
    (keep : ValuesPatchOperation -> bool) ops acc :
  (forall resOps op,
     step resOps op = if keep op then resOps ++ [op] else resOps) ->
  foldl step acc ops = acc ++ filter (fun op => keep op = true) ops.
Proof.
  intros Hstep. revert acc. induction ops as [|op ops IH]; intros acc; simpl.
  - by rewrite app_nil_r.
  - rewrite IH, Hstep. destruct (keep op) eqn:Hk.
    + rewrite filter_cons_True by done. by rewrite <- app_assoc.
    + rewrite filter_cons_False; [done|]. by rewrite Hk.
Qed.

Lemma FilterValuesPatch_filter valuesPatch rootPath :
  Operations (FilterValuesPatch valuesPatch rootPath)
  = filter (under_root rootPath) (Operations valuesPatch).
Proof.
  unfold FilterValuesPatch. simpl.
  rewrite (foldl_append_filter _
    (fun op => match first_segment (Path op) with
               | Some segment => String.eqb segment rootPath
               | None => false end)).
  - simpl. apply list_filter_iff. intros op. unfold under_root.
    destruct (first_segment (Path op)) as [segment|]; [|done].
    rewrite String.eqb_eq. split; congruence.
  - intros resOps op. unfold first_segment.
    rewrite <- (second_part _ (fun s => String.eqb s rootPath)).
    by destruct (1 <? length (Split (Path op) "/"))%nat.
Qed.

Lemma EnabledFromValuesPatch_filter valuesPatch :
  Operations (EnabledFromValuesPatch valuesPatch)
  = filter on_enabled_key (Operations valuesPatch).
Proof.
  unfold EnabledFromValuesPatch. simpl.
  rewrite (foldl_append_filter _
    (fun op => match first_segment (Path op) with
               | Some segment => HasSuffix segment "Enabled"
               | None => false end)).
  - simpl. apply list_filter_iff. intros op. unfold on_enabled_key.
    destruct (first_segment (Path op)) as [segment|].
    + split; [by exists segment|]. by intros (s & [= <-] & Hs).
    + split; [done|]. by intros (s & ? & _).
  - intros resOps op. unfold first_segment.
    rewrite <- (second_part _ (fun s => HasSuffix s "Enabled")).
    by destruct (1 <? length (Split (Path op) "/"))%nat.
Qed.

(** X5.  FilterValuesPatch keeps, in the order of the patch, exactly the
    operations whose first path segment is [rootPath]; so the filtered
    patch is not valid for [rootPath] only when the patch has a
    [replace] operation under [rootPath]. *)
Theorem FilterValuesPatch_keeps_section
    (valuesPatch : ValuesPatch) (rootPath : string) :
  Operations (FilterValuesPatch valuesPatch rootPath)
  = filter (under_root rootPath) (Operations valuesPatch)
  /\ (ValidateHookValuesPatch (FilterValuesPatch valuesPatch rootPath) rootPath
      <> None
      <-> exists op, op ∈ Operations valuesPatch
                     /\ under_root rootPath op /\ Op op = "replace").
Proof.
  split; [apply FilterValuesPatch_filter|].
  unfold ValidateHookValuesPatch.
  rewrite validate_ops_rejected, FilterValuesPatch_filter. split.
  - intros (op & [Hroot Hin]%list_elem_of_filter & [Hrep|(seg & Hseg & Hbad)]).
    + by exists op.
    + exfalso. apply Hbad. left. unfold under_root in Hroot. congruence.
  - intros (op & Hin & Hroot & Hrep). exists op.
    split; [by apply list_elem_of_filter|by left].
Qed.

(** X6.  What the two filters make of a patch that is valid for a
    section: an operation of the patch is kept by FilterValuesPatch for
    that section, or for the global section by EnabledFromValuesPatch,
    exactly when its path has a first segment; an operation on a path
    without ["/"] is valid and is kept by neither filter. *)
Theorem valid_patch_is_split_by_filters
    (valuesPatch : ValuesPatch) (acceptableKey : string) :
  ValidateHookValuesPatch valuesPatch acceptableKey = None ->
  forall op, op ∈ Operations valuesPatch ->
    (op ∈ Operations (FilterValuesPatch valuesPatch acceptableKey)
     \/ (acceptableKey = GlobalValuesKey
         /\ op ∈ Operations (EnabledFromValuesPatch valuesPatch)))
    <-> has_segment op.
Proof.
  intros Hvalid op Hin.
  rewrite FilterValuesPatch_filter, EnabledFromValuesPatch_filter.
  rewrite !list_elem_of_filter. unfold under_root, on_enabled_key, has_segment.
  split.
  - intros [[Hroot _]|[_ [(seg & Hseg & _) _]]]; by eexists.
  - intros [seg Hseg].
    destruct (decide (acceptable_segment acceptableKey seg)) as [Hacc|Hbad].
    + destruct Hacc as [->|[Hsuf Hglobal]]; [by left|right].
      split; [done|]. split; [|done]. by exists seg.
    + exfalso. unfold ValidateHookValuesPatch in Hvalid.
      assert (validate_ops (Operations valuesPatch) acceptableKey <> None)
        as Hne; [|by rewrite Hvalid in Hne].
      apply validate_ops_rejected. exists op. split; [done|].
      right. by exists seg.
Qed.

Lemma valid_patch_is_split_by_filters_witness :
  ValidateHookValuesPatch global_hook_patch "global" = None
  /\ Forall (fun op =>
               (op ∈ Operations (FilterValuesPatch global_hook_patch "global")
                \/ ("global" = GlobalValuesKey
                    /\ op ∈ Operations
                              (EnabledFromValuesPatch global_hook_patch)))
               <-> has_segment op)
            (Operations global_hook_patch).
Proof.
  assert (Hvalid : ValidateHookValuesPatch global_hook_patch "global" = None)
    by reflexivity.
  split; [exact Hvalid|].
  apply Forall_forall.
  exact (valid_patch_is_split_by_filters global_hook_patch "global" Hvalid).
Defined.

End PatchFilters.

(** ** Values keys *)

Section ValuesKeys.
Import ValuesKey.

Lemma lowered_not_upper (c : ascii) :
  is_upper c = true -> is_upper (lowered c) = false.
Proof.
  unfold is_upper, lowered. intros [H1 H2]%andb_prop.
  apply N.leb_le in H1, H2.
  rewrite N.mod_small by lia.
  rewrite N_ascii_embedding by lia.
  apply andb_false_iff. right. apply N.leb_gt. lia.
Qed.

Lemma kebab_from_no_upper (i : nat) (rest : string) :
  Forall (fun c => is_upper c = false)
         (list_ascii_of_string (kebab_from i rest)).
Proof.
  revert i. induction rest as [|c rest IH]; intros i; simpl; [constructor|].
  destruct (is_upper c) eqn:Hu; [|destruct (is_digit c) eqn:Hd];
    destruct (0 <? i)%nat; simpl;
    repeat (constructor; try done); try apply IH;
    by apply lowered_not_upper.
Qed.

Lemma kebab_from_fixed (i : nat) (rest : string) :
  kebab_from i rest = rest
  <-> Forall (fun c => is_upper c = false) (list_ascii_of_string rest)
      /\ Forall (fun c => is_digit c = false)
                (if (0 <? i)%nat then list_ascii_of_string rest
                 else tail (list_ascii_of_string rest)).
Proof.
  revert i. induction rest as [|c rest IH]; intros i; simpl.
  { split; [intros _|done]. split; [constructor|]. by destruct (0 <? i)%nat. }
  destruct (is_upper c) eqn:Hu.
  { split.
    - destruct (0 <? i)%nat; intros [= Hc _]; exfalso.
      + by rewrite <- Hc in Hu.
      + apply lowered_not_upper in Hu as Hl. congruence.
    - intros [Hup _]. apply Forall_cons in Hup as [? _]. congruence. }
  destruct (is_digit c) eqn:Hd.
  { destruct i as [|i]; simpl.
    2:{ split.
        - intros [= Hc _]. exfalso. by rewrite <- Hc in Hd.
        - intros [_ Hdig]. apply Forall_cons in Hdig as [? _]. congruence. }
    split.
    - intros [= Hrest]. apply (IH 1) in Hrest as [Hup Hdig].
      simpl in Hdig. split; [by constructor|done].
    - intros [Hup Hdig]. f_equal. apply (IH 1). simpl.
      split; [|done]. by apply Forall_cons in Hup as [_ ?]. }
  split.
  - intros [= Hrest]. apply (IH (S i)) in Hrest as [Hup Hdig]. simpl in Hdig.
    split; [by constructor|]. destruct (0 <? i)%nat; simpl; [|done].
    by constructor.
  - intros [Hup Hdig]. f_equal. apply IH. simpl.
    apply Forall_cons in Hup as [_ Hup]. split; [done|].
    destruct (0 <? i)%nat; simpl in Hdig; [|done].
    by apply Forall_cons in Hdig as [_ ?].
Qed.

(** X7.  The module name made from a values key has no ASCII upper-case
    letter. *)
Theorem ModuleNameFromValuesKey_has_no_uppercase (moduleValuesKey : string) :
  Forall (fun c => is_upper c = false)
         (list_ascii_of_string (ModuleNameFromValuesKey moduleValuesKey)).
Proof. apply kebab_from_no_upper. Qed.

(** X8.  ModuleNameFromValuesKey leaves a key as it is exactly when the
    key has no upper-case letter and no digit after its first byte: a
    digit gets a dash before it like an upper-case letter does, except
    at the start. *)
Theorem ModuleNameFromValuesKey_fixed_iff (moduleValuesKey : string) :
  ModuleNameFromValuesKey moduleValuesKey = moduleValuesKey
  <-> Forall (fun c => is_upper c = false)
             (list_ascii_of_string moduleValuesKey)
      /\ Forall (fun c => is_digit c = false)
                (tail (list_ascii_of_string moduleValuesKey)).
Proof. apply (kebab_from_fixed 0). Qed.

End ValuesKeys.

(** ** More on the resources monitor *)

Section MonitorMoreFacts.
Import Monitor MonitorSpec MonitorMore.

Lemma absent_loop_returns_list r ms res0 res :
  absent_loop r ms res0 = Returns (Ok res) ->
  forall m, m ∈ ms ->
    exists apiRes items err,
      KubeAPIResource (kubeClient r) (ApiVersion m) (Kind m) = Ok apiRes
      /\ KubeList (kubeClient r) (resource_of apiRes) (namespace_of r m apiRes)
           {| FieldSelector := OneTermEqualSelector "metadata.name" (ManifestName m) |}
         = (Some items, err)
      /\ KubeGet (kubeClient r) (resource_of apiRes) (namespace_of r m apiRes)
                 (ManifestName m) = None.
Proof.
  revert res0. induction ms as [|m0 ms IH]; intros res0 Hloop m Hm.
  - by apply elem_of_nil in Hm.
  - simpl in Hloop. unfold absent_body in Hloop.
    destruct (KubeAPIResource (kubeClient r) (ApiVersion m0) (Kind m0))
      as [apiRes|e] eqn:Hapi; [|done].
    fold (resource_of apiRes) in Hloop. fold (namespace_of r m0 apiRes) in Hloop.
    destruct (KubeList (kubeClient r) (resource_of apiRes)
                (namespace_of r m0 apiRes) _) as [objList err] eqn:Hlist.
    destruct (KubeGet (kubeClient r) (resource_of apiRes)
                (namespace_of r m0 apiRes) (ManifestName m0)) eqn:Hget; [done|].
    destruct objList as [items|]; [|done].
    apply elem_of_cons in Hm as [->|Hm].
    + by exists apiRes, items, err.
    + destruct (length items =? 0)%nat; by eapply IH.
Qed.

Lemma AbsentResources_Ok r res :
  AbsentResources r = Returns (Ok res)
  <-> gets_succeed r /\ res = filter (list_is_empty r) (manifests r).
Proof.
  split.
  - intros Hres.
    assert (Hok : gets_succeed r).
    { intros m Hm. by apply (absent_loop_returns_list r (manifests r) [] res). }
    split; [done|]. unfold AbsentResources in Hres.
    rewrite absent_loop_when_gets_succeed in Hres by done.
    by injection Hres as <-.
  - intros [Hok ->]. unfold AbsentResources.
    by rewrite absent_loop_when_gets_succeed.
Qed.

(** X9.  AbsentResources returns a list, and not an error or a panic,
    exactly when for every manifest of the monitor the resource is
    known, the list by name is not nil and the lookup by name succeeds;
    the list returned is then the manifests whose list by name is empty,
    in the order of the manifests. *)
Theorem AbsentResources_returns_list_iff (r : ResourcesMonitor)
    (res : list Manifest) :
  AbsentResources r = Returns (Ok res)
  <-> gets_succeed r /\ res = filter (list_is_empty r) (manifests r).
Proof. apply AbsentResources_Ok. Qed.

Lemma no_absent_when_get_fails r res :
  get_fails_when_list_is_empty r ->
  AbsentResources r = Returns (Ok res) -> res = [].
Proof.
  intros Hcluster [Hok ->]%AbsentResources_Ok.
  apply filter_none. intros m Hm Hempty.
  destruct (Hok m Hm) as (apiRes & items & err & Hapi & Hlist & Hget).
  apply (Hcluster m apiRes Hm Hapi); [|done].
  unfold list_is_empty, listed in Hempty. rewrite Hapi in Hempty.
  by injection Hempty.
Qed.

(** X10.  When getting an object by name fails whenever the list by that
    name is empty, as for an object that is not in the cluster, the
    monitor never reports: AbsentResources returns no manifest, and a
    tick calls no callback. *)
Theorem monitor_never_reports (r : ResourcesMonitor) :
  get_fails_when_list_is_empty r ->
  (forall res, AbsentResources r = Returns (Ok res) -> res = [])
  /\ (tick r = Panics \/ tick r = Returns []).
Proof.
  intros Hcluster. split; [intros res; by apply no_absent_when_get_fails|].
  unfold tick. destruct (paused r); [by right|].
  destruct (AbsentResources r) as [[res|e]|] eqn:Hres; [|by right|by left].
  rewrite (no_absent_when_get_fails r res Hcluster Hres). by right.
Qed.

Lemma monitor_never_reports_witness :
  get_fails_when_list_is_empty drifted_monitor
  /\ (forall res, AbsentResources drifted_monitor = Returns (Ok res) -> res = [])
  /\ (tick drifted_monitor = Panics \/ tick drifted_monitor = Returns []).
Proof.
  assert (H : get_fails_when_list_is_empty drifted_monitor)
    by (intros m apiRes _ _ _; discriminate).
  split; [exact H|]. exact (monitor_never_reports drifted_monitor H).
Defined.

(** X11.  A tick calls the callback at most once, and only when the
    monitor is not paused, has a callback, and every lookup for every
    manifest succeeded; the call carries the module name, the manifests
    whose list by name is empty, of which there is one at least, and
    the default namespace. *)
Theorem tick_calls_back_only_after_all_lookups (r : ResourcesMonitor)
    (call : AbsentCall) (calls : list AbsentCall) :
  tick r = Returns (call :: calls) ->
  calls = []
  /\ paused r = false /\ hasAbsentCb r = true
  /\ gets_succeed r
  /\ call = mkAbsentCall (moduleName r)
              (filter (list_is_empty r) (manifests r)) (defaultNamespace r)
  /\ filter (list_is_empty r) (manifests r) <> [].
Proof.
  unfold tick. destruct (paused r); [done|].
  destruct (AbsentResources r) as [[res|e]|] eqn:Hres; [|done|done].
  apply AbsentResources_Ok in Hres as [Hok ->].
  destruct (filter (list_is_empty r) (manifests r)) as [|m absent] eqn:Hf;
    [done|].
  simpl. destruct (hasAbsentCb r); [|done].
  intros [= <- <-]. by repeat split.
Qed.

Lemma tick_calls_back_only_after_all_lookups_witness :
  tick stale_list_monitor
  = Returns [mkAbsentCall "backend-module" [backend] "default"]
  /\ gets_succeed stale_list_monitor
  /\ filter (list_is_empty stale_list_monitor) (manifests stale_list_monitor)
     <> [].
Proof.
  assert (H : tick stale_list_monitor
              = Returns [mkAbsentCall "backend-module" [backend] "default"])
    by reflexivity.
  split; [exact H|].
  destruct (tick_calls_back_only_after_all_lookups stale_list_monitor _ _ H)
    as (_ & _ & _ & Hok & _ & Hne).
  split; [exact Hok|exact Hne].
Defined.

End MonitorMoreFacts.

(** ** More on the module engine *)

Section MonadMoreFacts.
Context {S : Type}.

(** The two ways a sequence ends: its first part failed, or its second
    part ran. *)
Lemma bind_inv {A B} (c : M S A) (k : A -> M S B) s s' r :
  bind c k s = (s', r) ->
  (exists s1 a, c s = (s1, Ok a) /\ k a s1 = (s', r))
  \/ (exists e, c s = (s', Err e) /\ r = Err e).
Proof.
  unfold bind. destruct (c s) as [s1 [a|e]].
  - intros H. left. by exists s1, a.
  - intros [= <- <-]. right. by exists e.
Qed.

End MonadMoreFacts.

Section EngineKeeps.
Import GoStrings Engine EngineSpec EngineMore.
Context {W : Type} (ext : Collaborators W).

Implicit Types (s : State W) (ev : Event) (l : list Event).
Implicit Types (I : State W -> Prop) (P : Event -> Prop).

Lemma keeps_ret {A} I P (a : A) : keeps I P (ret a).
Proof.
  intros s s' r HI [= <- <-]. split; [done|]. exists [].
  by rewrite app_nil_r.
Qed.

Lemma keeps_fail {A} I P e : keeps I P (@fail _ A e).
Proof.
  intros s s' r HI [= <- <-]. split; [done|]. exists [].
  by rewrite app_nil_r.
Qed.

Lemma keeps_ask {A} I P (f : W -> Module -> A) : keeps I P (ask f).
Proof.
  intros s s' r HI [= <- <-]. split; [done|]. exists [].
  by rewrite app_nil_r.
Qed.

Lemma keeps_query {A} I P (f : W -> Module -> result A) : keeps I P (query f).
Proof.
  intros s s' r HI [= <- <-]. split; [done|]. exists [].
  by rewrite app_nil_r.
Qed.

Lemma keeps_bind {A B} I P (c : M (State W) A) (k : A -> M (State W) B) :
  keeps I P c -> (forall a, keeps I P (k a)) -> keeps I P (bind c k).
Proof.
  intros Hc Hk s s' r HI H.
  apply bind_inv in H as [(s1 & a & H1 & H2)|(e & H1 & ->)].
  - destruct (Hc _ _ _ HI H1) as (HI1 & l1 & Ht1 & Hl1).
    destruct (Hk a _ _ _ HI1 H2) as (HI2 & l2 & Ht2 & Hl2).
    split; [done|]. exists (l1 ++ l2). rewrite Ht2, Ht1, <- app_assoc.
    split; [done|]. by apply Forall_app.
  - by apply (Hc _ _ _ HI H1).
Qed.

Lemma keeps_defer {A} I P (cleanup : M (State W) unit) (body : M (State W) A) :
  keeps I P body -> keeps I P cleanup -> keeps I P (defer cleanup body).
Proof.
  intros Hb Hc s s' r HI. unfold defer.
  destruct (body s) as [s1 r1] eqn:H1. destruct (cleanup s1) as [s2 r2] eqn:H2.
  intros [= <- <-].
  destruct (Hb _ _ _ HI H1) as (HI1 & l1 & Ht1 & Hl1).
  destruct (Hc _ _ _ HI1 H2) as (HI2 & l2 & Ht2 & Hl2).
  split; [done|]. exists (l1 ++ l2). rewrite Ht2, Ht1, <- app_assoc.
  split; [done|]. by apply Forall_app.
Qed.

Lemma keeps_act J P ev (f : W -> W * option error) :
  P ev -> keeps (on_self J) P (act ev f).
Proof.
  intros Hev s s' r HI. unfold act.
  destruct (f (world s)) as [w' err]. intros [= <- <-].
  split; [done|]. exists [ev]. split; [done|]. by constructor.
Qed.

Lemma keeps_act_ J P ev (f : W -> W) :
  P ev -> keeps (on_self J) P (act_ ev f).
Proof.
  intros Hev s s' r HI [= <- <-].
  split; [done|]. exists [ev]. split; [done|]. by constructor.
Qed.

Lemma keeps_log_call J P ev :
  P ev -> keeps (on_self J) P (log_call (W:=W) ev).
Proof.
  intros Hev s s' r HI [= <- <-].
  split; [done|]. exists [ev]. split; [done|]. by constructor.
Qed.

Lemma keeps_draw {A} J P (f : W -> W * A) : keeps (on_self J) P (draw f).
Proof.
  intros s s' r HI. unfold draw. destruct (f (world s)) as [w' a].
  intros [= <- <-]. split; [done|]. exists []. by rewrite app_nil_r.
Qed.

Lemma keeps_sample_checksum J P :
  (forall r, P (SampleValuesChecksum r)) ->
  keeps (on_self J) P (sample_checksum ext).
Proof.
  intros HP s s' r HI [= <- <-].
  split; [done|]. eexists [_]. split; [done|]. by constructor.
Qed.

Lemma keeps_run_hooks J P binding hooks :
  (forall hook bc, P (CallHookRun hook binding bc)) ->
  keeps (on_self J) P (run_hooks ext binding hooks).
Proof.
  intros HP. induction hooks as [|h hooks IH]; simpl.
  - apply keeps_ret.
  - apply keeps_bind; [apply keeps_ask|]. intros bc.
    apply keeps_bind; [by apply keeps_act|]. intros _. apply IH.
Qed.

Lemma keeps_runHooksByBinding J P binding :
  (forall hook bc, P (CallHookRun hook binding bc)) ->
  keeps (on_self J) P (runHooksByBinding ext binding).
Proof.
  intros HP. apply keeps_bind; [apply keeps_ask|]. intros hooks.
  by apply keeps_run_hooks.
Qed.

Lemma keeps_runHooksByBindingAndCheckValues J P binding :
  (forall hook bc, P (CallHookRun hook binding bc)) ->
  (forall r, P (SampleValuesChecksum r)) ->
  keeps (on_self J) P (runHooksByBindingAndCheckValues ext binding).
Proof.
  intros HP Hs. apply keeps_bind; [apply keeps_ask|]. intros hooks.
  apply keeps_bind; [by apply keeps_sample_checksum|]. intros c1.
  apply keeps_bind; [by apply keeps_run_hooks|]. intros _.
  apply keeps_bind; [by apply keeps_sample_checksum|]. intros c2.
  destruct (negb (String.eqb c2 c1)); apply keeps_ret.
Qed.

Lemma keeps_dump_to_tmp J P suffix data :
  (forall path, P (CallWriteFile path data)) ->
  keeps (on_self J) P (dump_to_tmp ext suffix data).
Proof.
  intros HP. apply keeps_bind; [apply keeps_draw|]. intros uuid.
  apply keeps_bind; [apply keeps_ask|]. intros path.
  apply keeps_bind; [by apply keeps_act|]. intros _. apply keeps_ret.
Qed.

End EngineKeeps.

Section EngineMoreFacts.
Import GoStrings Engine EngineSpec EngineMore.
Context {W : Type} (ext : Collaborators W).

Implicit Types (s : State W) (ev : Event) (l : list Event).

Lemma runHelmInstall_unfold s :
  runHelmInstall ext s
  = match Stat ext (world s) (chartPath ext s) with
    | StatNotExist => (s, Ok tt)
    | _ => helm_step ext s
    end.
Proof.
  unfold runHelmInstall, chartPath.
  unfold bind at 1, ask at 1, checkHelmChart.
  assert (Hstep :
    (do m <- ask (fun _ m => m);
     let helmReleaseName := generateHelmReleaseName m in
     do valuesPath <- prepareValuesYamlFile ext;
     do rendered <- ask (fun w _ =>
                      Render ext w (Path m) [valuesPath] [] (AppNamespace ext));
     log_call (CallRender (Path m) [valuesPath] [] (AppNamespace ext) rendered) ;;
     do renderedManifests <- query (fun _ _ => rendered);
     let checksum := CalculateStringsChecksum ext renderedManifests in
     do manifests <- query (fun _ _ =>
                       GetManifestListFromYamlDocuments ext renderedManifests);
     set_LastReleaseManifests manifests ;;
     do runUpgradeRelease <- query (fun w _ =>
                               ShouldRunHelmUpgrade ext helmReleaseName checksum
                                                    manifests w);
     if negb runUpgradeRelease then
       do hasMonitor <- ask (fun w _ => HasMonitor ext w (Name m));
       if negb hasMonitor
       then act_ (CallStartMonitor (Name m) manifests (AppNamespace ext))
                 (StartMonitor ext (Name m) manifests (AppNamespace ext))
       else ret tt
     else
       let setValues := [checksum_key +:+ "=" +:+ checksum] in
       act (CallUpgradeRelease helmReleaseName (Path m) [valuesPath]
                               setValues (AppNamespace ext))
           (UpgradeRelease ext helmReleaseName (Path m) [valuesPath]
                           setValues (AppNamespace ext)) ;;
       act_ (CallStartMonitor (Name m) manifests (AppNamespace ext))
            (StartMonitor ext (Name m) manifests (AppNamespace ext))) s
    = helm_step ext s).
  { unfold helm_step, prepareValuesYamlFile, dump_to_tmp, valuesYamlPath.
    unfold bind, ask, query, draw, act, act_, log_call,
      set_LastReleaseManifests, ret, generateHelmReleaseName. simpl.
    destruct (YamlMarshal ext (ModuleValues ext (world s) (self s)))
      as [data|e]; [|done].
    destruct (NewUUID ext (world s)) as [w1 uuid]. simpl.
    destruct (WriteFile ext _ data w1) as [w2 [e|]]; simpl; [done|].
    destruct (Render ext w2 _ _ _ _) as [rendered|e]; simpl; [|done].
    destruct (GetManifestListFromYamlDocuments ext rendered)
      as [manifests|e]; simpl; [|done].
    destruct (ShouldRunHelmUpgrade ext _ _ manifests w2) as [[|]|e];
      simpl; [| |done].
    - destruct (UpgradeRelease ext _ _ _ _ _ w2) as [w3 [e|]]; simpl; [done|].
      by rewrite <- !app_assoc.
    - by destruct (HasMonitor ext w2 (Name (self s))). }
  destruct (Stat ext (world s) (Join ext (Path (self s)) "Chart.yaml"));
    simpl; [done|exact Hstep..].
Qed.

(** *** Hooks *)

Lemma act_Err ev (f : W -> W * option error) s s' e :
  act ev f s = (s', Err e) ->
  exists w', f (world s) = (w', Some e)
             /\ s' = {| world := w'; self := self s; trace := trace s ++ [ev] |}.
Proof.
  unfold act. destruct (f (world s)) as [w' [e'|]]; simpl; [|done].
  intros [= <- <-]. by exists w'.
Qed.

Lemma run_hooks_Err binding hooks s s' e :
  run_hooks ext binding hooks s = (s', Err e) ->
  self s' = self s
  /\ exists ran hook rest w l,
       hooks = ran ++ hook :: rest
       /\ trace s' = trace s ++ l
       /\ hook_calls binding (ran ++ [hook]) l
       /\ HookRun ext hook binding [hook_context ext w hook binding] w
          = (world s', Some e).
Proof.
  revert s. induction hooks as [|h hooks IH]; intros s; simpl; [done|].
  intros H. apply bind_inv in H as [(s1 & bc & Hbc & H)|(e' & Hbc & _)];
    [|done].
  injection Hbc as <- <-.
  apply bind_inv in H as [(s2 & [] & Hact & H)|(e' & Hact & [= <-])].
  - apply act_Ok in Hact as (w' & Hw & ->).
    apply IH in H as (Hself & ran & hook & rest & w & l & -> & Htr & Hl & Hrun).
    simpl in *. split; [done|].
    exists (h :: ran), hook, rest, w. eexists (_ :: l).
    rewrite Htr, <- app_assoc. split_and!; try done.
    constructor; [by eexists|done].
  - apply act_Err in Hact as (w' & Hw & ->). simpl. split; [done|].
    exists [], h, hooks, (world s). eexists [_]. split_and!; try done.
    constructor; [by eexists|constructor].
Qed.

(** X12.  The hooks of a binding stop at the first failure.  When
    runHooksByBinding returns an error, the hooks in order are some
    hooks that ran, the hook that failed and hooks that were not run:
    the calls made are those of the first and of the failed hook, and
    the error is what the failed hook returned. *)
Theorem runHooksByBinding_stops_at_first_failure
    (binding : BindingType) s s' (e : error) :
  runHooksByBinding ext binding s = (s', Err e) ->
  exists ran hook rest w l,
    GetModuleHooksInOrder ext (world s) (Name (self s)) binding
    = ran ++ hook :: rest
    /\ trace s' = trace s ++ l
    /\ hook_calls binding (ran ++ [hook]) l
    /\ HookRun ext hook binding [hook_context ext w hook binding] w
       = (world s', Some e).
Proof.
  unfold runHooksByBinding. intros H.
  apply bind_inv in H as [(s1 & hooks & Hh & H)|(e' & Hh & _)]; [|done].
  injection Hh as <- <-.
  apply run_hooks_Err in H as (_ & ran & hook & rest & w & l & H).
  by exists ran, hook, rest, w, l.
Qed.

(** X13.  The values are reported changed only when they are: when
    runHooksByBindingAndCheckValues returns true, the values of the
    module after the hooks are not its values before them.  So a
    binding without hooks never reports a change. *)
Theorem changed_values_have_changed (binding : BindingType) s s' :
  runHooksByBindingAndCheckValues ext binding s = (s', Ok true) ->
  ModuleValues ext (world s') (self s) <> ModuleValues ext (world s) (self s)
  /\ GetModuleHooksInOrder ext (world s) (Name (self s)) binding <> [].
Proof.
  intros H.
  pose proof (runHooksByBindingAndCheckValues_Ok ext _ _ _ _ H)
    as (Hself & before & after & l & _ & _ & Hb & Ha & Hv).
  assert (Hne : ModuleValues ext (world s') (self s)
                <> ModuleValues ext (world s) (self s)).
  { intros Heq. rewrite Hself in Ha. unfold values_checksum in Ha, Hb.
    rewrite Heq, Hb in Ha. injection Ha as <-.
    by rewrite String.eqb_refl in Hv. }
  split; [done|]. intros Hnone. apply Hne.
  unfold runHooksByBindingAndCheckValues in H.
  unfold bind at 1, ask at 1 in H. rewrite Hnone in H.
  apply bind_Ok in H as (s1 & c1 & Hs1 & H).
  apply sample_checksum_Ok in Hs1 as (_ & ->).
  apply bind_Ok in H as (s2 & [] & Hrun & H). injection Hrun as <-.
  apply bind_Ok in H as (s3 & c2 & Hs3 & H).
  apply sample_checksum_Ok in Hs3 as (_ & ->). simpl in H.
  by destruct (negb (String.eqb c2 c1)); injection H as <-.
Qed.

(** *** The run of a module *)

Lemma cleanup_Err s s1 e :
  cleanup ext s = (s1, Err e) ->
  self s1 = self s
  /\ exists l, trace s1 = trace s ++ l /\ l <> [] /\ Forall is_cleanup_call l.
Proof.
  unfold cleanup. intros H.
  apply bind_inv in H as [(s0 & [chartExists err] & Hc & H)|(e' & Hc & _)];
    [|done].
  injection Hc as <- _.
  destruct (negb chartExists && bool_decide (err <> None)); [done|].
  apply bind_inv in H as [(s0 & rel & Hrel & H)|(e' & Hrel & _)]; [|done].
  injection Hrel as <- <-.
  apply bind_inv in H as [(s2 & [] & Hact & H)|(e' & Hact & [= <-])].
  - apply act_Ok in Hact as (w1 & _ & ->).
    apply act_Err in H as (w2 & _ & ->). simpl.
    split; [done|]. eexists [_; _].
    rewrite <- app_assoc. split; [done|]. split; [done|].
    by repeat constructor.
  - apply act_Err in Hact as (w1 & _ & ->). simpl.
    split; [done|]. eexists [_].
    split; [done|]. split; [done|]. by repeat constructor.
Qed.

(** X14.  When the clean-up of the failed revisions fails, Module.Run
    returns its error at once: the resources monitor has not been
    stopped and no hook has run; the only calls made are those of the
    clean-up. *)
Theorem Run_stops_at_failed_cleanup (onStartup : bool)
    (afterStartupCb : W -> W * option error) s s1 (e : error) :
  cleanup ext s = (s1, Err e) ->
  Run ext onStartup afterStartupCb s = (s1, Err e)
  /\ self s1 = self s
  /\ exists l, trace s1 = trace s ++ l /\ l <> []
               /\ Forall is_cleanup_call l.
Proof.
  intros H. split.
  - unfold Run. by rewrite (bind_Err _ _ _ _ _ H).
  - apply cleanup_Err in H as (Hself & Hl). by split.
Qed.

Lemma keeps_no_chart_cleanup (m0 : Module) P :
  (forall w, Stat ext w (Join ext (Path m0) "Chart.yaml") = StatNotExist) ->
  keeps (on_self (fun m => m = m0)) P (cleanup ext).
Proof.
  intros Hno s s' r HI. unfold cleanup.
  unfold bind at 1, ask at 1, checkHelmChart.
  unfold on_self in HI. rewrite HI, Hno. simpl.
  intros [= <- <-]. split; [done|]. exists []. by rewrite app_nil_r.
Qed.

Lemma keeps_no_chart_runHelmInstall (m0 : Module) P :
  (forall w, Stat ext w (Join ext (Path m0) "Chart.yaml") = StatNotExist) ->
  keeps (on_self (fun m => m = m0)) P (runHelmInstall ext).
Proof.
  intros Hno s s' r HI. rewrite runHelmInstall_unfold.
  unfold chartPath. unfold on_self in HI. rewrite HI, Hno.
  intros [= <- <-]. split; [done|]. exists []. by rewrite app_nil_r.
Qed.

(** X15.  A module without a chart is a module of hooks only.  When
    there is no Chart.yaml in the module's directory, Module.Run,
    whatever it returns, has made no call of the clean-up and none of
    the Helm step: it has stopped the monitor, run hooks and the
    start-up callback and sampled the values checksum, and has left
    the module's recorded manifests as they were. *)
Theorem Run_without_chart (onStartup : bool)
    (afterStartupCb : W -> W * option error) s s' (r : result bool) :
  (forall w, Stat ext w (chartPath ext s) = StatNotExist) ->
  Run ext onStartup afterStartupCb s = (s', r) ->
  self s' = self s
  /\ exists l, trace s' = trace s ++ l /\ Forall is_hook_phase_call l.
Proof.
  intros Hno H.
  assert (Hkeeps : keeps (on_self (fun m => m = self s)) is_hook_phase_call
                         (Run ext onStartup afterStartupCb)).
  { unfold Run.
    apply keeps_bind; [by apply keeps_no_chart_cleanup|]. intros _.
    apply keeps_bind; [apply keeps_ask|]. intros name.
    apply keeps_bind; [by apply keeps_act_|]. intros _.
    apply keeps_bind.
    { destruct onStartup; [|apply keeps_ret].
      apply keeps_bind; [by apply keeps_runHooksByBinding|]. intros _.
      by apply keeps_act. }
    intros _.
    apply keeps_bind; [by apply keeps_runHooksByBinding|]. intros _.
    apply keeps_bind; [by apply keeps_no_chart_runHelmInstall|]. intros _.
    apply keeps_bind; [by apply keeps_runHooksByBindingAndCheckValues|].
    intros valuesChanged. apply keeps_ret. }
  by apply (Hkeeps s s' r).
Qed.

(** *** The Helm step *)

(** X16.  The release is upgraded exactly when ShouldRunHelmUpgrade
    says so.  After a successful Helm step of a module with a chart,
    the calls that follow the rendering are, when ShouldRunHelmUpgrade
    answered true, the upgrade of the release with the checksum of the
    rendering as [_addonOperatorModuleChecksum] and the start of the
    monitor; when it answered false, no upgrade, and the start of the
    monitor only if the module had none. *)
Theorem runHelmInstall_upgrades_when_required s s' :
  Stat ext (world s) (chartPath ext s) <> StatNotExist ->
  runHelmInstall ext s = (s', Ok tt) ->
  exists data w2 uuid rendered manifests decision,
    let m := self s in
    let ns := AppNamespace ext in
    let valuesPath := valuesYamlPath ext m uuid in
    let checksum := CalculateStringsChecksum ext rendered in
    let start := CallStartMonitor (Name m) manifests ns in
    Render ext w2 (Path m) [valuesPath] [] ns = Ok rendered
    /\ GetManifestListFromYamlDocuments ext rendered = Ok manifests
    /\ ShouldRunHelmUpgrade ext (Name m) checksum manifests w2 = Ok decision
    /\ trace s'
       = trace s
         ++ [CallWriteFile valuesPath data;
             CallRender (Path m) [valuesPath] [] ns (Ok rendered)]
         ++ (if decision
             then [CallUpgradeRelease (Name m) (Path m) [valuesPath]
                     [checksum_key +:+ "=" +:+ checksum] ns; start]
             else if HasMonitor ext w2 (Name m) then [] else [start]).
Proof.
  intros Hchart. rewrite runHelmInstall_unfold.
  assert (Hstep : helm_step ext s = (s', Ok tt) ->
    exists data w2 uuid rendered manifests decision,
      Render ext w2 (Path (self s)) [valuesYamlPath ext (self s) uuid] []
             (AppNamespace ext) = Ok rendered
      /\ GetManifestListFromYamlDocuments ext rendered = Ok manifests
      /\ ShouldRunHelmUpgrade ext (Name (self s))
           (CalculateStringsChecksum ext rendered) manifests w2 = Ok decision
      /\ trace s'
         = trace s
           ++ [CallWriteFile (valuesYamlPath ext (self s) uuid) data;
               CallRender (Path (self s)) [valuesYamlPath ext (self s) uuid]
                          [] (AppNamespace ext) (Ok rendered)]
           ++ (if decision
               then [CallUpgradeRelease (Name (self s)) (Path (self s))
                       [valuesYamlPath ext (self s) uuid]
                       [checksum_key +:+ "=" +:+
                        CalculateStringsChecksum ext rendered]
                       (AppNamespace ext);
                     CallStartMonitor (Name (self s)) manifests
                                      (AppNamespace ext)]
               else if HasMonitor ext w2 (Name (self s)) then []
                    else [CallStartMonitor (Name (self s)) manifests
                                           (AppNamespace ext)])).
  { unfold helm_step.
    destruct (YamlMarshal ext _) as [data|e0]; [|done].
    destruct (NewUUID ext (world s)) as [w1 uuid].
    destruct (WriteFile ext _ data w1) as [w2 [e0|]]; [done|].
    destruct (Render ext w2 _ _ _ _) as [rendered|e0] eqn:Hrender; [|done].
    destruct (GetManifestListFromYamlDocuments ext rendered)
      as [manifests|e0] eqn:Hparse; [|done].
    destruct (ShouldRunHelmUpgrade ext _ _ manifests w2)
      as [decision|e0] eqn:Hshould; [|done].
    intros H. exists data, w2, uuid, rendered, manifests, decision.
    split; [exact Hrender|]. split; [exact Hparse|].
    split; [exact Hshould|].
    destruct decision.
    - destruct (UpgradeRelease ext _ _ _ _ _ w2) as [w3 [e0|]]; [done|].
      injection H as <-. simpl. by rewrite <- !app_assoc.
    - destruct (HasMonitor ext w2 (Name (self s))); injection H as <-;
        simpl; by rewrite <- ?app_assoc, ?app_nil_r. }
  destruct (Stat ext (world s) (chartPath ext s)); [done|exact Hstep..].
Qed.

(** X17.  A Helm step that fails never starts the resources monitor;
    and when it fails after the chart was rendered and parsed, in
    ShouldRunHelmUpgrade or in the upgrade of the release, the module
    has recorded the manifests of this rendering all the same. *)
Theorem failed_Helm_step (s s' : State W) (e : error) :
  runHelmInstall ext s = (s', Err e) ->
  exists l,
    trace s' = trace s ++ l
    /\ Forall (fun ev => ~ is_start_call ev) l
    /\ forall valuesPath rendered manifests,
         CallRender (Path (self s)) [valuesPath] [] (AppNamespace ext)
                    (Ok rendered) ∈ l ->
         GetManifestListFromYamlDocuments ext rendered = Ok manifests ->
         LastReleaseManifests (self s') = manifests.
Proof.
  rewrite runHelmInstall_unfold.
  assert (Hstep : helm_step ext s = (s', Err e) ->
    exists l,
      trace s' = trace s ++ l
      /\ Forall (fun ev => ~ is_start_call ev) l
      /\ forall valuesPath rendered manifests,
           CallRender (Path (self s)) [valuesPath] [] (AppNamespace ext)
                      (Ok rendered) ∈ l ->
           GetManifestListFromYamlDocuments ext rendered = Ok manifests ->
           LastReleaseManifests (self s') = manifests).
  { unfold helm_step.
    destruct (YamlMarshal ext _) as [data|e0].
    2:{ intros [= <- <-]. exists []. rewrite app_nil_r.
        split; [done|]. split; [constructor|].
        intros ??? Hin. by apply elem_of_nil in Hin. }
    destruct (NewUUID ext (world s)) as [w1 uuid].
    destruct (WriteFile ext _ data w1) as [w2 [e0|]].
    { intros [= <- <-]. eexists [_]. split; [done|].
      split; [repeat (constructor; [by intros []|]); constructor|].
      intros ??? Hin. by apply list_elem_of_singleton in Hin. }
    destruct (Render ext w2 _ _ _ _) as [rendered|e0] eqn:Hrender.
    2:{ intros [= <- <-]. eexists [_; _]. rewrite <- app_assoc.
        split; [done|]. split; [repeat (constructor; [by intros []|]); constructor|].
        intros ??? Hin.
        apply elem_of_cons in Hin as [?|Hin]; [done|].
        by apply list_elem_of_singleton in Hin. }
    assert (Hin : forall valuesPath rendered0 (l0 : list Event),
      CallRender (Path (self s)) [valuesPath] [] (AppNamespace ext)
                 (Ok rendered0)
      ∈ [CallWriteFile (valuesYamlPath ext (self s) uuid) data;
         CallRender (Path (self s)) [valuesYamlPath ext (self s) uuid] []
                    (AppNamespace ext) (Ok rendered)] ++ l0 ->
      Forall (fun ev => is_upgrade_call ev) l0 ->
      rendered0 = rendered).
    { intros vp r0 l0 Hin Hl0.
      apply elem_of_cons in Hin as [?|Hin]; [done|].
      apply elem_of_cons in Hin as [Heq|Hin]; [congruence|].
      rewrite Forall_forall in Hl0. by apply Hl0 in Hin. }
    destruct (GetManifestListFromYamlDocuments ext rendered)
      as [manifests|e0] eqn:Hparse.
    2:{ intros [= <- <-]. eexists [_; _]. rewrite <- app_assoc.
        split; [done|]. split; [repeat (constructor; [by intros []|]); constructor|].
        intros vp r0 ms Hr Hms.
        rewrite (Hin vp r0 [] Hr) in Hms by constructor. congruence. }
    destruct (ShouldRunHelmUpgrade ext _ _ manifests w2) as [[|]|e0].
    - destruct (UpgradeRelease ext _ _ _ _ _ w2) as [w3 [e0|]]; [|done].
      intros [= <- <-]. eexists [_; _; _]. simpl. rewrite <- !app_assoc.
      split; [done|]. split; [repeat (constructor; [by intros []|]); constructor|].
      intros vp r0 ms Hr Hms.
      rewrite (Hin vp r0 [_] Hr) in Hms by (by repeat constructor).
      congruence.
    - by destruct (HasMonitor ext w2 (Name (self s))).
    - intros [= <- <-]. eexists [_; _]. simpl. rewrite <- !app_assoc.
      split; [done|]. split; [repeat (constructor; [by intros []|]); constructor|].
      intros vp r0 ms Hr Hms.
      rewrite (Hin vp r0 [] Hr) in Hms by constructor. congruence. }
  destruct (Stat ext (world s) (chartPath ext s)); [done|exact Hstep..].
Qed.

End EngineMoreFacts.

Section EngineMoreExamples.
Import GoStrings Engine EngineSpec Installation EngineMore.

(** The second of three BeforeHelm hooks fails: the third is not run. *)
Lemma runHooksByBinding_stops_at_first_failure_witness :
  let ext := broken three_hooks (hook_fails "010-app/hooks/b") in
  let s' := (runHooksByBinding ext BeforeHelm start).1 in
  runHooksByBinding ext BeforeHelm start = (s', Err "exit status 1")
  /\ exists ran hook rest w l,
       GetModuleHooksInOrder ext (world start) (Name (self start)) BeforeHelm
       = ran ++ hook :: rest
       /\ trace s' = trace start ++ l
       /\ hook_calls BeforeHelm (ran ++ [hook]) l
       /\ HookRun ext hook BeforeHelm [hook_context ext w hook BeforeHelm] w
          = (world s', Some "exit status 1").
Proof.
  intros ext s'.
  assert (H : runHooksByBinding ext BeforeHelm start
              = (s', Err "exit status 1")) by (vm_compute; reflexivity).
  split; [exact H|].
  exact (runHooksByBinding_stops_at_first_failure ext BeforeHelm start s'
           "exit status 1" H).
Defined.

(** The AfterHelm hook of the first install changes the values. *)
Lemma changed_values_have_changed_witness :
  let ext := installed first_install in
  let s' := (runHooksByBindingAndCheckValues ext AfterHelm start).1 in
  runHooksByBindingAndCheckValues ext AfterHelm start = (s', Ok true)
  /\ ModuleValues ext (world s') (self start)
     <> ModuleValues ext (world start) (self start)
  /\ GetModuleHooksInOrder ext (world start) (Name (self start)) AfterHelm
     <> [].
Proof.
  intros ext s'.
  assert (H : runHooksByBindingAndCheckValues ext AfterHelm start
              = (s', Ok true)) by (vm_compute; reflexivity).
  split; [exact H|].
  exact (changed_values_have_changed ext AfterHelm start s' H).
Defined.

(** The deletion of the failed revision fails. *)
Lemma Run_stops_at_failed_cleanup_witness :
  let ext := broken first_install (cleanup_fails "helm: timeout") in
  let s1 := (cleanup ext start).1 in
  cleanup ext start = (s1, Err "helm: timeout")
  /\ Run ext true no_callback start = (s1, Err "helm: timeout")
  /\ self s1 = self start
  /\ exists l, trace s1 = trace start ++ l /\ l <> []
               /\ Forall (is_cleanup_call) l.
Proof.
  intros ext s1.
  assert (H : cleanup ext start = (s1, Err "helm: timeout"))
    by (vm_compute; reflexivity).
  split; [exact H|].
  exact (Run_stops_at_failed_cleanup ext true no_callback start s1
           "helm: timeout" H).
Defined.

(** A run of a module without a chart. *)
Lemma Run_without_chart_witness :
  let ext := installed hooks_only in
  let s' := (Run ext false no_callback start).1 in
  (forall w, Stat ext w (chartPath ext start) = StatNotExist)
  /\ Run ext false no_callback start = (s', Ok true)
  /\ self s' = self start
  /\ exists l, trace s' = trace start ++ l /\ Forall is_hook_phase_call l.
Proof.
  intros ext s'.
  assert (Hno : forall w, Stat ext w (chartPath ext start) = StatNotExist)
    by (intros w; reflexivity).
  assert (H : Run ext false no_callback start = (s', Ok true))
    by (vm_compute; reflexivity).
  split; [exact Hno|]. split; [exact H|].
  exact (Run_without_chart ext false no_callback start s' (Ok true) Hno H).
Defined.

(** A release that is up to date is left alone. *)
Lemma runHelmInstall_upgrades_when_required_witness :
  let ext := installed (up_to_date true) in
  let s' := (runHelmInstall ext start).1 in
  Stat ext (world start) (chartPath ext start) <> StatNotExist
  /\ runHelmInstall ext start = (s', Ok tt)
  /\ exists data w2 uuid rendered manifests decision,
       Render ext w2 (Path app) [valuesYamlPath ext app uuid] []
              (AppNamespace ext) = Ok rendered
       /\ GetManifestListFromYamlDocuments ext rendered = Ok manifests
       /\ ShouldRunHelmUpgrade ext (Name app)
            (CalculateStringsChecksum ext rendered) manifests w2
          = Ok decision
       /\ trace s'
          = trace start
            ++ [CallWriteFile (valuesYamlPath ext app uuid) data;
                CallRender (Path app) [valuesYamlPath ext app uuid] []
                           (AppNamespace ext) (Ok rendered)]
            ++ (if decision
                then [CallUpgradeRelease (Name app) (Path app)
                        [valuesYamlPath ext app uuid]
                        [checksum_key +:+ "=" +:+
                         CalculateStringsChecksum ext rendered]
                        (AppNamespace ext);
                      CallStartMonitor (Name app) manifests
                                       (AppNamespace ext)]
                else if HasMonitor ext w2 (Name app) then []
                     else [CallStartMonitor (Name app) manifests
                                            (AppNamespace ext)]).
Proof.
  intros ext s'.
  assert (Hchart : Stat ext (world start) (chartPath ext start)
                   <> StatNotExist) by discriminate.
  assert (H : runHelmInstall ext start = (s', Ok tt))
    by (vm_compute; reflexivity).
  split; [exact Hchart|]. split; [exact H|].
  exact (runHelmInstall_upgrades_when_required ext start s' Hchart H).
Defined.

(** The upgrade of the release fails on a first install. *)
Lemma failed_Helm_step_witness :
  let ext := broken first_install (upgrade_fails "helm: timeout") in
  let s' := (runHelmInstall ext start).1 in
  runHelmInstall ext start = (s', Err "helm: timeout")
  /\ exists l,
       trace s' = trace start ++ l
       /\ Forall (fun ev => ~ is_start_call ev) l
       /\ forall valuesPath rendered manifests,
            CallRender (Path (self start)) [valuesPath] [] (AppNamespace ext)
                       (Ok rendered) ∈ l ->
            GetManifestListFromYamlDocuments ext rendered = Ok manifests ->
            LastReleaseManifests (self s') = manifests.
Proof.
  intros ext s'.
  assert (H : runHelmInstall ext start = (s', Err "helm: timeout"))
    by (vm_compute; reflexivity).
  split; [exact H|].
  exact (failed_Helm_step ext start s' "helm: timeout" H).
Defined.

End EngineMoreExamples.

(** ** Module.Delete and the files of the enabled script *)

Section DeleteFacts.
Import GoStrings Engine EngineSpec EngineMore EngineDelete.
Context {W : Type} (ext : Collaborators W).
Context (DeleteRelease : string -> W -> W * option error).

Implicit Types (s : State W) (ev : Event) (l : list Event).

Lemma keeps_act_on_world J P (f : W -> W * option error) :
  keeps (on_self J) P (act_on_world f).
Proof.
  intros s s' r HI. unfold act_on_world.
  destruct (f (world s)) as [w' err]. intros [= <- <-].
  split; [done|]. exists []. by rewrite app_nil_r.
Qed.

(** The state Delete is in after it has stopped the monitor. *)
Lemma Delete_after_stop s :
  Delete ext DeleteRelease s
  = (do (chartExists, _) <- ask (checkHelmChart ext);
     (if chartExists then
        do releaseExists <- ask (release_exists ext);
        if negb releaseExists then ret tt
        else
          do releaseName <- ask (fun _ m => generateHelmReleaseName m);
          act_on_world (DeleteRelease releaseName)
      else ret tt) ;;
     runHooksByBinding ext AfterDeleteHelm)
      {| world := StopMonitor ext (Name (self s)) (world s);
         self := self s;
         trace := trace s ++ [CallStopMonitor (Name (self s))] |}.
Proof. reflexivity. Qed.

(** X18.  Module.Delete stops the resources monitor of the module
    before anything else, and the only other calls it records are the
    runs of AfterDeleteHelm hooks, whatever it returns; the module is
    left as it was. *)
Theorem Delete_stops_monitor_first s s' (r : result unit) :
  Delete ext DeleteRelease s = (s', r) ->
  self s' = self s
  /\ exists l,
       trace s' = trace s ++ CallStopMonitor (Name (self s)) :: l
       /\ Forall (fun ev => exists hook bc,
                    ev = CallHookRun hook AfterDeleteHelm bc) l.
Proof.
  rewrite Delete_after_stop. intros H.
  set (P := fun ev => exists hook bc, ev = CallHookRun hook AfterDeleteHelm bc).
  assert (Hkeeps : keeps (on_self (fun m => m = self s)) P
    (do (chartExists, _) <- ask (checkHelmChart ext);
     (if chartExists then
        do releaseExists <- ask (release_exists ext);
        if negb releaseExists then ret tt
        else
          do releaseName <- ask (fun _ m => generateHelmReleaseName m);
          act_on_world (DeleteRelease releaseName)
      else ret tt) ;;
     runHooksByBinding ext AfterDeleteHelm)).
  { apply keeps_bind; [apply keeps_ask|]. intros [chartExists err].
    apply keeps_bind.
    - destruct chartExists; [|apply keeps_ret].
      apply keeps_bind; [apply keeps_ask|]. intros releaseExists.
      destruct (negb releaseExists); [apply keeps_ret|].
      apply keeps_bind; [apply keeps_ask|]. intros releaseName.
      apply keeps_act_on_world.
    - intros _. apply keeps_runHooksByBinding. intros hook bc.
      by exists hook, bc. }
  edestruct Hkeeps as (Hself & l & Htr & Hl); [|exact H|]; [reflexivity|].
  split; [done|]. exists l. simpl in Htr.
  by rewrite Htr, <- app_assoc.
Qed.

Lemma Delete_unfold s :
  Delete ext DeleteRelease s
  = let name := Name (self s) in
    let w1 := StopMonitor ext name (world s) in
    let stopped := trace s ++ [CallStopMonitor name] in
    let hooks w :=
      runHooksByBinding ext AfterDeleteHelm
        {| world := w; self := self s; trace := stopped |} in
    match Stat ext w1 (chartPath ext s) with
    | StatNotExist => hooks w1
    | _ =>
        match IsReleaseExists ext w1 name with
        | Ok true =>
            match DeleteRelease name w1 with
            | (w2, Some e) =>
                ({| world := w2; self := self s; trace := stopped |}, Err e)
            | (w2, None) => hooks w2
            end
        | _ => hooks w1
        end
    end.
Proof.
  rewrite Delete_after_stop. cbv zeta.
  unfold bind at 1, ask at 1, checkHelmChart, chartPath. simpl.
  assert (Hchart :
    bind (do releaseExists <- ask (release_exists ext);
          if negb releaseExists then ret tt
          else
            do releaseName <- ask (fun _ m => generateHelmReleaseName m);
            act_on_world (DeleteRelease releaseName))
         (fun _ => runHooksByBinding ext AfterDeleteHelm)
         {| world := StopMonitor ext (Name (self s)) (world s);
            self := self s;
            trace := trace s ++ [CallStopMonitor (Name (self s))] |}
    = match IsReleaseExists ext (StopMonitor ext (Name (self s)) (world s))
                            (Name (self s)) with
      | Ok true =>
          match DeleteRelease (Name (self s))
                  (StopMonitor ext (Name (self s)) (world s)) with
          | (w2, Some e) =>
              ({| world := w2; self := self s;
                  trace := trace s ++ [CallStopMonitor (Name (self s))] |},
               Err e)
          | (w2, None) =>
              runHooksByBinding ext AfterDeleteHelm
                {| world := w2; self := self s;
                   trace := trace s ++ [CallStopMonitor (Name (self s))] |}
          end
      | _ =>
          runHooksByBinding ext AfterDeleteHelm
            {| world := StopMonitor ext (Name (self s)) (world s);
               self := self s;
               trace := trace s ++ [CallStopMonitor (Name (self s))] |}
      end).
  { unfold bind at 1 2, ask at 1, release_exists, generateHelmReleaseName.
    simpl.
    destruct (IsReleaseExists ext _ (Name (self s))) as [[|]|e0]; simpl;
      [|done..].
    unfold bind at 1, ask at 1, act_on_world. simpl.
    by destruct (DeleteRelease _ _) as [w2 [e0|]]. }
  destruct (Stat ext _ _); [done|exact Hchart..].
Qed.

(** X19.  An error of Module.Delete is the error of the deletion of the
    release or of an AfterDeleteHelm hook.  The release is deleted only
    when the module has a chart and IsReleaseExists answers true; when
    the deletion fails no hook is run.  An error of IsReleaseExists is
    not returned: the hooks run as without a release. *)
Theorem Delete_error s s' (e : error) :
  Delete ext DeleteRelease s = (s', Err e) ->
  let name := Name (self s) in
  let w1 := StopMonitor ext name (world s) in
  let stopped := trace s ++ [CallStopMonitor name] in
  (exists w2,
      Stat ext w1 (chartPath ext s) <> StatNotExist
      /\ IsReleaseExists ext w1 name = Ok true
      /\ DeleteRelease name w1 = (w2, Some e)
      /\ s' = {| world := w2; self := self s; trace := stopped |})
  \/ (exists w2,
        runHooksByBinding ext AfterDeleteHelm
          {| world := w2; self := self s; trace := stopped |} = (s', Err e)
        /\ (w2 = w1
            \/ (Stat ext w1 (chartPath ext s) <> StatNotExist
                /\ IsReleaseExists ext w1 name = Ok true
                /\ DeleteRelease name w1 = (w2, None)))).
Proof.
  rewrite Delete_unfold. cbv zeta.
  set (name := Name (self s)).
  set (w1 := StopMonitor ext name (world s)).
  set (stopped := trace s ++ [CallStopMonitor name]).
  assert (Hchart :
    Stat ext w1 (chartPath ext s) <> StatNotExist ->
    match IsReleaseExists ext w1 name with
    | Ok true =>
        match DeleteRelease name w1 with
        | (w2, Some e) =>
            ({| world := w2; self := self s; trace := stopped |}, Err e)
        | (w2, None) =>
            runHooksByBinding ext AfterDeleteHelm
              {| world := w2; self := self s; trace := stopped |}
        end
    | _ => runHooksByBinding ext AfterDeleteHelm
             {| world := w1; self := self s; trace := stopped |}
    end = (s', Err e) ->
    (exists w2,
        Stat ext w1 (chartPath ext s) <> StatNotExist
        /\ IsReleaseExists ext w1 name = Ok true
        /\ DeleteRelease name w1 = (w2, Some e)
        /\ s' = {| world := w2; self := self s; trace := stopped |})
    \/ (exists w2,
          runHooksByBinding ext AfterDeleteHelm
            {| world := w2; self := self s; trace := stopped |} = (s', Err e)
          /\ (w2 = w1
              \/ (Stat ext w1 (chartPath ext s) <> StatNotExist
                  /\ IsReleaseExists ext w1 name = Ok true
                  /\ DeleteRelease name w1 = (w2, None))))).
  { intros Hstat.
    destruct (IsReleaseExists ext w1 name) as [[|]|e0] eqn:Hexists.
    - destruct (DeleteRelease name w1) as [w2 [e0|]] eqn:Hdel.
      + intros [= <- <-]. left. by exists w2.
      + intros Hrun. right. exists w2. split; [done|]. by right.
    - intros Hrun. right. exists w1. split; [done|]. by left.
    - intros Hrun. right. exists w1. split; [done|]. by left. }
  destruct (Stat ext w1 (chartPath ext s)) eqn:Hstat.
  - intros Hrun. right. exists w1. split; [done|]. by left.
  - by apply Hchart.
  - by apply Hchart.
Qed.

End DeleteFacts.

Section EnabledScriptFiles.
Import GoStrings Engine EngineSpec EngineMore.
Context {W : Type} (ext : Collaborators W).

Implicit Types (s : State W) (ev : Event) (l : list Event).

(** X20.  With DEBUG_KEEP_TMP_FILES set to [yes] the check of the
    enabled script removes no file, whatever it returns. *)
Theorem enabled_script_keeps_files_on_debug (preceding : list string)
    s s' (r : result bool) :
  DebugKeepTmpFiles ext = "yes" ->
  checkIsEnabledByScript ext preceding s = (s', r) ->
  exists l, trace s' = trace s ++ l
            /\ Forall (fun ev => ~ is_remove_call ev) l.
Proof.
  intros Hdebug H.
  set (P := fun ev => ~ is_remove_call ev).
  assert (Hrm : forall path, keeps (on_self (fun _ => True)) P
                                   (remove_tmp ext path)).
  { intros path. unfold remove_tmp. rewrite Hdebug. simpl. apply keeps_ret. }
  assert (Hkeeps : keeps (on_self (fun _ => True)) P
                         (checkIsEnabledByScript ext preceding)).
  { unfold checkIsEnabledByScript.
    apply keeps_bind; [apply keeps_ask|]. intros path.
    apply keeps_bind; [apply keeps_ask|]. intros [|e|mode];
      [apply keeps_ret|apply keeps_fail|].
    destruct (negb (IsFileExecutable mode)); [apply keeps_fail|].
    unfold run_enabled_script.
    apply keeps_bind.
    { apply keeps_bind; [apply keeps_query|]. intros data.
      apply keeps_dump_to_tmp. by intros p []. }
    intros p1. apply keeps_defer; [|apply Hrm].
    apply keeps_bind.
    { apply keeps_bind; [apply keeps_query|]. intros data.
      apply keeps_dump_to_tmp. by intros p []. }
    intros p2. apply keeps_defer; [|apply Hrm].
    apply keeps_bind.
    { apply keeps_bind; [apply keeps_ask|]. intros p.
      apply keeps_bind; [apply keeps_act; by intros []|]. intros _.
      apply keeps_ret. }
    intros p3. apply keeps_defer; [|apply Hrm].
    apply keeps_bind; [apply keeps_ask|]. intros environ.
    apply keeps_bind; [apply keeps_act; by intros []|]. intros _.
    apply keeps_bind; [apply keeps_ask|]. intros [enabled|e];
      [apply keeps_ret|apply keeps_fail]. }
  by apply (Hkeeps s s' r).
Qed.

Lemma defer_remove_trace {A} path (body : M (State W) A) s :
  DebugKeepTmpFiles ext <> "yes" ->
  trace (defer (remove_tmp ext path) body s).1
  = trace (body s).1 ++ [CallRemove path].
Proof.
  intros Hdebug. unfold defer, remove_tmp.
  apply String.eqb_neq in Hdebug. rewrite Hdebug.
  destruct (body s) as [s1 r]. unfold act.
  by destruct (Remove ext path (world s1)).
Qed.

(** X21.  Once its three files are prepared, the check of the enabled
    script removes them whatever the script and its result file do: the
    calls that follow the preparation are the run of the script, with
    the three paths in its environment, and the removal of the result
    file, of the values file and of the config values file, in this
    order. *)
Theorem enabled_script_files_are_removed (preceding : list string) s
    (configValuesPath valuesPath resultPath : string) (s3 : State W) :
  DebugKeepTmpFiles ext <> "yes" ->
  files_prepared ext preceding s configValuesPath valuesPath resultPath s3 ->
  trace (checkIsEnabledByScript ext preceding s).1
  = trace s3
    ++ [CallRunScript (enabledScriptPath ext s)
          (script_envs ext (world s3) configValuesPath valuesPath resultPath);
        CallRemove resultPath; CallRemove valuesPath;
        CallRemove configValuesPath].
Proof.
  intros Hdebug (mode & s1 & s2 & Hstat & Hexec & H1 & H2 & H3).
  rewrite checkIsEnabledByScript_unfold, Hstat, Hexec. simpl.
  unfold run_enabled_script.
  rewrite (bind_eq _ _ _ _ _ H1), defer_remove_trace by done.
  rewrite (bind_eq _ _ _ _ _ H2), defer_remove_trace by done.
  rewrite (bind_eq _ _ _ _ _ H3), defer_remove_trace by done.
  match goal with
  | |- ((trace (?body s3).1 ++ _) ++ _) ++ _ = _ =>
      assert (Hbody : trace (body s3).1
                      = trace s3
                        ++ [CallRunScript (enabledScriptPath ext s)
                              (script_envs ext (world s3) configValuesPath
                                           valuesPath resultPath)])
  end.
  { unfold bind at 1, ask at 1. unfold bind at 1, act at 1.
    fold (script_envs ext (world s3) configValuesPath valuesPath resultPath).
    destruct (RunAndLogLines ext _ _ (world s3)) as [w [e|]]; simpl; [done|].
    unfold bind, ask. simpl.
    by destruct (readModuleEnabledResult ext resultPath w). }
  rewrite Hbody, <- !app_assoc. done.
Qed.

End EnabledScriptFiles.

Section EngineMoreExamples2.
Import GoStrings Engine EngineSpec Installation EngineMore EngineDelete.

(** The deletion of a module that has no release yet. *)
Lemma Delete_stops_monitor_first_witness :
  let ext := installed first_install in
  let s' := (Delete ext delete_release_ok start).1 in
  Delete ext delete_release_ok start = (s', Ok tt)
  /\ self s' = self start
  /\ exists l,
       trace s' = trace start ++ CallStopMonitor (Name (self start)) :: l
       /\ Forall (fun ev => exists hook bc,
                    ev = CallHookRun hook AfterDeleteHelm bc) l.
Proof.
  intros ext s'.
  assert (H : Delete ext delete_release_ok start = (s', Ok tt))
    by (vm_compute; reflexivity).
  split; [exact H|].
  exact (Delete_stops_monitor_first ext delete_release_ok start s' (Ok tt) H).
Defined.

(** The release of the module cannot be deleted. *)
Lemma Delete_error_witness :
  let ext := installed (up_to_date true) in
  let s' := (Delete ext delete_release_fails start).1 in
  Delete ext delete_release_fails start = (s', Err "release: not found")
  /\ ((exists w2,
          Stat ext (StopMonitor ext "app" 0%Z) (chartPath ext start)
          <> StatNotExist
          /\ IsReleaseExists ext (StopMonitor ext "app" 0%Z) "app" = Ok true
          /\ delete_release_fails "app" (StopMonitor ext "app" 0%Z)
             = (w2, Some "release: not found")
          /\ s' = {| world := w2; self := app;
                     trace := [] ++ [CallStopMonitor "app"] |})
      \/ (exists w2,
            runHooksByBinding ext AfterDeleteHelm
              {| world := w2; self := app;
                 trace := [] ++ [CallStopMonitor "app"] |}
            = (s', Err "release: not found")
            /\ (w2 = StopMonitor ext "app" 0%Z
                \/ (Stat ext (StopMonitor ext "app" 0%Z)
                         (chartPath ext start) <> StatNotExist
                    /\ IsReleaseExists ext (StopMonitor ext "app" 0%Z) "app"
                       = Ok true
                    /\ delete_release_fails "app" (StopMonitor ext "app" 0%Z)
                       = (w2, None))))).
Proof.
  intros ext s'.
  assert (H : Delete ext delete_release_fails start
              = (s', Err "release: not found")) by (vm_compute; reflexivity).
  split; [exact H|].
  exact (Delete_error ext delete_release_fails start s'
           "release: not found" H).
Defined.

(** The files are kept for debugging. *)
Lemma enabled_script_keeps_files_on_debug_witness :
  let ext := broken (script_writes "true") files_kept in
  let s' := (checkIsEnabledByScript ext [] start).1 in
  DebugKeepTmpFiles ext = "yes"
  /\ checkIsEnabledByScript ext [] start = (s', Ok true)
  /\ exists l, trace s' = trace start ++ l
               /\ Forall (fun ev => ~ is_remove_call ev) l.
Proof.
  intros ext s'.
  assert (Hdebug : DebugKeepTmpFiles ext = "yes") by reflexivity.
  assert (H : checkIsEnabledByScript ext [] start = (s', Ok true))
    by (vm_compute; reflexivity).
  split; [exact Hdebug|]. split; [exact H|].
  exact (enabled_script_keeps_files_on_debug ext [] start s' (Ok true)
           Hdebug H).
Defined.

(** The enabled script fails; its files are removed. *)
Lemma enabled_script_files_are_removed_witness :
  let ext := broken (script_writes "true") (script_fails "exit status 2") in
  DebugKeepTmpFiles ext <> "yes"
  /\ checkIsEnabledByScript ext [] start
     = ((checkIsEnabledByScript ext [] start).1, Err "exit status 2")
  /\ exists s3 configValuesPath valuesPath resultPath,
       trace (checkIsEnabledByScript ext [] start).1
       = trace s3
         ++ [CallRunScript (enabledScriptPath ext start)
               (script_envs ext (world s3) configValuesPath valuesPath
                            resultPath);
             CallRemove resultPath; CallRemove valuesPath;
             CallRemove configValuesPath].
Proof.
  intros ext.
  assert (Hdebug : DebugKeepTmpFiles ext <> "yes") by discriminate.
  split; [exact Hdebug|]. split; [vm_compute; reflexivity|].
  eexists _, _, _, _.
  apply (enabled_script_files_are_removed ext [] start _ _ _ _ Hdebug).
  eexists 493%Z, _, _.
  split; [reflexivity|]. split; [reflexivity|].
  split; [vm_compute; reflexivity|].
  split; [vm_compute; reflexivity|].
  vm_compute; reflexivity.
Defined.

End EngineMoreExamples2.

(** ** The modules directory *)

Section SearchFacts.
Import GoStrings Engine ModuleSearch SearchSpec.
Context {W : Type} (ext : Collaborators W).
Context (ReadDir : W -> string -> result (list FileInfo)).

Lemma FindStringSubmatch_Some name matchRes :
  FindStringSubmatch name = Some matchRes
  <-> exists moduleName,
        module_dir_name name moduleName /\ matchRes = [name; moduleName].
Proof.
  unfold FindStringSubmatch, module_dir_name.
  destruct name as [|d1 [|d2 [|d3 [|dash rest]]]].
  1-4: split; [done|]; by intros (m & (? & ? & ? & ? & _) & _).
  split.
  - destruct (ValuesKey.is_digit d1 && ValuesKey.is_digit d2
              && ValuesKey.is_digit d3 && Ascii.eqb dash "-"
              && negb (has_newline rest)) eqn:Hc; [|done].
    intros [= <-].
    apply andb_prop in Hc as [Hc Hn]. apply andb_prop in Hc as [Hc Hd].
    apply andb_prop in Hc as [Hc H3]. apply andb_prop in Hc as [H1 H2].
    apply Ascii.eqb_eq in Hd as ->. apply negb_true_iff in Hn.
    exists rest. split; [|done]. by exists d1, d2, d3.
  - intros (m & (e1 & e2 & e3 & Heq & H1 & H2 & H3 & Hn) & ->).
    injection Heq as <- <- <- -> <-.
    by rewrite H1, H2, H3, Hn.
Qed.

Lemma FindStringSubmatch_None name :
  FindStringSubmatch name = None
  <-> ~ exists moduleName, module_dir_name name moduleName.
Proof.
  split.
  - intros Hnone (m & Hm).
    assert (FindStringSubmatch name = Some [name; m]) as Hsome
      by (apply FindStringSubmatch_Some; by exists m).
    congruence.
  - intros Hno. destruct (FindStringSubmatch name) as [res|] eqn:Hf; [|done].
    exfalso. apply Hno.
    apply FindStringSubmatch_Some in Hf as (m & Hm & _). by exists m.
Qed.

(** What the loop of SearchModules has found after [files]. *)
Lemma search_loop modulesDir files modules0 bad0 :
  exists modules bad,
    foldl (search_step ext modulesDir) (modules0, bad0) files
    = (modules0 ++ modules, bad0 ++ bad)
    /\ (bad = [] <->
        Forall (fun file => is_directory file ->
                  exists moduleName,
                    module_dir_name (FileName file) moduleName) files)
    /\ (bad = [] ->
        Forall2 (module_of_dir ext modulesDir)
                (filter is_directory files) modules).
Proof.
  revert modules0 bad0. induction files as [|file files IH];
    intros modules0 bad0; simpl.
  { exists [], []. rewrite !app_nil_r. split; [done|].
    split; [by split|]. intros _. constructor. }
  destruct (IsDir file) eqn:Hdir; simpl.
  2:{ destruct (IH modules0 bad0) as (modules & bad & -> & Hbad & Hok).
      exists modules, bad. split; [done|].
      rewrite filter_cons_False by (unfold is_directory; congruence).
      split; [|done]. rewrite Hbad. split.
      - intros Hall. constructor; [|done]. unfold is_directory. congruence.
      - by intros [_ ?]%Forall_cons. }
  rewrite filter_cons_True by done.
  destruct (FindStringSubmatch (FileName file)) as [matchRes|] eqn:Hmatch.
  - apply FindStringSubmatch_Some in Hmatch as (moduleName & Hname & ->).
    simpl.
    destruct (IH (modules0 ++ [NewModule moduleName
                                 (Join ext modulesDir (FileName file))]) bad0)
      as (modules & bad & -> & Hbad & Hok).
    eexists (_ :: modules), bad. rewrite <- app_assoc. split; [done|].
    split.
    + rewrite Hbad. split.
      * intros Hall. constructor; [|done]. intros _. by exists moduleName.
      * by intros [_ ?]%Forall_cons.
    + intros Hnil. constructor; [|by apply Hok]. by split.
  - apply FindStringSubmatch_None in Hmatch.
    destruct (IH modules0 (bad0 ++ [Join ext modulesDir (FileName file)]))
      as (modules & bad & -> & Hbad & Hok).
    exists modules. eexists (_ :: bad). rewrite <- app_assoc.
    split; [done|]. split; [|done]. split; [done|].
    intros [Hfile _]%Forall_cons. exfalso. by apply Hmatch, Hfile.
Qed.

(** X22.  SearchModules on a directory that can be read returns modules
    exactly when every directory in it is named by three digits, a dash
    and a name without newline; plain files are skipped.  The modules
    are then one for each directory, in the order of the listing, with
    the name that follows the dash, the directory as path and no
    recorded manifests. *)
Theorem SearchModules_finds_module_dirs (modulesDir : string) (w : W)
    (files : list FileInfo) :
  ReadDir w modulesDir = Ok files ->
  ((exists modules, SearchModules ext ReadDir modulesDir w = Ok modules)
   <-> Forall (fun file => is_directory file ->
                 exists moduleName,
                   module_dir_name (FileName file) moduleName) files)
  /\ (forall modules,
        SearchModules ext ReadDir modulesDir w = Ok modules ->
        Forall2 (module_of_dir ext modulesDir)
                (filter is_directory files) modules).
Proof.
  intros Hread. unfold SearchModules. rewrite Hread.
  destruct (search_loop modulesDir files [] [])
    as (modules & bad & -> & Hbad & Hok).
  simpl. destruct bad as [|b bad]; simpl.
  - split.
    + split; [intros _; by apply Hbad|]. intros _. by exists modules.
    + intros ms [= <-]. by apply Hok.
  - split; [|done]. split; [by intros [ms ?]|].
    intros Hall. by apply Hbad in Hall.
Qed.

End SearchFacts.

Section RegisterFacts.
Import GoStrings Engine ModuleSearch SearchSpec.
Context {W : Type} (ext : Collaborators W).
Context (ReadDir : W -> string -> result (list FileInfo)).
Context {Values ModuleConfig : Type}.
Context (NewModuleConfig : string -> ModuleConfig)
        (LoadFromValues : ModuleConfig -> option Values -> result ModuleConfig)
        (FromYaml : ModuleConfig -> string -> result ModuleConfig)
        (NewValuesFromBytes : string -> result Values).

Implicit Types (mm : moduleManager (Values := Values)
                                   (ModuleConfig := ModuleConfig)).

Lemma register_loop_fields modules mm w mm' err :
  register_loop ext NewModuleConfig LoadFromValues FromYaml modules mm w
  = (mm', err) ->
  ModulesDir mm' = ModulesDir mm
  /\ commonStaticValues mm' = commonStaticValues mm.
Proof.
  revert mm. induction modules as [|m modules IH]; intros mm; simpl.
  - by intros [= <- <-].
  - destruct (loadStaticValues _ _ _ _ _ m w) as [loaded|e];
      [|by intros [= <- <-]].
    intros H. by apply IH in H as [? ?].
Qed.

Lemma register_loop_Ok modules mm w mm' :
  register_loop ext NewModuleConfig LoadFromValues FromYaml modules mm w
  = (mm', None) ->
  allModulesNamesInOrder mm' = allModulesNamesInOrder mm ++ (Name <$> modules)
  /\ forall name,
       match last (named name modules) with
       | Some m =>
           exists loaded,
             loadStaticValues ext NewModuleConfig LoadFromValues FromYaml
                              (commonStaticValues mm) m w = Ok loaded
             /\ allModulesByName mm' !! name = Some loaded
       | None => allModulesByName mm' !! name = allModulesByName mm !! name
       end.
Proof.
  revert mm. induction modules as [|m modules IH]; intros mm; simpl.
  - intros [= <-]. by rewrite app_nil_r.
  - destruct (loadStaticValues _ _ _ _ _ m w) as [loaded|e] eqn:Hload;
      [|done].
    intros H. apply IH in H as [Hnames Hmap]. simpl in *.
    split; [by rewrite Hnames, <- app_assoc|].
    intros name. specialize (Hmap name). unfold named in *.
    destruct (decide (Name m = name)) as [Hname|Hname].
    + rewrite filter_cons_True by done.
      destruct (filter (fun m0 => Name m0 = name) modules) as [|m1 ms] eqn:Hf.
      * simpl in *. exists loaded. split; [done|].
        by rewrite Hmap, Hname, lookup_insert_eq.
      * rewrite last_cons_cons.
        destruct (last (m1 :: ms)) eqn:Hlast; [exact Hmap|].
        by apply last_None in Hlast.
    + rewrite filter_cons_False by done.
      destruct (last (filter (fun m0 => Name m0 = name) modules)); [done|].
      by rewrite Hmap, lookup_insert_ne.
Qed.


(** X23.  After RegisterModules has returned without error, the names
    in order are the names before followed by the names of the modules
    that SearchModules found, one entry for each directory, and under a
    name the manager has the module of the last directory with that
    name, loaded with its static values; it does not refuse two
    directories with the same module name. *)
Theorem RegisterModules_registers_found_modules mm w mm' :
  RegisterModules ext ReadDir NewModuleConfig LoadFromValues FromYaml
                  NewValuesFromBytes mm w = (mm', None) ->
  exists modules,
    SearchModules ext ReadDir (ModulesDir mm) w = Ok modules
    /\ allModulesNamesInOrder mm'
       = allModulesNamesInOrder mm ++ (Name <$> modules)
    /\ forall name,
         match last (named name modules) with
         | Some m =>
             exists loaded,
               loadStaticValues ext NewModuleConfig LoadFromValues FromYaml
                                (commonStaticValues mm') m w = Ok loaded
               /\ allModulesByName mm' !! name = Some loaded
         | None => allModulesByName mm' !! name = allModulesByName mm !! name
         end.
Proof.
  unfold RegisterModules.
  destruct (SearchModules ext ReadDir (ModulesDir mm) w) as [modules|e];
    [|done].
  destruct (loadCommonStaticValues ext NewValuesFromBytes mm w)
    as [common|e]; [|done].
  intros H. exists modules. split; [done|].
  pose proof (register_loop_fields _ _ _ _ _ H) as [_ Hcommon].
  apply register_loop_Ok in H as [Hnames Hmap]. simpl in *.
  split; [done|]. intros name. specialize (Hmap name).
  by rewrite Hcommon.
Qed.


End RegisterFacts.

Section SearchExamples.
Import GoStrings Engine ModuleSearch SearchSpec.

Lemma SearchModules_finds_module_dirs_witness :
  two_versions tt "/modules"
  = Ok [ {| FileName := "010-app"; IsDir := true |};
         {| FileName := "020-app"; IsDir := true |};
         {| FileName := "values.yaml"; IsDir := false |} ]
  /\ SearchModules (files_hold "") two_versions "/modules" tt
     = Ok [NewModule "app" "/modules/010-app";
           NewModule "app" "/modules/020-app"]
  /\ Forall2 (module_of_dir (files_hold "") "/modules")
             [ {| FileName := "010-app"; IsDir := true |};
               {| FileName := "020-app"; IsDir := true |} ]
             [NewModule "app" "/modules/010-app";
              NewModule "app" "/modules/020-app"].
Proof.
  split; [reflexivity|]. split; [reflexivity|].
  apply (proj2 (SearchModules_finds_module_dirs (files_hold "") two_versions
                  "/modules" tt _ eq_refl)).
  reflexivity.
Defined.

(** Two directories of the same module: two names in order, one module
    in the manager. *)
Lemma RegisterModules_registers_found_modules_witness :
  let mm' := (RegisterModules (files_hold "replicas: 1") two_versions
                config_of_name config_of_values config_of_yaml
                values_of_bytes fresh_manager tt).1 in
  allModulesNamesInOrder mm' = ["app"; "app"]
  /\ exists modules,
       SearchModules (files_hold "replicas: 1") two_versions
                     (ModulesDir fresh_manager) tt = Ok modules
       /\ allModulesNamesInOrder mm'
          = allModulesNamesInOrder fresh_manager ++ (Name <$> modules)
       /\ forall name,
            match last (named name modules) with
            | Some m =>
                exists loaded,
                  loadStaticValues (files_hold "replicas: 1") config_of_name
                    config_of_values config_of_yaml
                    (commonStaticValues mm') m tt = Ok loaded
                  /\ allModulesByName mm' !! name = Some loaded
            | None => allModulesByName mm' !! name
                      = allModulesByName fresh_manager !! name
            end.
Proof.
  intros mm'. split; [reflexivity|].
  apply (RegisterModules_registers_found_modules (files_hold "replicas: 1")
           two_versions config_of_name config_of_values config_of_yaml
           values_of_bytes fresh_manager tt mm').
  reflexivity.
Defined.


End SearchExamples.

(** ** More on the operator *)

Section OperatorMoreFacts.
Import GoStrings Queue Operator OperatorSpec OperatorMore.
Context {W : Type} (ext : Collaborators W).

Implicit Types (s : State W) (t : Task) (q : list Task).

(** *** The result of a task *)

(** X25.  For each of the eight task types the handler returns the
    status [Success] or [Fail].  A failed task brings no tasks: it is
    retried alone.  Only the enabling of kubernetes bindings gives
    tasks for the head of the queue, only a module run and a discovery
    give tasks for its end, and only the retry of the module manager
    asks for a delay; a purge and a retry never fail. *)
Theorem TaskHandler_result_shape t s :
  let res := (TaskHandler ext t s).2 in
  (Status res = "Success" \/ Status res = "Fail")
  /\ (Status res = "Fail" ->
      HeadTasks res = [] /\ AfterTasks res = []
      /\ Type_ t <> ModulePurge /\ Type_ t <> ModuleManagerRetry)
  /\ (HeadTasks res <> [] -> Type_ t = GlobalHookEnableKubernetesBindings)
  /\ (AfterTasks res <> [] ->
      Type_ t = ModuleRun \/ Type_ t = Queue.DiscoverModulesState)
  /\ (DelayBeforeNextTask res = true <-> Type_ t = ModuleManagerRetry).
Proof.
  unfold TaskHandler. destruct (Type_ t) eqn:Ht; simpl.
  - unfold handle_GlobalHookRun, with_world.
    destruct (RunGlobalHook ext _ _ _ _) as [w' [[before after] [e|]]].
    + destruct (AllowFailure (Metadata t)); simpl;
        split_and!; try done; try (by left); try (by right).
    + destruct (match MetaBindingType (Metadata t) with
                | Some Schedule => _ | Some OnKubernetesEvent => _
                | Some AfterAll => _ | _ => None end); simpl;
        split_and!; try done; by left.
  - unfold handle_GlobalHookEnableKubernetesBindings, with_world.
    destruct (HandleGlobalEnableKubernetesBindings ext _ _)
      as [w' [infos|e]]; simpl;
      split_and!; try done; try (by left); by right.
  - destruct (handle_ModuleRun_result ext t s) as (_ & Hhead & Hafter).
    unfold handle_ModuleRun, with_world_monitors in *.
    destruct (RunModule ext _ _ _ _) as [[w' ms'] [[|]|e]]; simpl in *;
      split_and!; try done; try (by left); try (by right);
      intros _; by left.
  - unfold handle_ModuleDelete, with_world_monitors.
    destruct (DeleteModule ext _ _) as [[w' ms'] [e|]]; simpl;
      split_and!; try done; try (by left); by right.
  - unfold handle_ModulePurge, with_world.
    destruct (DeleteRelease ext _ _) as [w' err]; simpl.
    split_and!; try done; by left.
  - unfold handle_ModuleHookRun, with_world.
    destruct (RunModuleHook ext _ _ _ _) as [w' [e|]]; simpl.
    + destruct (ModuleHookLabels ext w' _) as [moduleLabel hookLabel].
      destruct (AllowFailure (Metadata t)); simpl;
        split_and!; try done; try (by left); by right.
    + split_and!; try done; by left.
  - unfold handle_DiscoverModulesState.
    destruct (RunDiscoverModulesState ext t s) as [s1 [tasks|e]]; simpl;
      split_and!; try done; try (by left); try (by right);
      intros _; by right.
  - split_and!; try done; by left.
Qed.

(** *** Reloading all *)

Lemma foldl_AddLast (f : string -> Task) hooks s :
  foldl (fun s hookName => on_queue (AddLast (f hookName)) s) s hooks
  = on_queue (fun q => q ++ (f <$> hooks)) s.
Proof.
  revert s. induction hooks as [|h hooks IH]; intros s; simpl.
  - unfold on_queue. rewrite app_nil_r. by destruct s.
  - rewrite IH. unfold on_queue, AddLast. simpl. by rewrite <- app_assoc.
Qed.

Lemma CreateReloadAllTasks_state onStartup eventDescription s :
  CreateReloadAllTasks ext onStartup eventDescription s
  = on_queue (fun q => q ++ reload_all_tasks ext (world s) eventDescription
                                             onStartup) s.
Proof.
  unfold CreateReloadAllTasks, reload_all_tasks. rewrite foldl_AddLast.
  unfold on_queue, AddLast. simpl. by rewrite <- app_assoc.
Qed.

Lemma RunDiscoverModulesState_queue t s :
  mainQueue (RunDiscoverModulesState ext t s).1 = mainQueue s.
Proof.
  unfold RunDiscoverModulesState, with_world. simpl.
  destruct (DiscoverModulesState ext (world s)) as [w' [ms|e]]; [|done].
  simpl.
  destruct (discover_delete_tasks ext _ _ (ModulesToDisable ms) w')
    as [w2 [deleteTasks|e]]; [|done]. simpl.
  destruct (discover_after_all_tasks ext _ _ w2) as [afterAllTasks|e];
    [|done].
  simpl. by rewrite foldl_on_world_queue.
Qed.

(** X26.  The handler itself adds tasks to the main queue only to
    reload all, after a global hook.  For every task the main queue
    after the handler is the queue before, or, for a successful global
    hook run, the queue before followed by a task for each beforeAll
    hook and one discovery task without the start-up flag; the
    resources monitors are then all stopped. *)
Theorem TaskHandler_queues_only_reload_all t s :
  let s' := (TaskHandler ext t s).1 in
  let res := (TaskHandler ext t s).2 in
  mainQueue s' = mainQueue s
  \/ (Type_ t = GlobalHookRun /\ Status res = "Success"
      /\ monitors s' = ∅
      /\ exists eventDescription,
           mainQueue s'
           = mainQueue s
             ++ reload_all_tasks ext (world s') eventDescription false).
Proof.
  unfold TaskHandler. destruct (Type_ t) eqn:Ht; simpl.
  - unfold handle_GlobalHookRun, with_world.
    destruct (RunGlobalHook ext _ _ _ _) as [w' [[before after] [e|]]].
    + left. by destruct (AllowFailure (Metadata t)).
    + destruct (match MetaBindingType (Metadata t) with
                | Some Schedule => _ | Some OnKubernetesEvent => _
                | Some AfterAll => _ | _ => None end) as [desc|];
        [right|by left].
      split; [done|]. split; [done|].
      rewrite CreateReloadAllTasks_state. simpl.
      split; [done|]. by exists desc.
  - left. unfold handle_GlobalHookEnableKubernetesBindings, with_world.
    by destruct (HandleGlobalEnableKubernetesBindings ext _ _)
      as [w' [infos|e]].
  - left. apply (handle_ModuleRun_result ext t s).
  - left. unfold handle_ModuleDelete, with_world_monitors.
    by destruct (DeleteModule ext _ _) as [[w' ms'] [e|]].
  - left. unfold handle_ModulePurge, with_world.
    by destruct (DeleteRelease ext _ _) as [w' err].
  - left. unfold handle_ModuleHookRun, with_world.
    destruct (RunModuleHook ext _ _ _ _) as [w' [e|]]; simpl; [|done].
    destruct (ModuleHookLabels ext w' _) as [moduleLabel hookLabel].
    by destruct (AllowFailure (Metadata t)).
  - left. unfold handle_DiscoverModulesState.
    pose proof (RunDiscoverModulesState_queue t s) as Hq.
    by destruct (RunDiscoverModulesState ext t s) as [s1 [tasks|e]].
  - by left.
Qed.

(** X27.  When all is reloaded after a global hook.  The handler of a
    GlobalHookRun task adds tasks to the main queue exactly when the
    hook returned no error and the global values changed as the binding
    of the task requires: a failed hook reloads nothing, with or
    without [allowFailure], and neither does a hook of another
    binding. *)
Theorem GlobalHookRun_reloads_all_iff t s w1
    (beforeChecksum afterChecksum : string) (err : option error) :
  Type_ t = GlobalHookRun ->
  RunGlobalHook ext (HookName (Metadata t)) (MetaBindingType (Metadata t))
                (MetaBindingContext (Metadata t)) (world s)
  = (w1, (beforeChecksum, afterChecksum, err)) ->
  mainQueue (TaskHandler ext t s).1 <> mainQueue s
  <-> err = None /\ values_changed (Metadata t) beforeChecksum afterChecksum.
Proof.
  intros Ht Hrun. unfold TaskHandler. rewrite Ht.
  unfold handle_GlobalHookRun, with_world. simpl. rewrite Hrun.
  destruct err as [e|].
  { destruct (AllowFailure (Metadata t)); simpl;
      (split; [intros Hq; exfalso; by apply Hq
           |intros Hc; destruct_and?; first [done|congruence]]). }
  unfold values_changed.
  assert (Hreload : forall desc s0,
    mainQueue s0 = mainQueue s ->
    mainQueue (CreateReloadAllTasks ext false desc (StopMonitors s0))
    <> mainQueue s).
  { intros desc s0 Hs0. rewrite CreateReloadAllTasks_state. simpl.
    rewrite Hs0. unfold reload_all_tasks. intros Heq.
    apply (f_equal length) in Heq. rewrite !length_app in Heq.
    simpl in Heq. lia. }
  destruct (MetaBindingType (Metadata t)) as [[]|]; simpl;
    try (split; [intros Hq; exfalso; by apply Hq
           |intros Hc; destruct_and?; first [done|congruence]]).
  - destruct (LastAfterAllHook (Metadata t)),
      (String.eqb_spec afterChecksum (ValuesChecksum (Metadata t)))
      as [Heq|Hne]; simpl;
      try (split; [intros Hq; exfalso; by apply Hq
           |intros Hc; destruct_and?; first [done|congruence]]).
    split; [done|]. intros _. by apply Hreload.
  - destruct (String.eqb_spec beforeChecksum afterChecksum) as [Heq|Hne];
      simpl; [split; [intros Hq; exfalso; by apply Hq
           |intros Hc; destruct_and?; first [done|congruence]]|].
    split; [done|]. intros _. by apply Hreload.
  - destruct (ReloadAllOnValuesChanges (Metadata t)),
      (String.eqb_spec beforeChecksum afterChecksum) as [Heq|Hne]; simpl;
      try (split; [intros Hq; exfalso; by apply Hq
           |intros Hc; destruct_and?; first [done|congruence]]).
    split; [done|]. intros _. by apply Hreload.
Qed.

(** *** Discovery *)

Lemma discover_delete_tasks_Ok eventDescription onStartupHooks names w w' tasks :
  discover_delete_tasks ext eventDescription onStartupHooks names w
  = (w', Ok tasks) ->
  tasks = moduleDeleteTask eventDescription <$> names.
Proof.
  revert w w' tasks.
  induction names as [|name names IH]; intros w w' tasks; simpl.
  - by intros [= _ <-].
  - destruct (if onStartupHooks then RegisterModuleHooks ext name w
              else (w, None)) as [w1 [e|]]; [done|].
    destruct (discover_delete_tasks ext eventDescription onStartupHooks
                names w1) as [w2 [tasks'|e]] eqn:Hrest; [|done].
    intros [= _ <-]. by rewrite (IH _ _ _ Hrest).
Qed.

Lemma discover_after_all_tasks_snoc eventDescription init lastHook w :
  discover_after_all_tasks ext eventDescription (init ++ [lastHook]) w
  = match GlobalValuesChecksum ext w with
    | Ok checksum =>
        Ok (((fun hookName => afterAllTask eventDescription hookName false "")
             <$> init)
            ++ [afterAllTask eventDescription lastHook true checksum])
    | Err e => Err e
    end.
Proof.
  induction init as [|hook init IH]; [done|].
  change (discover_after_all_tasks ext eventDescription
            ((hook :: init) ++ [lastHook]) w)
    with (match init ++ [lastHook] with
          | [] => match GlobalValuesChecksum ext w with
                  | Err e => Err e
                  | Ok checksum =>
                      Ok [afterAllTask eventDescription hook true checksum]
                  end
          | _ :: _ =>
              match discover_after_all_tasks ext eventDescription
                      (init ++ [lastHook]) w with
              | Err e => Err e
              | Ok tasks =>
                  Ok (afterAllTask eventDescription hook false "" :: tasks)
              end
          end).
  rewrite IH.
  destruct (init ++ [lastHook]) as [|h l] eqn:Hl.
  - by destruct init.
  - by destruct (GlobalValuesChecksum ext w).
Qed.

(** X28.  Of the tasks that discovery makes for the afterAll hooks only
    the last one is marked as the last afterAll hook and carries the
    checksum of the global values; the checksum is taken only when
    there is an afterAll hook, and its error is the error of the
    discovery. *)
Theorem discover_after_all_tasks_marks_last
    (eventDescription : string) (w : W) :
  discover_after_all_tasks ext eventDescription [] w = Ok []
  /\ forall init lastHook,
       discover_after_all_tasks ext eventDescription (init ++ [lastHook]) w
       = match GlobalValuesChecksum ext w with
         | Ok checksum =>
             Ok (((fun hookName =>
                     afterAllTask eventDescription hookName false "")
                  <$> init)
                 ++ [afterAllTask eventDescription lastHook true checksum])
         | Err e => Err e
         end.
Proof. split; [done|]. intros. apply discover_after_all_tasks_snoc. Qed.

(** X29.  The tasks of a successful discovery, in order: a ModuleRun
    task for every enabled module, with the start-up hooks when the
    discovery task has them or the module is newly enabled; then a
    ModuleDelete task for every module to disable; then a ModulePurge
    task for every released unknown module; then the tasks of the
    afterAll hooks.  All carry the event description of the discovery
    task with [DiscoverModulesState] added once. *)
Theorem RunDiscoverModulesState_tasks (discoverTask : Task) s s1
    (tasks : list Task) :
  RunDiscoverModulesState ext discoverTask s = (s1, Ok tasks) ->
  exists w' modulesState w2 afterAllTasks,
    let hm := Metadata discoverTask in
    let eventDescription :=
      add_suffix_once (EventDescription hm) "DiscoverModulesState" in
    DiscoverModulesState ext (world s) = (w', Ok modulesState)
    /\ discover_after_all_tasks ext eventDescription
         (GetGlobalHooksInOrder ext w2 AfterAll) w2 = Ok afterAllTasks
    /\ tasks
       = ((fun moduleName =>
             moduleRunTask eventDescription moduleName
               (OnStartupHooks hm
                || bool_decide (moduleName
                                ∈ NewlyEnabledModules modulesState)))
          <$> EnabledModules modulesState)
         ++ (moduleDeleteTask eventDescription
             <$> ModulesToDisable modulesState)
         ++ (modulePurgeTask eventDescription
             <$> ReleasedUnknownModules modulesState)
         ++ afterAllTasks.
Proof.
  unfold RunDiscoverModulesState, with_world. simpl.
  destruct (DiscoverModulesState ext (world s)) as [w' [ms|e]]; [|done].
  simpl.
  destruct (discover_delete_tasks ext _ _ (ModulesToDisable ms) w')
    as [w2 [deleteTasks|e]] eqn:Hdel; [|done]. simpl.
  destruct (discover_after_all_tasks ext _ _ w2)
    as [afterAllTasks|e] eqn:Hafter; [|done].
  intros [= <- <-]. exists w', ms, w2, afterAllTasks.
  split; [done|]. split; [done|].
  rewrite (discover_delete_tasks_Ok _ _ _ _ _ _ Hdel).
  f_equal. unfold discover_run_tasks. apply list_fmap_ext.
  intros i name _. by destruct (OnStartupHooks (Metadata discoverTask)).
Qed.

(** *** Event descriptions and requeued module runs *)

Lemma string_prefix_refl (str : string) : String.prefix str str = true.
Proof.
  induction str as [|c str IH]; [done|]. simpl.
  by destruct (ascii_dec c c).
Qed.

Lemma Contains_app (str rest substr : string) :
  Contains rest substr = true -> Contains (str +:+ rest) substr = true.
Proof.
  intros Hrest. induction str as [|c str IH]; [done|].
  change (String.prefix substr (String c (str +:+ rest))
          || Contains (str +:+ rest) substr = true).
  rewrite IH. apply orb_true_r.
Qed.

Lemma Contains_refl (str : string) : Contains str str = true.
Proof.
  destruct str as [|c str]; [done|].
  change (String.prefix (String c str) (String c str)
          || Contains str (String c str) = true).
  by rewrite string_prefix_refl.
Qed.

Lemma add_suffix_once_twice (eventDescription suffix : string) :
  add_suffix_once (add_suffix_once eventDescription suffix) suffix
  = add_suffix_once eventDescription suffix.
Proof.
  assert (Hadded : Contains (eventDescription +:+ "." +:+ suffix) suffix
                   = true).
  { apply Contains_app. apply (Contains_app "."). apply Contains_refl. }
  unfold add_suffix_once.
  destruct (Contains eventDescription suffix) eqn:Hc; simpl.
  - by rewrite Hc.
  - by rewrite Hadded.
Qed.

(** X30.  A module run that is queued again because its afterHelm hooks
    changed the values is queued without the start-up hooks and with
    [AfterHelmHooksChangeModuleValues] added once to its event
    description; when the handler runs the new task and queues a task
    again, that task is a copy of it: the description does not grow. *)
Theorem requeued_ModuleRun_is_stable t s (newTask : Task) :
  Type_ t = ModuleRun ->
  newTask ∈ AfterTasks (TaskHandler ext t s).2 ->
  Type_ newTask = ModuleRun
  /\ QueueName newTask = QueueName t
  /\ ModuleName (Metadata newTask) = ModuleName (Metadata t)
  /\ OnStartupHooks (Metadata newTask) = false
  /\ EventDescription (Metadata newTask)
     = add_suffix_once (EventDescription (Metadata t))
                       "AfterHelmHooksChangeModuleValues"
  /\ forall s2 again,
       again ∈ AfterTasks (TaskHandler ext newTask s2).2 -> again = newTask.
Proof.
  intros Ht. unfold TaskHandler at 1. rewrite Ht.
  unfold handle_ModuleRun, with_world_monitors.
  destruct (RunModule ext _ _ _ _) as [[w' ms'] [[|]|e]]; simpl;
    intros Hin; try (by apply elem_of_nil in Hin).
  apply list_elem_of_singleton in Hin as ->. simpl.
  split_and!; try done.
  intros s2 again. unfold TaskHandler. simpl.
  unfold handle_ModuleRun, with_world_monitors. simpl.
  destruct (RunModule ext _ _ _ _) as [[w2 ms2] [[|]|e]]; simpl;
    intros Hin; try (by apply elem_of_nil in Hin).
  apply list_elem_of_singleton in Hin as ->.
  unfold NewTask. simpl. by rewrite add_suffix_once_twice.
Qed.

End OperatorMoreFacts.

Section OperatorMoreExamples.
Import GoStrings Queue Operator OperatorSpec OperatorMore.

(** A schedule hook that changes the global values reloads all. *)
Lemma GlobalHookRun_reloads_all_iff_witness :
  Type_ schedule_task = GlobalHookRun
  /\ RunGlobalHook busy_operator (HookName (Metadata schedule_task))
       (MetaBindingType (Metadata schedule_task))
       (MetaBindingContext (Metadata schedule_task)) (world idle)
     = (tt, ("1f3a", "9c0d", None))
  /\ (mainQueue (TaskHandler busy_operator schedule_task idle).1
      <> mainQueue idle
      <-> None = (None : option error)
          /\ values_changed (Metadata schedule_task) "1f3a" "9c0d").
Proof.
  split; [reflexivity|]. split; [reflexivity|].
  exact (GlobalHookRun_reloads_all_iff busy_operator schedule_task idle tt
           "1f3a" "9c0d" None eq_refl eq_refl).
Defined.

(** The tasks of a discovery with two enabled modules, one of them
    newly enabled. *)
Lemma RunDiscoverModulesState_tasks_witness :
  let run := RunDiscoverModulesState busy_operator discover_task idle in
  exists tasks,
    run = (run.1, Ok tasks)
    /\ exists w' modulesState w2 afterAllTasks,
         DiscoverModulesState busy_operator (world idle)
         = (w', Ok modulesState)
         /\ discover_after_all_tasks busy_operator
              (add_suffix_once (EventDescription (Metadata discover_task))
                               "DiscoverModulesState")
              (GetGlobalHooksInOrder busy_operator w2 AfterAll) w2
            = Ok afterAllTasks
         /\ tasks
            = ((fun moduleName =>
                  moduleRunTask
                    (add_suffix_once
                       (EventDescription (Metadata discover_task))
                       "DiscoverModulesState")
                    moduleName
                    (OnStartupHooks (Metadata discover_task)
                     || bool_decide (moduleName
                                     ∈ NewlyEnabledModules modulesState)))
               <$> EnabledModules modulesState)
              ++ (moduleDeleteTask
                    (add_suffix_once
                       (EventDescription (Metadata discover_task))
                       "DiscoverModulesState")
                  <$> ModulesToDisable modulesState)
              ++ (modulePurgeTask
                    (add_suffix_once
                       (EventDescription (Metadata discover_task))
                       "DiscoverModulesState")
                  <$> ReleasedUnknownModules modulesState)
              ++ afterAllTasks.
Proof.
  intros run. eexists. split.
  - vm_compute. reflexivity.
  - apply (RunDiscoverModulesState_tasks busy_operator discover_task idle
             run.1).
    vm_compute. reflexivity.
Defined.

(** The module run that the run of module [app] queues again. *)
Lemma requeued_ModuleRun_is_stable_witness :
  let t := moduleRunTask "ModuleValuesChanged" "app" true in
  let newTask :=
    NewTask ModuleRun "main"
      {| EventDescription :=
           "ModuleValuesChanged.AfterHelmHooksChangeModuleValues";
         HookName := ""; ModuleName := "app"; MetaBindingType := None;
         MetaBindingContext := []; AllowFailure := false;
         OnStartupHooks := false; ReloadAllOnValuesChanges := false;
         LastAfterAllHook := false; ValuesChecksum := "" |} in
  Type_ t = ModuleRun
  /\ newTask ∈ AfterTasks (TaskHandler busy_operator t idle).2
  /\ forall s2 again,
       again ∈ AfterTasks (TaskHandler busy_operator newTask s2).2 ->
       again = newTask.
Proof.
  intros t newTask.
  assert (Hin : newTask ∈ AfterTasks (TaskHandler busy_operator t idle).2)
    by apply list_elem_of_here.
  split; [reflexivity|]. split; [exact Hin|].
  exact (proj2 (proj2 (proj2 (proj2 (proj2
           (requeued_ModuleRun_is_stable busy_operator t idle newTask
              eq_refl Hin)))))).
Defined.

End OperatorMoreExamples.
